(** * ESPHome Update Manager: the update queue

    A shallow embedding of
    [custom_components/esphome_update_manager/update_queue.py] (with the
    Supervisor helpers of [__init__.py] and the constants of [const.py])
    and the properties of its orchestrator that were checked against it.

    Layout: data model and synchronous API first, then the host (Home
    Assistant, asyncio) as a scripted world, the coroutine monad, the
    coroutines themselves, and the theorems. *)

From Stdlib Require Import ZArith Lia Bool.
From stdpp Require Import base option list strings gmap fin_maps.

Local Open Scope Z_scope.

(** ** const.py *)

Definition DEFAULT_UPDATE_TIMEOUT : Z := 600.
Definition DEFAULT_DELAY_BETWEEN : Z := 1.

Definition STATUS_QUEUED : string := "queued".
Definition STATUS_RUNNING : string := "running".
Definition STATUS_SUCCESS : string := "success".
Definition STATUS_FAILED : string := "failed".
Definition STATUS_SKIPPED : string := "skipped".
Definition STATUS_CANCELLED : string := "cancelled".

(** ** update_queue.py: module constants *)

Definition INITIAL_PROGRESS_TIMEOUT : Z := 60.
Definition MAX_UNAVAILABLE_DURATION : Z := 120.

(** ** Data model *)

(** A [datetime.now()] reading. Only its presence and its identity are
    used by the code, so a reading is kept as the integer the wall clock
    showed. *)
Definition datetime : Type := Z.

(** The text [d.isoformat()]; the rendering itself is Python's. *)
Inductive isotext : Type := isoformat (d : datetime).

(** [class DeviceUpdateResult] *)
Record DeviceUpdateResult : Type := mkItem {
  entity_id : string;
  status : string;
  started_at : option datetime;
  finished_at : option datetime;
  error : option string;
}.

(** [DeviceUpdateResult.__init__] *)
Definition new_item (eid : string) : DeviceUpdateResult :=
  mkItem eid STATUS_QUEUED None None None.

Definition with_status (v : string) (r : DeviceUpdateResult) : DeviceUpdateResult :=
  mkItem (entity_id r) v (started_at r) (finished_at r) (error r).
Definition with_started_at (v : option datetime) (r : DeviceUpdateResult) : DeviceUpdateResult :=
  mkItem (entity_id r) (status r) v (finished_at r) (error r).
Definition with_finished_at (v : option datetime) (r : DeviceUpdateResult) : DeviceUpdateResult :=
  mkItem (entity_id r) (status r) (started_at r) v (error r).
Definition with_error (v : option string) (r : DeviceUpdateResult) : DeviceUpdateResult :=
  mkItem (entity_id r) (status r) (started_at r) (finished_at r) v.

(** What the queue sees of the [asyncio.Task] it keeps in [_task]:
    whether it is done, and whether a cancellation has been requested and
    not yet thrown into the coroutine. *)
Record Task : Type := mkTask {
  done : bool;
  must_cancel : bool;
}.

(** [asyncio.Task.cancel]: a request; nothing happens to a finished task. *)
Definition Task_cancel (t : Task) : Task :=
  if done t then t else mkTask false true.

(** [class UpdateQueue]: the fields set by [__init__] ([hass] is the
    world, further down). *)
Record UpdateQueue : Type := mkQueue {
  _queue : list DeviceUpdateResult;
  _running : bool;
  _cancelled : bool;
  _current_index : nat;
  _task : option Task;
  _stop_addon_slug : option string;
  _addon_was_running : bool;
}.

(** [UpdateQueue.__init__] *)
Definition UpdateQueue_init : UpdateQueue :=
  mkQueue [] false false 0%nat None None false.

Definition set_queue (v : list DeviceUpdateResult) (q : UpdateQueue) : UpdateQueue :=
  mkQueue v (_running q) (_cancelled q) (_current_index q) (_task q)
          (_stop_addon_slug q) (_addon_was_running q).
Definition set_running (v : bool) (q : UpdateQueue) : UpdateQueue :=
  mkQueue (_queue q) v (_cancelled q) (_current_index q) (_task q)
          (_stop_addon_slug q) (_addon_was_running q).
Definition set_cancelled (v : bool) (q : UpdateQueue) : UpdateQueue :=
  mkQueue (_queue q) (_running q) v (_current_index q) (_task q)
          (_stop_addon_slug q) (_addon_was_running q).
Definition set_current_index (v : nat) (q : UpdateQueue) : UpdateQueue :=
  mkQueue (_queue q) (_running q) (_cancelled q) v (_task q)
          (_stop_addon_slug q) (_addon_was_running q).
Definition set_task (v : option Task) (q : UpdateQueue) : UpdateQueue :=
  mkQueue (_queue q) (_running q) (_cancelled q) (_current_index q) v
          (_stop_addon_slug q) (_addon_was_running q).
Definition set_addon_was_running (v : bool) (q : UpdateQueue) : UpdateQueue :=
  mkQueue (_queue q) (_running q) (_cancelled q) (_current_index q) (_task q)
          (_stop_addon_slug q) v.

(** ** Synchronous API *)

(** One row of the [results] property. *)
Record ResultRow : Type := mkRow {
  row_entity_id : string;
  row_status : string;
  row_started_at : option isotext;
  row_finished_at : option isotext;
  row_error : option string;
}.

(** The dictionary that [results] builds for one item. *)
Definition result_row (r : DeviceUpdateResult) : ResultRow :=
  mkRow (entity_id r) (status r)
        (isoformat <$> started_at r)
        (isoformat <$> finished_at r)
        (error r).

(** [UpdateQueue.results] *)
Definition results (q : UpdateQueue) : list ResultRow :=
  result_row <$> _queue q.

(** [counts[r.status] = counts.get(r.status, 0) + 1] *)
Definition count_status (counts : gmap string nat) (r : DeviceUpdateResult)
  : gmap string nat :=
  <[status r := (default 0 (counts !! status r) + 1)%nat]> counts.

(** [UpdateQueue.summary] *)
Definition summary (q : UpdateQueue) : gmap string nat :=
  foldl count_status ∅ (_queue q).

(** [UpdateQueue.is_running] *)
Definition is_running (q : UpdateQueue) : bool := _running q.

(** A synchronous method either returns or raises [RuntimeError]; the
    object it leaves behind is returned next to the outcome. *)
Inductive call (A : Type) : Type :=
| Returned (a : A)
| RuntimeError (msg : string).
Arguments Returned {A} a.
Arguments RuntimeError {A} msg.

(** [UpdateQueue.start]; [hass.async_create_task(self._run())] hands the
    coroutine to the event loop and gives back a fresh pending task. *)
Definition start (entity_ids : list string) (stop_addon_slug : option string)
    (q : UpdateQueue) : call unit * UpdateQueue :=
  if _running q then (RuntimeError "Update queue is already running", q)
  else (Returned tt,
        mkQueue (new_item <$> entity_ids) true false 0%nat
                (Some (mkTask false false)) stop_addon_slug false).

(** [UpdateQueue.cancel] *)
Definition cancel (q : UpdateQueue) : UpdateQueue :=
  let q := set_cancelled true q in
  match _task q with
  | Some t => if negb (done t) then set_task (Some (Task_cancel t)) q else q
  | None => q
  end.

(** [UpdateQueue.clear] *)
Definition clear (q : UpdateQueue) : call unit * UpdateQueue :=
  if _running q then (RuntimeError "Cannot clear while updates are running", q)
  else (Returned tt, set_queue [] q).

(** The payload of the [esphome_update_manager/status] command. *)
Record StatusReply : Type := mkStatus {
  reply_running : bool;
  reply_results : list ResultRow;
  reply_summary : gmap string nat;
}.

Definition ws_get_status (q : UpdateQueue) : StatusReply :=
  mkStatus (is_running q) (results q) (summary q).

(** The sum of the per-status counts of a summary mapping. *)
Definition total_count (m : gmap string nat) : nat :=
  map_fold (fun _ n acc => (n + acc)%nat) 0%nat m.

(** ** The host: Home Assistant and the event loop, as a scripted world

    The queue's coroutines run on a single-threaded event loop.  Between
    two suspension points ([await]) nothing else runs, so the state
    machine, the cancellation flag and the clocks are sampled once per
    resumed segment.  What happens while the task is suspended is one
    [Wake] of the script: how far the clocks moved, the new entity states,
    whether [cancel()] was called (or the host cancelled the task), and
    how the awaited host call ended.  A finite script is a finite prefix
    of an execution; a coroutine that reaches the end of the script is
    still [Suspended] there. *)

(** [hass.states.get(entity_id)]: the [state] string and the truth value
    of [attributes.get(ATTR_IN_PROGRESS, False)]. *)
Record HAState : Type := mkState {
  state : string;
  attr_in_progress : bool;
}.

(** A decoded JSON document, as [await resp.json()] returns it: [None],
    a [bool], an [int], a [float] (of which nothing but its truth value
    is ever read), a [str], a [list], or a [dict] given by its items,
    each key once. *)
#[warnings="-register-all"]
Inductive Json : Type :=
| JNull
| JBool (b : bool)
| JInt (n : Z)
| JFloat (is_zero : bool)
| JString (s : string)
| JArray (items : list Json)
| JObject (fields : list (string * Json)).

(** The truth value of a decoded document. *)
Definition json_truthy (j : Json) : bool :=
  match j with
  | JNull => false
  | JBool b => b
  | JInt n => negb (n =? 0)
  | JFloat is_zero => negb is_zero
  | JString s => negb (String.eqb s EmptyString)
  | JArray items => match items with [] => false | _ :: _ => true end
  | JObject fields => match fields with [] => false | _ :: _ => true end
  end.

(** The name of its Python type. *)
Definition type_name (j : Json) : string :=
  match j with
  | JNull => "NoneType"
  | JBool _ => "bool"
  | JInt _ => "int"
  | JFloat _ => "float"
  | JString _ => "str"
  | JArray _ => "list"
  | JObject _ => "dict"
  end.

(** [d.get(key, default)] on the items of a [dict]. *)
Fixpoint dict_get (fields : list (string * Json)) (key : string) (default : Json)
    : Json :=
  match fields with
  | [] => default
  | (k, v) :: rest => if String.eqb k key then v else dict_get rest key default
  end.

(** [j == text] *)
Definition json_eq_text (j : Json) (text : string) : bool :=
  match j with
  | JString s => String.eqb s text
  | _ => false
  end.

Inductive exn : Type :=
| CancelledError
| Exception (msg : string).

Inductive Interrupt : Type :=
| NoInterrupt
| UserCancel      (* [queue.cancel()] was called *)
| HostCancel.     (* the host cancelled the task itself *)

Record Wake : Type := mkWake {
  wk_loop_clock : Z;
  wk_wall_clock : datetime;
  wk_states : string -> option HAState;
  wk_interrupt : Interrupt;
  wk_raise : option exn;            (* the awaited host call raised *)
  wk_http_status : Z;               (* [resp.status] *)
  wk_json : option Json;            (* [await resp.json()]; [None] when the
                                       body cannot be decoded and the call
                                       raises *)
}.

Record World : Type := mkWorld {
  loop_clock : Z;                          (* [loop.time()] *)
  wall_clock : datetime;                   (* [datetime.now()] *)
  hass_states : string -> option HAState;  (* [hass.states] *)
  future : list Wake;
}.

(** Calls made on the host, in order. *)
Inductive Event : Type :=
| EvStatesGet (entity : string)
| EvServiceCall (domain service entity : string)
| EvFire (event_type : string) (rows : list ResultRow) (counts : gmap string nat)
| EvSupervisor (method path : string)
| EvSleep (seconds : Z).

Record Sys : Type := mkSys {
  obj : UpdateQueue;
  world : World;
  trace : list Event;
}.

Definition UPDATE_DOMAIN : string := "update".

(** ** The coroutine monad *)

Inductive outcome (A : Type) : Type :=
| Ret (a : A)
| Raise (e : exn)
| Suspended.
Arguments Ret {A} a.
Arguments Raise {A} e.
Arguments Suspended {A}.

Definition M (A : Type) : Type := Sys -> outcome A * Sys.

Definition ret {A} (a : A) : M A := fun s => (Ret a, s).

Definition bind {A B} (m : M A) (k : A -> M B) : M B := fun s =>
  match m s with
  | (Ret a, s') => k a s'
  | (Raise e, s') => (Raise e, s')
  | (Suspended, s') => (Suspended, s')
  end.

Definition raise {A} (e : exn) : M A := fun s => (Raise e, s).

Declare Scope coro_scope.
Delimit Scope coro_scope with coro.
Notation "x <- c1 ;; c2" := (bind c1 (fun x => c2))
  (at level 20, c1 at level 99, c2 at level 200, only parsing) : coro_scope.
Notation "c1 ;; c2" := (bind c1 (fun _ => c2))
  (at level 100, c2 at level 200, right associativity, only parsing) : coro_scope.
Local Open Scope coro_scope.

(** [try: body except ...: handler]; a handler of [None] is a clause that
    does not match, so the exception goes on. *)
Definition try_except {A} (body : M A) (handler : exn -> option (M A)) : M A :=
  fun s =>
  match body s with
  | (Raise e, s') =>
      match handler e with
      | Some h => h s'
      | None => (Raise e, s')
      end
  | r => r
  end.

(** [try: body finally: fin].  A suspended body has not left the [try]. *)
Definition try_finally {A} (body : M A) (fin : M unit) : M A := fun s =>
  match body s with
  | (Suspended, s') => (Suspended, s')
  | (r, s') =>
      match fin s' with
      | (Ret _, s'') => (r, s'')
      | (Raise e, s'') => (Raise e, s'')
      | (Suspended, s'') => (Suspended, s'')
      end
  end.

Definition get_obj : M UpdateQueue := fun s => (Ret (obj s), s).

Definition modify_obj (f : UpdateQueue -> UpdateQueue) : M unit := fun s =>
  (Ret tt, mkSys (f (obj s)) (world s) (trace s)).

Definition emit (ev : Event) : M unit := fun s =>
  (Ret tt, mkSys (obj s) (world s) (trace s ++ [ev])).

(** [item.<field> = ...] on the [i]-th object of [self._queue]. *)
Definition item_set (i : nat) (f : DeviceUpdateResult -> DeviceUpdateResult) : M unit :=
  modify_obj (fun q => set_queue (alter f i (_queue q)) q).

Definition item_get (i : nat) : M DeviceUpdateResult := fun s =>
  (Ret (default (new_item EmptyString) (_queue (obj s) !! i)), s).

(** [datetime.now()] *)
Definition datetime_now : M datetime := fun s => (Ret (wall_clock (world s)), s).

(** [asyncio.get_event_loop().time()] *)
Definition loop_time : M Z := fun s => (Ret (loop_clock (world s)), s).

(** [self.hass.states.get(entity_id)] *)
Definition states_get (eid : string) : M (option HAState) :=
  emit (EvStatesGet eid) ;;
  fun s => (Ret (hass_states (world s) eid), s).

(** What ran on the event loop while the task was suspended. *)
Definition interrupt_obj (i : Interrupt) (q : UpdateQueue) : UpdateQueue :=
  match i with
  | NoInterrupt => q
  | UserCancel => cancel q
  | HostCancel => set_task (Task_cancel <$> _task q) q
  end.

(** One suspension point: the next wake of the script. *)
Definition suspend : M Wake := fun s =>
  match future (world s) with
  | [] => (Suspended, s)
  | wk :: rest =>
      (Ret wk,
       mkSys (interrupt_obj (wk_interrupt wk) (obj s))
             (mkWorld (wk_loop_clock wk) (wk_wall_clock wk) (wk_states wk) rest)
             (trace s))
  end.

(** A requested cancellation is thrown into the coroutine when it is
    resumed; the request is spent by that. *)
Definition take_cancel : M bool := fun s =>
  match _task (obj s) with
  | Some t =>
      if must_cancel t
      then (Ret true, mkSys (set_task (Some (mkTask (done t) false)) (obj s))
                            (world s) (trace s))
      else (Ret false, s)
  | None => (Ret false, s)
  end.

(** [await asyncio.sleep(seconds)] *)
Definition asyncio_sleep (seconds : Z) : M unit :=
  emit (EvSleep seconds) ;;
  _ <- suspend ;;
  c <- take_cancel ;;
  if c then raise CancelledError else ret tt.

(** [await] on a call into the host: a pending cancellation is thrown
    into the callee, and the script says how the callee ends. *)
Definition await_host : M Wake :=
  wk <- suspend ;;
  _ <- take_cancel ;;
  ret wk.

(** [await self.hass.services.async_call(UPDATE_DOMAIN, "install",
    {"entity_id": ...}, blocking=True)] *)
Definition async_call_install (eid : string) : M unit :=
  emit (EvServiceCall UPDATE_DOMAIN "install" eid) ;;
  wk <- await_host ;;
  match wk_raise wk with
  | Some e => raise e
  | None => ret tt
  end.

(** [self.hass.bus.async_fire(event_type, {"results": self.results,
    "summary": self.summary})] *)
Definition bus_async_fire (event_type : string) : M unit :=
  q <- get_obj ;;
  emit (EvFire event_type (results q) (summary q)).

(** ** __init__.py: the Supervisor helpers *)

(** [j.get(key, default)]: the lookup of a [dict]; a value of any other
    type has no attribute [get], and the call raises [AttributeError]. *)
Definition AttributeError (j : Json) : exn :=
  Exception ("'" +:+ type_name j +:+ "' object has no attribute 'get'").

Definition json_get (j : Json) (key : string) (default : Json) : M Json :=
  match j with
  | JObject fields => ret (dict_get fields key default)
  | _ => raise (AttributeError j)
  end.

(** [_supervisor_api(hass, method, path)].  A method other than GET and
    POST makes no request.  The request and the reading of its body are
    one exchange with the Supervisor.  [except Exception] turns every
    failure into [None]; [CancelledError] is not an [Exception] and goes
    through.  The Python [None] that is returned is [JNull]. *)
Definition _supervisor_api (method path : string) : M Json :=
  if String.eqb method "GET" || String.eqb method "POST" then
    emit (EvSupervisor method path) ;;
    wk <- await_host ;;
    match wk_raise wk with
    | Some CancelledError => raise CancelledError
    | Some (Exception _) => ret JNull
    | None =>
        if wk_http_status wk =? 200 then
          match wk_json wk with
          | Some body => ret body
          | None => ret JNull
          end
        else ret JNull
    end
  else ret JNull.

(** [result.get("result") == "ok"], guarded by [guard]. *)
Definition result_is_ok (guard : bool) (result : Json) : M bool :=
  if guard then
    r <- json_get result "result" JNull ;;
    ret (json_eq_text r "ok")
  else ret false.

(** [async_get_addon_info]; the guard is the truth value of [result]. *)
Definition async_get_addon_info (slug : string) : M Json :=
  result <- _supervisor_api "GET" ("/addons/" +:+ slug +:+ "/info") ;;
  ok <- result_is_ok (json_truthy result) result ;;
  if ok then json_get result "data" (JObject []) else ret JNull.

Definition is_not_none (j : Json) : bool :=
  match j with
  | JNull => false
  | _ => true
  end.

(** [async_stop_addon]; the guard is [result is not None]. *)
Definition async_stop_addon (slug : string) : M bool :=
  result <- _supervisor_api "POST" ("/addons/" +:+ slug +:+ "/stop") ;;
  result_is_ok (is_not_none result) result.

(** [async_start_addon] *)
Definition async_start_addon (slug : string) : M bool :=
  result <- _supervisor_api "POST" ("/addons/" +:+ slug +:+ "/start") ;;
  result_is_ok (is_not_none result) result.

(** ** update_queue.py: the coroutines *)

(** Python's [needle in hay] on strings. *)
Fixpoint str_contains (needle hay : string) : bool :=
  String.prefix needle hay ||
  match hay with
  | EmptyString => false
  | String _ rest => str_contains needle rest
  end.

(** The slug when it is truthy ([not self._stop_addon_slug] is true for
    [None] and for the empty string). *)
Definition truthy_slug (slug : option string) : option string :=
  match slug with
  | Some s => if String.eqb s EmptyString then None else Some s
  | None => None
  end.

Definition cancelled_flag : M bool := fun s => (Ret (_cancelled (obj s)), s).

(** [UpdateQueue._is_entity_available] *)
Definition _is_entity_available (eid : string) : M bool :=
  st <- states_get eid ;;
  match st with
  | None => ret false
  | Some st =>
      ret (negb (String.eqb (state st) "unavailable"
                 || String.eqb (state st) "unknown"))
  end.

(** The loop of [UpdateQueue._wait_for_completion].  Every iteration that
    goes round again has slept once, so [fuel] only has to exceed the
    number of wakes left in the script. *)
Fixpoint wait_loop (fuel : nat) (eid : string) (end_time : Z)
    (unavailable_since : option Z) (saw_in_progress : bool)
    : M (bool * option string) :=
  match fuel with
  | O => fun s => (Suspended, s)
  | S fuel =>
    now <- loop_time ;;
    if negb (now <? end_time) then
      (* Overall timeout *)
      if saw_in_progress
      then ret (false, Some "Update timed out — device may still be updating")
      else ret (false, Some "Update timed out — no progress detected")
    else
    c <- cancelled_flag ;;
    if c then ret (false, Some "Cancelled by user") else
    st <- states_get eid ;;
    match st with
    | None =>
        (* Entity completely gone *)
        match unavailable_since with
        | None =>
            t <- loop_time ;;
            asyncio_sleep 10 ;;
            wait_loop fuel eid end_time (Some t) saw_in_progress
        | Some since =>
            t <- loop_time ;;
            if t - since >? MAX_UNAVAILABLE_DURATION
            then ret (false, Some "Device disappeared and did not come back")
            else
              asyncio_sleep 10 ;;
              wait_loop fuel eid end_time unavailable_since saw_in_progress
        end
    | Some st =>
        if String.eqb (state st) "unavailable" then
          (* Entity unavailable *)
          match unavailable_since with
          | None =>
              t <- loop_time ;;
              asyncio_sleep 10 ;;
              wait_loop fuel eid end_time (Some t) saw_in_progress
          | Some since =>
              t <- loop_time ;;
              if t - since >? MAX_UNAVAILABLE_DURATION
              then
                if saw_in_progress
                then ret (false, Some "Device went offline during update and did not recover")
                else ret (false, Some "Device became unavailable")
              else
                asyncio_sleep 10 ;;
                wait_loop fuel eid end_time unavailable_since saw_in_progress
          end
        else
          (* Entity is available again — reset unavailable timer *)
          let in_progress := attr_in_progress st in
          let saw_in_progress := if in_progress then true else saw_in_progress in
          if negb in_progress && String.eqb (state st) "off" then
            ret (true, None)
          else if negb in_progress && String.eqb (state st) "on" then
            (if saw_in_progress
             then asyncio_sleep 10
             else asyncio_sleep 10) ;;
            wait_loop fuel eid end_time None saw_in_progress
          else
            asyncio_sleep 5 ;;
            wait_loop fuel eid end_time None saw_in_progress
    end
  end.

Definition pending_wakes : M nat := fun s => (Ret (length (future (world s))), s).

(** [UpdateQueue._wait_for_completion] *)
Definition _wait_for_completion (eid : string) (timeout : Z)
    : M (bool * option string) :=
  now <- loop_time ;;
  let end_time := now + timeout in
  asyncio_sleep 5 ;;
  n <- pending_wakes ;;
  wait_loop (S n) eid end_time None false.

(** [UpdateQueue._update_single]; [item] is the [i]-th object of the
    queue. *)
Definition _update_single (i : nat) : M unit :=
  item_set i (with_status STATUS_RUNNING) ;;
  now <- datetime_now ;;
  item_set i (with_started_at (Some now)) ;;
  item <- item_get i ;;
  try_finally
    (try_except
       (avail <- _is_entity_available (entity_id item) ;;
        if negb avail then
          item_set i (with_status STATUS_SKIPPED) ;;
          item_set i (with_error (Some "Device unavailable — skipped")) ;;
          now <- datetime_now ;;
          item_set i (with_finished_at (Some now))
        else
          installed <-
            try_except
              (async_call_install (entity_id item) ;; ret true)
              (fun install_err =>
                 match install_err with
                 | Exception error_msg =>
                     Some (
                       (if str_contains "Error compiling" error_msg then
                          item_set i (with_status STATUS_FAILED) ;;
                          item_set i (with_error (Some ("Compile failed — " +:+ error_msg)))
                        else
                          item_set i (with_status STATUS_FAILED) ;;
                          item_set i (with_error (Some ("Install failed — " +:+ error_msg)))) ;;
                       now <- datetime_now ;;
                       item_set i (with_finished_at (Some now)) ;;
                       ret false)
                 | CancelledError => None
                 end) ;;
          if negb installed then ret tt else
          (* If we get here, install call succeeded — verify completion *)
          st <- states_get (entity_id item) ;;
          if match st with
             | Some st => String.eqb (state st) "off"
             | None => false
             end
          then item_set i (with_status STATUS_SUCCESS)
          else
            res <- _wait_for_completion (entity_id item) DEFAULT_UPDATE_TIMEOUT ;;
            c <- cancelled_flag ;;
            if c then
              item_set i (with_status STATUS_CANCELLED) ;;
              item_set i (with_error (Some "Cancelled by user"))
            else if fst res then
              item_set i (with_status STATUS_SUCCESS)
            else
              item_set i (with_status STATUS_FAILED) ;;
              item_set i (with_error
                            (Some (match snd res with
                                   | Some reason =>
                                       if String.eqb reason EmptyString then "Update failed" else reason
                                   | None => "Update failed"
                                   end))))
       (fun err =>
          match err with
          | CancelledError =>
              Some (item_set i (with_status STATUS_CANCELLED) ;;
                    item_set i (with_error (Some "Cancelled by user")) ;;
                    raise CancelledError)
          | Exception msg =>
              Some (item_set i (with_status STATUS_FAILED) ;;
                    item_set i (with_error (Some msg)))
          end))
    (item <- item_get i ;;
     match finished_at item with
     | Some _ => ret tt
     | None =>
         now <- datetime_now ;;
         item_set i (with_finished_at (Some now))
     end).

(** [UpdateQueue._stop_addon]; the add-on's name is only logged. *)
Definition _stop_addon : M unit :=
  q <- get_obj ;;
  match truthy_slug (_stop_addon_slug q) with
  | None => ret tt
  | Some slug =>
      info <- async_get_addon_info slug ;;
      started <-
        (if json_truthy info then
           st <- json_get info "state" JNull ;;
           ret (json_eq_text st "started")
         else ret false) ;;
      if started then
        modify_obj (set_addon_was_running true) ;;
        addon_name <- json_get info "name" (JString slug) ;;
        success <- async_stop_addon slug ;;
        if success then
          (* Give it a moment to free memory *)
          asyncio_sleep 5
        else
          modify_obj (set_addon_was_running false)
      else ret tt
  end.

(** [UpdateQueue._restart_addon] *)
Definition _restart_addon : M unit :=
  q <- get_obj ;;
  match truthy_slug (_stop_addon_slug q) with
  | None => ret tt
  | Some slug =>
      if negb (_addon_was_running q) then ret tt else
      info <- async_get_addon_info slug ;;
      addon_name <-
        (if json_truthy info then json_get info "name" (JString slug)
         else ret (JString slug)) ;;
      success <- async_start_addon slug ;;
      ret tt
  end.

Definition EVENT_PROGRESS : string := "esphome_update_manager_progress".
Definition EVENT_FINISHED : string := "esphome_update_manager_finished".

(** [await asyncio.wait_for(self._wait_for_cancel(),
    timeout=DEFAULT_DELAY_BETWEEN)] inside [try ... except
    asyncio.TimeoutError: pass]: one suspension of at most the delay; the
    time-out and the early return of [_wait_for_cancel] both go on with
    the loop. *)
Definition wait_for_cancel_or_timeout : M unit :=
  asyncio_sleep DEFAULT_DELAY_BETWEEN.

(** The body of [for i, item in enumerate(self._queue)] in
    [UpdateQueue._run]; [n] is [len(self._queue)]. *)
Definition loop_body (n i : nat) : M unit :=
  modify_obj (set_current_index i) ;;
  c <- cancelled_flag ;;
  if c then
    item_set i (with_status STATUS_CANCELLED)
  else
    _update_single i ;;
    bus_async_fire EVENT_PROGRESS ;;
    c <- cancelled_flag ;;
    if (i <? n - 1)%nat && negb c
    then wait_for_cancel_or_timeout
    else ret tt.

Fixpoint for_each (idxs : list nat) (body : nat -> M unit) : M unit :=
  match idxs with
  | [] => ret tt
  | i :: rest => body i ;; for_each rest body
  end.

(** The [except asyncio.CancelledError] clause of [UpdateQueue._run], on
    one item. *)
Definition cancel_item (now : datetime) (item : DeviceUpdateResult)
    : DeviceUpdateResult :=
  if String.eqb (status item) STATUS_QUEUED then
    with_status STATUS_CANCELLED item
  else if String.eqb (status item) STATUS_RUNNING then
    with_finished_at (Some now)
      (with_error (Some "Cancelled by user")
         (with_status STATUS_CANCELLED item))
  else item.

Definition on_cancelled : M unit :=
  now <- datetime_now ;;
  modify_obj (fun q => set_queue (cancel_item now <$> _queue q) q).

(** The [finally] clause of [UpdateQueue._run]. *)
Definition run_cleanup : M unit :=
  (* Always restart add-on if it was stopped *)
  try_except _restart_addon
    (fun err =>
       match err with
       | Exception _ => Some (ret tt)
       | CancelledError => None
       end) ;;
  modify_obj (set_running false) ;;
  bus_async_fire EVENT_FINISHED.

(** [UpdateQueue._run] *)
Definition _run : M unit :=
  try_finally
    (try_except
       ((* Stop add-on if requested *)
        _stop_addon ;;
        q <- get_obj ;;
        let n := length (_queue q) in
        for_each (seq 0 n) (loop_body n))
       (fun err =>
          match err with
          | CancelledError => Some on_cancelled
          | Exception _ => None
          end))
    run_cleanup.

(** The task made by [start]: it runs [_run] and is done when the
    coroutine has returned or raised.  A cancellation requested before
    the task's first step is thrown into the coroutine before it has
    begun: the task ends cancelled and nothing of [_run] is executed. *)
Definition mark_done (q : UpdateQueue) : UpdateQueue :=
  set_task ((fun t => mkTask true (must_cancel t)) <$> _task q) q.

Definition run_task (s : Sys) : outcome unit * Sys :=
  match take_cancel s with
  | (Ret true, s0) =>
      (Raise CancelledError, mkSys (mark_done (obj s0)) (world s0) (trace s0))
  | _ =>
      match _run s with
      | (Suspended, s') => (Suspended, s')
      | (r, s') => (r, mkSys (mark_done (obj s')) (world s') (trace s'))
      end
  end.

(** * Specification vocabulary *)

(** ** Frames: what a coroutine leaves alone

    [frame Rq P s s'] relates a state to a later one: the queue moved
    along [Rq], the fields that only [start] and [_run] themselves assign
    are unchanged, a raised cancellation flag stays raised, and the trace
    grew by host calls that all satisfy [P].  [drift] is the same without
    the run flag and the add-on memory, for the hooks that write them. *)

Definition kind_poll (ev : Event) : Prop :=
  match ev with
  | EvStatesGet _ | EvSleep _ => True
  | _ => False
  end.

Definition kind_job (ev : Event) : Prop :=
  match ev with
  | EvStatesGet _ | EvSleep _ | EvServiceCall _ _ _ => True
  | _ => False
  end.

Definition kind_batch (ev : Event) : Prop :=
  match ev with
  | EvSupervisor _ _ => False
  | _ => True
  end.

Definition kind_any (ev : Event) : Prop := True.

Definition same_except (i : nat) (l l' : list DeviceUpdateResult) : Prop :=
  length l' = length l /\ forall j, j <> i -> l' !! j = l !! j.

Definition same_length (l l' : list DeviceUpdateResult) : Prop :=
  length l' = length l.

Record frame (Rq : relation (list DeviceUpdateResult)) (P : Event -> Prop)
    (s s' : Sys) : Prop := mkFrame {
  fr_queue : Rq (_queue (obj s)) (_queue (obj s'));
  fr_running : _running (obj s') = _running (obj s);
  fr_slug : _stop_addon_slug (obj s') = _stop_addon_slug (obj s);
  fr_was : _addon_was_running (obj s') = _addon_was_running (obj s);
  fr_flag : _cancelled (obj s) = true -> _cancelled (obj s') = true;
  fr_trace : exists evs, trace s' = trace s ++ evs /\ Forall P evs;
}.

Record drift (Rq : relation (list DeviceUpdateResult)) (P : Event -> Prop)
    (s s' : Sys) : Prop := mkDrift {
  dr_queue : Rq (_queue (obj s)) (_queue (obj s'));
  dr_slug : _stop_addon_slug (obj s') = _stop_addon_slug (obj s);
  dr_flag : _cancelled (obj s) = true -> _cancelled (obj s') = true;
  dr_trace : exists evs, trace s' = trace s ++ evs /\ Forall P evs;
}.

(** [preserves R m]: running [m] from any state ends, whatever the
    outcome, in a state related to the first by [R]. *)
Definition preserves (R : relation Sys) {A} (m : M A) : Prop :=
  forall s, R s (snd (m s)).

Abbreviation keeps Rq P := (preserves (frame Rq P)).
Abbreviation drifts Rq P := (preserves (drift Rq P)).

(** ** Weakest preconditions

    [wp m Q s]: the outcome and the final state of [m] from [s] satisfy
    [Q]. *)
Definition wp {A} (m : M A) (Q : outcome A -> Sys -> Prop) (s : Sys) : Prop :=
  Q (fst (m s)) (snd (m s)).

(** ** What [_update_single] leaves in the item it was given *)

Definition job_outcome (it : DeviceUpdateResult) (r : outcome unit)
    (it' : DeviceUpdateResult) (s' : Sys) : Prop :=
  match r with
  | Ret _ =>
      is_Some (finished_at it')
      /\ (status it' = STATUS_SKIPPED \/ status it' = STATUS_FAILED
          \/ status it' = STATUS_SUCCESS
          \/ (status it' = STATUS_CANCELLED /\ _cancelled (obj s') = true
              /\ error it' = Some "Cancelled by user"))
  | Raise CancelledError =>
      status it' = STATUS_CANCELLED /\ error it' = Some "Cancelled by user"
      /\ is_Some (finished_at it')
  | Raise (Exception _) => False
  | Suspended =>
      status it' = STATUS_RUNNING /\ finished_at it' = finished_at it
      /\ error it' = error it
  end.

Definition job_post (it : DeviceUpdateResult) (now : datetime) (i : nat)
    (r : outcome unit) (s' : Sys) : Prop :=
  exists it', _queue (obj s') !! i = Some it'
    /\ entity_id it' = entity_id it /\ started_at it' = Some now
    /\ job_outcome it r it' s'.

(** The probe readings on which [_is_entity_available] answers False. *)
Definition unreachable (st : option HAState) : bool :=
  match st with
  | None => true
  | Some st => String.eqb (state st) "unavailable" || String.eqb (state st) "unknown"
  end.

(** ** Small worlds for the examples *)

Definition demo_world (st : option HAState) (script : list Wake) : World :=
  mkWorld 0 1000
    (fun e => if String.eqb e "update.kitchen" then st else None) script.

Definition demo_queue : UpdateQueue :=
  snd (start ["update.kitchen"; "update.porch"] None UpdateQueue_init).

(** ** Invariants of the job sequence *)

(** A job that has no start timestamp has neither a finish timestamp nor
    an error text, and is still Queued or was marked Cancelled. *)
Definition never_started_ok (it : DeviceUpdateResult) : Prop :=
  started_at it = None ->
  finished_at it = None /\ error it = None
  /\ (status it = STATUS_QUEUED \/ status it = STATUS_CANCELLED).

Definition every_item (J : DeviceUpdateResult -> Prop) (s : Sys) : Prop :=
  forall j it, _queue (obj s) !! j = Some it -> J it.

(** [carries I]: if [I] held before, it holds after. *)
Definition carries (I : Sys -> Prop) : relation Sys :=
  fun s s' => I s -> I s'.

(** ** Executions of the completion waiter

    The waiter polls once per wake: the first wake of the script ends the
    initial settle delay, and every later one ends the sleep of the poll
    before it. *)

(** A reading of a missing or unavailable target. *)
Definition is_down (st : option HAState) : bool :=
  match st with
  | None => true
  | Some st => String.eqb (state st) "unavailable"
  end.

(** A reading of an available target on which the waiter goes on polling:
    anything but "off" without progress. *)
Definition keeps_polling (st : option HAState) : bool :=
  match st with
  | None => false
  | Some st =>
      negb (String.eqb (state st) "unavailable")
      && negb (negb (attr_in_progress st) && String.eqb (state st) "off")
  end.

Definition shows_progress (st : option HAState) : bool :=
  match st with
  | None => false
  | Some st => attr_in_progress st
  end.

(** No cancellation arrives with the wake, and it comes before the
    deadline. *)
Definition undisturbed (end_time : Z) (wk : Wake) : Prop :=
  wk_interrupt wk = NoInterrupt /\ wk_loop_clock wk < end_time.

(** The queue object has no cancellation pending. *)
Definition calm (q : UpdateQueue) : Prop :=
  _cancelled q = false
  /\ forall t, _task q = Some t -> must_cancel t = false.

(** The reason the code gives: by the deciding reading first, by the
    history only for an unavailable target. *)
Definition lost_reason (saw_in_progress : bool) (deciding : option HAState) : string :=
  match deciding with
  | None => "Device disappeared and did not come back"
  | Some _ =>
      if saw_in_progress
      then "Device went offline during update and did not recover"
      else "Device became unavailable"
  end.

(** The reason as the specification words it: by the history first, by
    the kind of reading only when no progress was ever seen. *)
Definition lost_reason_by_history (saw_in_progress : bool)
    (deciding : option HAState) : string :=
  if saw_in_progress
  then "Device went offline during update and did not recover"
  else match deciding with
       | None => "Device disappeared and did not come back"
       | Some _ => "Device became unavailable"
       end.

(** A wake that only moves the clocks and sets the state of
    [update.kitchen]. *)
Definition plain_wake (t : Z) (st : option HAState) : Wake :=
  mkWake t (1000 + t)
    (fun e => if String.eqb e "update.kitchen" then st else None)
    NoInterrupt None 200 None.

(** The kitchen device reports progress once, then disappears from the
    state machine; the waiter polls every ten seconds and the device is
    still missing 130 seconds after the first missing reading. *)
Definition missing_polls : list Wake :=
  (fun t => plain_wake t None) <$> [20; 30; 40; 50; 60; 70; 80; 90; 100; 110; 120; 130].

Definition lost_after_progress : Sys :=
  mkSys (set_queue [mkItem "update.kitchen" STATUS_RUNNING (Some 1000) None None]
                   demo_queue)
        (demo_world (Some (mkState "on" false))
           (plain_wake 5 (Some (mkState "on" true))
            :: plain_wake 10 None
            :: missing_polls ++ [plain_wake 140 None]))
        [].

(** ** Progress reports *)

(** The statuses with which the job routine ends a job that was not
    cancelled. *)
Definition ended (st : string) : Prop :=
  st = STATUS_SUCCESS \/ st = STATUS_FAILED \/ st = STATUS_SKIPPED.

(** Job [j] of the queue [q] has its own progress event in the trace: an
    event whose snapshot is complete, shows the job as it is in [q], shows
    every later job still Queued (so it was published before the next job
    was touched), and whose summary counts every row. *)
Definition reported (tr : list Event) (q : list DeviceUpdateResult) (j : nat) : Prop :=
  exists rows counts,
    EvFire EVENT_PROGRESS rows counts ∈ tr
    /\ length rows = length q
    /\ rows !! j = result_row <$> q !! j
    /\ (forall k, (j < k)%nat -> (k < length q)%nat ->
                  row_status <$> rows !! k = Some STATUS_QUEUED)
    /\ total_count counts = length rows.

Definition all_reported (s : Sys) : Prop :=
  forall j it, _queue (obj s) !! j = Some it -> ended (status it) ->
               reported (trace s) (_queue (obj s)) j.

(** The invariant of the batch loop before job [k] of [n]. *)
Definition batch_inv (n k : nat) (s : Sys) : Prop :=
  length (_queue (obj s)) = n
  /\ (forall j it, (k <= j)%nat -> _queue (obj s) !! j = Some it ->
                   status it = STATUS_QUEUED)
  /\ all_reported s.

(** The snapshots of the progress events of a trace, in order. *)
Definition progress_rows (tr : list Event) : list (list ResultRow) :=
  flat_map (fun ev =>
              match ev with
              | EvFire ty rows _ =>
                  if String.eqb ty EVENT_PROGRESS then [rows] else []
              | _ => []
              end) tr.

(** Two jobs; the kitchen device has an update pending.  The install call
    is accepted, the waiter starts its settle delay, and the user calls
    [cancel()] during that delay. *)
Definition cancelled_during_wait : Sys :=
  mkSys demo_queue
        (demo_world (Some (mkState "on" false))
           [plain_wake 2 (Some (mkState "on" false));
            mkWake 7 1007
              (fun e => if String.eqb e "update.kitchen"
                        then Some (mkState "on" true) else None)
              UserCancel None 200 None])
        [].

(** The same run, but the host cancels the task itself during the
    waiter's sleep: [cancel()] is never called and the flag stays down. *)
Definition task_cancelled_during_wait : Sys :=
  mkSys demo_queue
        (demo_world (Some (mkState "on" false))
           [plain_wake 2 (Some (mkState "on" false));
            mkWake 7 1007
              (fun e => if String.eqb e "update.kitchen"
                        then Some (mkState "on" true) else None)
              HostCancel None 200 None])
        [].

(** Two jobs; [cancel()] is called while the install call is in flight,
    and the service answers the cancellation with an error of its own. *)
Definition cancelled_during_install : Sys :=
  mkSys demo_queue
        (demo_world (Some (mkState "on" false))
           [mkWake 2 1002
              (fun e => if String.eqb e "update.kitchen"
                        then Some (mkState "on" false) else None)
              UserCancel (Some (Exception "Connection lost")) 200 None])
        [].

(** ** Runs that nobody cancels *)

(** No cancellation arrives with the wake, neither as a call of
    [cancel()] nor raised inside the awaited host call. *)
Definition quiet (wk : Wake) : Prop :=
  wk_interrupt wk = NoInterrupt /\ wk_raise wk <> Some CancelledError.

(** Nothing is pending on the object and the next wakes are quiet, at
    least [n] of them. *)
Definition quiet_world (n : nat) (s : Sys) : Prop :=
  calm (obj s) /\ Forall quiet (future (world s))
  /\ (n <= length (future (world s)))%nat.

(** In a quiet world with [n] wakes to spare, [m] returns a value
    satisfying [good] and leaves the world quiet. *)
Definition returns_within (n : nat) {A} (m : M A) (good : A -> Prop) : Prop :=
  forall s k, quiet_world (n + k) s ->
    exists a s', m s = (Ret a, s') /\ good a /\ quiet_world k s'.



(** The [hass.bus.async_fire] calls of a trace. *)
Definition fired (tr : list Event)
    : list (string * list ResultRow * gmap string nat) :=
  flat_map (fun ev =>
              match ev with
              | EvFire ty rows counts => [(ty, rows, counts)]
              | _ => []
              end) tr.

(** Host calls of the add-on hooks. *)
Definition kind_hook (ev : Event) : Prop :=
  match ev with
  | EvSupervisor _ _ | EvSleep _ => True
  | _ => False
  end.

Definition is_supervisor_call (method path : string) (ev : Event) : bool :=
  match ev with
  | EvSupervisor m p => String.eqb m method && String.eqb p path
  | _ => false
  end.

Fixpoint count_events (p : Event -> bool) (tr : list Event) : nat :=
  match tr with
  | [] => 0
  | ev :: tr => ((if p ev then 1 else 0) + count_events p tr)%nat
  end.

(** How often the add-on was asked to stop, and to start. *)
Definition stop_calls (slug : string) (tr : list Event) : nat :=
  count_events (is_supervisor_call "POST" ("/addons/" +:+ slug +:+ "/stop")) tr.

Definition start_calls (slug : string) (tr : list Event) : nat :=
  count_events (is_supervisor_call "POST" ("/addons/" +:+ slug +:+ "/start")) tr.

(** ** Worlds with an add-on *)

Definition addon_slug : string := "a0d7b954_vscode".

(** The Supervisor says the add-on is running. *)
Definition info_reply (state : string) : Json :=
  JObject [("result", JString "ok");
           ("data", JObject [("name", JString "Studio Code Server");
                             ("state", JString state)])].

Definition info_started : Json := info_reply "started".

(** The Supervisor accepts a stop or start request. *)
Definition reply_ok : Json := JObject [("result", JString "ok"); ("data", JObject [])].

(** A wake that ends a Supervisor request with HTTP 200 and [json]. *)
Definition supervisor_wake (t : Z) (st : option HAState) (json : Json)
    : Wake :=
  mkWake t (1000 + t)
    (fun e => if String.eqb e "update.kitchen" then st else None)
    NoInterrupt None 200 (Some json).




(** One target and the add-on.  The add-on is stopped, the device updates
    at once, and [cancel()] is called while the post-hook is asking the
    Supervisor for the add-on's name: the request is cancelled. *)
Definition cancelled_during_restart : Sys :=
  mkSys (snd (start ["update.kitchen"] (Some addon_slug) UpdateQueue_init))
        (demo_world (Some (mkState "on" false))
           [supervisor_wake 1 (Some (mkState "on" false)) info_started;
            supervisor_wake 2 (Some (mkState "on" false)) reply_ok;
            plain_wake 7 (Some (mkState "on" false));
            plain_wake 9 (Some (mkState "off" false));
            mkWake 10 1010
              (fun e => if String.eqb e "update.kitchen"
                        then Some (mkState "off" false) else None)
              UserCancel (Some CancelledError) 200 None])
        [].

(** What the helpers make of the wake that ends a Supervisor request. *)
Definition wake_returns (wk : Wake) : Prop := wk_raise wk <> Some CancelledError.

Definition wake_reply (wk : Wake) : Json :=
  match wk_raise wk with
  | Some _ => JNull
  | None => if wk_http_status wk =? 200 then default JNull (wk_json wk) else JNull
  end.

(** The reply is nothing or an object: the stop and start helpers can
    read it. *)
Definition wake_readable (wk : Wake) : Prop :=
  wake_reply wk = JNull \/ exists fields, wake_reply wk = JObject fields.

(** The reply is an object whose result is ok. *)
Definition wake_accepts (wk : Wake) : bool :=
  match wake_reply wk with
  | JObject fields => json_eq_text (dict_get fields "result" JNull) "ok"
  | _ => false
  end.

(** The reply is an object whose result is ok and whose data is an
    object with the state started. *)
Definition wake_says_started (wk : Wake) : Prop :=
  wake_returns wk
  /\ exists fields info,
       wake_reply wk = JObject fields
       /\ dict_get fields "result" JNull = JString "ok"
       /\ dict_get fields "data" (JObject []) = JObject info
       /\ dict_get info "state" JNull = JString "started".

(** What [async_get_addon_info] makes of the reply it is given. *)
Definition read_info (result : Json) : outcome Json :=
  if json_truthy result then
    match result with
    | JObject fields =>
        if json_eq_text (dict_get fields "result" JNull) "ok"
        then Ret (dict_get fields "data" (JObject []))
        else Ret JNull
    | _ => Raise (AttributeError result)
    end
  else Ret JNull.

(** What [async_stop_addon] and [async_start_addon] make of theirs. *)
Definition read_ok (result : Json) : outcome bool :=
  match result with
  | JNull => Ret false
  | JObject fields => Ret (json_eq_text (dict_get fields "result" JNull) "ok")
  | _ => Raise (AttributeError result)
  end.

(** How a helper that makes [read] of the reply ends at the wake [wk]:
    a cancelled request goes through, anything else is read. *)
Definition answer {A} (read : Json -> outcome A) (wk : Wake) : outcome A :=
  match wk_raise wk with
  | Some CancelledError => Raise CancelledError
  | _ => read (wake_reply wk)
  end.

(** The script of [s'] is what is left of the script of [s]. *)
Definition later (s s' : Sys) : Prop :=
  suffix (future (world s')) (future (world s)).

(** A reply none of the helpers and hooks stumbles over: nothing, or an
    object whose data is an object or is not truthy. *)
Definition proper_reply (j : Json) : bool :=
  match j with
  | JNull => true
  | JObject fields =>
      match dict_get fields "data" (JObject []) with
      | JObject _ => true
      | data => negb (json_truthy data)
      end
  | _ => false
  end.

Definition proper_wake (wk : Wake) : Prop := proper_reply (wake_reply wk) = true.

(** Every reply the script still holds is a proper one. *)
Definition proper_world (s : Sys) : Prop :=
  Forall proper_wake (future (world s)).

(** What the post-hook will go by, and what the trace holds so far. *)
Record hook_memory (slug : string) (was : bool) (stops starts : nat)
    (s : Sys) : Prop := mkMemory {
  hm_slug : truthy_slug (_stop_addon_slug (obj s)) = Some slug;
  hm_was : _addon_was_running (obj s) = was;
  hm_stops : stop_calls slug (trace s) = stops;
  hm_starts : start_calls slug (trace s) = starts;
}.

(** One target and the add-on.  The add-on is stopped, and [cancel()] is
    called during the settle delay that follows: the batch never starts,
    and the post-hook runs undisturbed. *)
Definition cancelled_during_settle : Sys :=
  mkSys (snd (start ["update.kitchen"] (Some addon_slug) UpdateQueue_init))
        (demo_world (Some (mkState "on" false))
           [supervisor_wake 1 (Some (mkState "on" false)) info_started;
            supervisor_wake 2 (Some (mkState "on" false)) reply_ok;
            mkWake 4 1004
              (fun e => if String.eqb e "update.kitchen"
                        then Some (mkState "on" false) else None)
              UserCancel None 200 None;
            supervisor_wake 5 (Some (mkState "on" false)) info_started;
            supervisor_wake 6 (Some (mkState "on" false)) reply_ok])
        [].

(** The system as a coroutine finds it when the wake [wk] resumes it. *)
Definition at_wake (q : UpdateQueue) (wk : Wake) (fut : list Wake)
    (tr : list Event) : Sys :=
  mkSys q (mkWorld (wk_loop_clock wk) (wk_wall_clock wk) (wk_states wk) fut) tr.


(** * The rest of the integration *)

(** ** __init__.py: the WebSocket commands of the queue

    Each handler answers on the connection once, with [send_result] or
    [send_error]; the answer is returned next to the queue object the
    handler leaves behind. *)

Inductive WsReply : Type :=
| WsStarted                      (* [{"started": True}] *)
| WsCancelled                    (* [{"cancelled": True}] *)
| WsCleared                      (* [{"cleared": True}] *)
| WsError (code message : string).

(** [ws_start_updates]: [msg["entity_ids"]] and
    [msg.get("stop_addon_slug")]. *)
Definition ws_start_updates (entity_ids : list string)
    (stop_addon_slug : option string) (q : UpdateQueue) : WsReply * UpdateQueue :=
  match start entity_ids stop_addon_slug q with
  | (Returned _, q') => (WsStarted, q')
  | (RuntimeError err, q') => (WsError "already_running" err, q')
  end.

(** [ws_cancel_updates] *)
Definition ws_cancel_updates (q : UpdateQueue) : WsReply * UpdateQueue :=
  (WsCancelled, cancel q).

(** [ws_clear_results] *)
Definition ws_clear_results (q : UpdateQueue) : WsReply * UpdateQueue :=
  match clear q with
  | (Returned _, q') => (WsCleared, q')
  | (RuntimeError err, q') => (WsError "clear_failed" err, q')
  end.

(** How many jobs of a queue have the status [st]. *)
Definition jobs_with (st : string) (l : list DeviceUpdateResult) : nat :=
  length (filter (fun r => status r = st) l).

(** ** What a run leaves in the queue and on the bus *)

(** The queue [l'] holds the same targets as [l], in the same order. *)
Definition same_ids (l l' : list DeviceUpdateResult) : Prop :=
  entity_id <$> l' = entity_id <$> l.

(** An event of the bus lists exactly the targets [ids], in order. *)
Definition lists_targets (ids : list string) (ev : Event) : Prop :=
  match ev with
  | EvFire _ rows _ => row_entity_id <$> rows = ids
  | _ => True
  end.

(** From a queue that holds the targets [ids], the queue still holds them
    afterwards, and every event fired meanwhile lists them. *)
Definition keeps_targets (ids : list string) : relation Sys :=
  fun s s' =>
    entity_id <$> _queue (obj s) = ids ->
    entity_id <$> _queue (obj s') = ids
    /\ exists evs, trace s' = trace s ++ evs /\ Forall (lists_targets ids) evs.

Definition not_fired (ev : Event) : Prop :=
  match ev with
  | EvFire _ _ _ => False
  | _ => True
  end.

(** [m] never ends with an error other than a cancellation. *)
Definition no_error {A} (m : M A) : Prop :=
  forall s msg, fst (m s) <> Raise (Exception msg).

(** While every reply of the Supervisor is a proper one, [m] never ends
    with an error other than a cancellation, and what it returns
    satisfies [good]. *)
Definition safe {A} (m : M A) (good : A -> Prop) : Prop :=
  forall s, proper_world s ->
    match fst (m s) with
    | Ret a => good a
    | Raise (Exception _) => False
    | _ => True
    end.

Definition not_finished (ev : Event) : Prop :=
  match ev with
  | EvFire ty _ _ => ty <> EVENT_FINISHED
  | _ => True
  end.

(** The run flag is as it was and the finished event has not been fired
    in between. *)
Definition before_finish : relation Sys :=
  fun s s' =>
    _running (obj s') = _running (obj s)
    /\ exists evs, trace s' = trace s ++ evs /\ Forall not_finished evs.

(** The [try ... except asyncio.CancelledError] part of [_run]. *)
Definition run_body : M unit :=
  try_except
    (_stop_addon ;;
     q <- get_obj ;;
     let n := length (_queue q) in
     for_each (seq 0 n) (loop_body n))
    (fun err =>
       match err with
       | CancelledError => Some on_cancelled
       | Exception _ => None
       end).

(** The statuses a job has once it is over. *)
Definition settled (st : string) : Prop :=
  st = STATUS_SUCCESS \/ st = STATUS_FAILED \/ st = STATUS_SKIPPED
  \/ st = STATUS_CANCELLED.

(** The statuses of const.py. *)
Definition known_status (st : string) : Prop :=
  st = STATUS_QUEUED \/ st = STATUS_RUNNING \/ settled st.

Definition has_known_status (it : DeviceUpdateResult) : Prop :=
  known_status (status it).

(** The jobs before the [k]-th are over. *)
Definition settled_before (k : nat) (s : Sys) : Prop :=
  forall j it, (j < k)%nat -> _queue (obj s) !! j = Some it -> settled (status it).

(** ** The service calls of a run *)

(** The [hass.services.async_call] calls of a trace, in order. *)
Definition service_calls (tr : list Event) : list (string * string * string) :=
  flat_map (fun ev =>
              match ev with
              | EvServiceCall domain service entity => [(domain, service, entity)]
              | _ => []
              end) tr.

Definition install_call (eid : string) : string * string * string :=
  (UPDATE_DOMAIN, "install", eid).

Definition no_call (ev : Event) : Prop :=
  match ev with
  | EvServiceCall _ _ _ => False
  | _ => True
  end.

(** No service was called in between. *)
Definition quiet_calls : relation Sys :=
  fun s s' => service_calls (trace s') = service_calls (trace s).

(** At most one service was called in between: update.install, on
    [eid]. *)
Definition calls_at_most (eid : string) : relation Sys :=
  fun s s' =>
    service_calls (trace s') = service_calls (trace s)
    \/ service_calls (trace s') = service_calls (trace s) ++ [install_call eid].

(** The [try] statement of [_update_single], entered with [item]. *)
Definition job_body (i : nat) (item : DeviceUpdateResult) : M unit :=
  try_finally
    (try_except
       (avail <- _is_entity_available (entity_id item) ;;
        if negb avail then
          item_set i (with_status STATUS_SKIPPED) ;;
          item_set i (with_error (Some "Device unavailable — skipped")) ;;
          now <- datetime_now ;;
          item_set i (with_finished_at (Some now))
        else
          installed <-
            try_except
              (async_call_install (entity_id item) ;; ret true)
              (fun install_err =>
                 match install_err with
                 | Exception error_msg =>
                     Some (
                       (if str_contains "Error compiling" error_msg then
                          item_set i (with_status STATUS_FAILED) ;;
                          item_set i (with_error (Some ("Compile failed — " +:+ error_msg)))
                        else
                          item_set i (with_status STATUS_FAILED) ;;
                          item_set i (with_error (Some ("Install failed — " +:+ error_msg)))) ;;
                       now <- datetime_now ;;
                       item_set i (with_finished_at (Some now)) ;;
                       ret false)
                 | CancelledError => None
                 end) ;;
          if negb installed then ret tt else
          st <- states_get (entity_id item) ;;
          if match st with
             | Some st => String.eqb (state st) "off"
             | None => false
             end
          then item_set i (with_status STATUS_SUCCESS)
          else
            res <- _wait_for_completion (entity_id item) DEFAULT_UPDATE_TIMEOUT ;;
            c <- cancelled_flag ;;
            if c then
              item_set i (with_status STATUS_CANCELLED) ;;
              item_set i (with_error (Some "Cancelled by user"))
            else if fst res then
              item_set i (with_status STATUS_SUCCESS)
            else
              item_set i (with_status STATUS_FAILED) ;;
              item_set i (with_error
                            (Some (match snd res with
                                   | Some reason =>
                                       if String.eqb reason EmptyString then "Update failed" else reason
                                   | None => "Update failed"
                                   end))))
       (fun err =>
          match err with
          | CancelledError =>
              Some (item_set i (with_status STATUS_CANCELLED) ;;
                    item_set i (with_error (Some "Cancelled by user")) ;;
                    raise CancelledError)
          | Exception msg =>
              Some (item_set i (with_status STATUS_FAILED) ;;
                    item_set i (with_error (Some msg)))
          end))
    (item <- item_get i ;;
     match finished_at item with
     | Some _ => ret tt
     | None =>
         now <- datetime_now ;;
         item_set i (with_finished_at (Some now))
     end).

(** The state in which [_update_single] enters its [try] statement: the
    job is Running and has its start timestamp. *)
Definition job_entered (i : nat) (s : Sys) : Sys :=
  snd ((item_set i (with_status STATUS_RUNNING) ;;
        now <- datetime_now ;;
        item_set i (with_started_at (Some now))) s).

(** The services called in between are update.install calls on targets
    of [ids], in the order of [ids], each at most once. *)
Definition calls_within (ids : list string) : relation Sys :=
  fun s s' =>
    exists l,
      service_calls (trace s') = service_calls (trace s) ++ (install_call <$> l)
      /\ sublist l ids.

(** ** The Supervisor requests of a run *)

Definition supervisor_calls (tr : list Event) : list (string * string) :=
  flat_map (fun ev =>
              match ev with
              | EvSupervisor method path => [(method, path)]
              | _ => []
              end) tr.

(** The next wake ends a Supervisor request with the answer that the
    add-on is running. *)
Definition next_says_started (s : Sys) : Prop :=
  exists wk rest, future (world s) = wk :: rest /\ wake_says_started wk.

(** ** Verdicts of the completion waiter *)

(** The reasons [_wait_for_completion] gives for a failure. *)
Definition waiter_reasons : list string :=
  ["Cancelled by user";
   "Device disappeared and did not come back";
   "Device went offline during update and did not recover";
   "Device became unavailable";
   "Update timed out — device may still be updating";
   "Update timed out — no progress detected"].

(** A verdict of the waiter, given in state [s'] before [end_time]. *)
Definition sound_verdict (eid : string) (end_time : Z)
    (verdict : bool * option string) (s' : Sys) : Prop :=
  match verdict with
  | (true, r) =>
      r = None
      /\ _cancelled (obj s') = false
      /\ loop_clock (world s') < end_time
      /\ exists st, hass_states (world s') eid = Some st
                    /\ state st = "off" /\ attr_in_progress st = false
  | (false, r) => exists reason, r = Some reason /\ reason ∈ waiter_reasons
  end.

(** The kitchen device finishes its update during the settle delay. *)
Definition updated_at_once : Sys :=
  mkSys demo_queue
        (demo_world (Some (mkState "on" true))
           [plain_wake 5 (Some (mkState "off" false))])
        [].

(** The waiter's reason when its deadline has passed. *)
Definition timeout_reason (saw_in_progress : bool) : string :=
  if saw_in_progress
  then "Update timed out — device may still be updating"
  else "Update timed out — no progress detected".

(** The kitchen device shows progress once and then keeps offering the
    update; the last poll comes after the deadline and reads "off". *)
Definition finished_too_late : Sys :=
  mkSys demo_queue
        (demo_world (Some (mkState "on" false))
           [plain_wake 5 (Some (mkState "on" true));
            plain_wake 10 (Some (mkState "on" false));
            plain_wake 600 (Some (mkState "off" false))])
        [].

(** ** Polls that keep the waiter waiting *)

(** A reading on which the waiter goes on: the target is down, or it is
    available and not done. *)
Definition still_waiting (st : option HAState) : bool :=
  is_down st || keeps_polling st.

(** The waiter has seen progress at one of the polls [pre]: a reading of
    an available target with an update in progress. *)
Definition saw_live (eid : string) (pre : list Wake) : bool :=
  existsb (fun wk => keeps_polling (wk_states wk eid)
                     && shows_progress (wk_states wk eid)) pre.

Definition down_at (eid : string) (wk : Wake) : Prop :=
  is_down (wk_states wk eid) = true.

(** No outage among the polls lasts longer than the grace window: any
    two down readings with nothing but down readings between them are at
    most MAX_UNAVAILABLE_DURATION apart. *)
Definition short_outages (eid : string) (polls : list Wake) : Prop :=
  forall l1 a mid b l2,
    polls = l1 ++ a :: mid ++ b :: l2 ->
    Forall (down_at eid) (a :: mid ++ [b]) ->
    wk_loop_clock b - wk_loop_clock a <= MAX_UNAVAILABLE_DURATION.

(** An outage that began at [since] is still within the grace window at
    every down reading that continues it. *)
Definition outage_within (eid : string) (since : option Z) (polls : list Wake) : Prop :=
  forall t0 run b l2,
    since = Some t0 ->
    polls = run ++ b :: l2 ->
    Forall (down_at eid) (run ++ [b]) ->
    wk_loop_clock b - t0 <= MAX_UNAVAILABLE_DURATION.

(** The timer the waiter keeps: the start of the outage it is in. *)
Definition timer_after (eid : string) (since : option Z) (wk : Wake) : option Z :=
  if is_down (wk_states wk eid)
  then Some (default (wk_loop_clock wk) since)
  else None.

(** The timer after a series of polls. *)
Definition timer_over (eid : string) (since : option Z) (polls : list Wake) : option Z :=
  fold_left (timer_after eid) polls since.

(** No outage is under way after the polls [pre]: the last of them, if
    there is one, found the target available. *)
Definition outage_begins (eid : string) (pre : list Wake) : Prop :=
  forall l p, pre = l ++ [p] -> is_down (wk_states p eid) = false.

(** The waiter is entered in state [s] and polls [pre], readings on which
    it goes on waiting: an available target that is not done, or a target
    that is down in an outage no longer than the grace window.  Then it
    polls [first], [mids] and [last], all missing or unavailable; the
    outage begins at [first], and [last] is the first poll later than the
    grace window after [first].  Nothing cancels the run and the overall
    deadline is not reached meanwhile. *)
Record grace_exceeded (eid : string) (timeout : Z) (s : Sys)
    (pre : list Wake) (first : Wake) (mids : list Wake) (last : Wake)
    (rest : list Wake) : Prop := mkGrace {
  ge_script : future (world s) = pre ++ first :: mids ++ last :: rest;
  ge_calm : calm (obj s);
  ge_undisturbed :
    Forall (undisturbed (loop_clock (world s) + timeout))
           (pre ++ first :: mids ++ [last]);
  ge_pre : Forall (fun wk => still_waiting (wk_states wk eid) = true) pre;
  ge_short : short_outages eid pre;
  ge_begins : outage_begins eid pre;
  ge_down : Forall (down_at eid) (first :: mids ++ [last]);
  ge_within :
    Forall (fun wk => wk_loop_clock wk - wk_loop_clock first
                      <= MAX_UNAVAILABLE_DURATION) mids;
  ge_exceeded :
    wk_loop_clock last - wk_loop_clock first > MAX_UNAVAILABLE_DURATION;
}.

(** The kitchen device is unavailable at the first poll, comes back
    reporting progress, and then stays unavailable from the poll at 25
    seconds on; at 155 seconds the second outage has lasted longer than
    the grace window. *)
Definition offline_polls : list Wake :=
  (fun t => plain_wake t (Some (mkState "unavailable" false)))
    <$> [35; 45; 55; 65; 75; 85; 95; 105; 115; 125; 135; 145].

Definition lost_in_second_outage : Sys :=
  mkSys (set_queue [mkItem "update.kitchen" STATUS_RUNNING (Some 1000) None None]
                   demo_queue)
        (demo_world (Some (mkState "on" false))
           (plain_wake 5 (Some (mkState "unavailable" false))
            :: plain_wake 15 (Some (mkState "on" true))
            :: plain_wake 25 (Some (mkState "unavailable" false))
            :: offline_polls ++ [plain_wake 155 (Some (mkState "unavailable" false))]))
        [].

(** A typical update: progress is reported, the device reboots and is
    unavailable for a while, comes back still offering the update, drops
    out once more, and finally reads "off". *)
Definition reboots_twice : Sys :=
  mkSys demo_queue
        (demo_world (Some (mkState "on" false))
           [plain_wake 5 (Some (mkState "on" true));
            plain_wake 10 (Some (mkState "unavailable" false));
            plain_wake 20 None;
            plain_wake 120 None;
            plain_wake 130 (Some (mkState "on" false));
            plain_wake 140 (Some (mkState "unavailable" false));
            plain_wake 250 (Some (mkState "unavailable" false));
            plain_wake 260 (Some (mkState "off" false))])
        [].

(** A decision procedure for [short_outages]. *)
Fixpoint run_within (eid : string) (a : Wake) (l : list Wake) : bool :=
  match l with
  | [] => true
  | b :: l' =>
      if is_down (wk_states b eid)
      then (wk_loop_clock b - wk_loop_clock a <=? MAX_UNAVAILABLE_DURATION)
           && run_within eid a l'
      else true
  end.

Fixpoint outages_ok (eid : string) (polls : list Wake) : bool :=
  match polls with
  | [] => true
  | a :: l =>
      (if is_down (wk_states a eid) then run_within eid a l else true)
      && outages_ok eid l
  end.

(** ** Ways through the job routine *)

(** The error text of a job whose install call raised [msg]. *)
Definition install_error (msg : string) : string :=
  if str_contains "Error compiling" msg
  then "Compile failed — " +:+ msg
  else "Install failed — " +:+ msg.

(** The target of a job reads "off" in the state machine. *)
Definition reads_off (eid : string) (s : Sys) : Prop :=
  exists st, hass_states (world s) eid = Some st /\ state st = "off".

(** What a job that ended Success can rely on. *)
Definition success_is_sound (it : DeviceUpdateResult) (i : nat)
    (r : outcome unit) (s' : Sys) : Prop :=
  forall it', _queue (obj s') !! i = Some it' -> status it' = STATUS_SUCCESS ->
    r = Ret tt /\ reads_off (entity_id it) s' /\ error it' = error it
    /\ is_Some (finished_at it').

(** The kitchen device is updated by the time the install call returns. *)
Definition installs_at_once : Sys :=
  mkSys demo_queue
        (demo_world (Some (mkState "on" false))
           [plain_wake 2 (Some (mkState "off" false))])
        [].

(** The install call for the kitchen device fails in the compiler. *)
Definition fails_to_compile : Sys :=
  mkSys demo_queue
        (demo_world (Some (mkState "on" false))
           [mkWake 30 1030
              (fun e => if String.eqb e "update.kitchen"
                        then Some (mkState "on" false) else None)
              NoInterrupt (Some (Exception "Error compiling kitchen.yaml")) 200 None])
        [].

(** One target and the add-on; the Supervisor answers the info request
    of the pre-hook with a list. *)
Definition unreadable_info : Sys :=
  mkSys (snd (start ["update.kitchen"] (Some addon_slug) UpdateQueue_init))
        (demo_world (Some (mkState "on" false))
           [supervisor_wake 1 (Some (mkState "on" false)) (JArray [JInt 1])])
        [].

(** ** __init__.py: the add-on status command *)








From Stdlib Require Import Ascii.

(** ** __init__.py: version helpers

    Version texts are Python strings.  They are modelled for texts whose
    code points are below 256, one character of a [string] per code
    point; the character classes below are the ones Python and CPython
    use on that range. *)

Definition code (c : Ascii.ascii) : N := Ascii.N_of_ascii c.

(** [str.isspace] on one character: what [str.strip()] removes. *)
Definition is_space (c : Ascii.ascii) : bool :=
  ((9 <=? code c) && (code c <=? 13) || (28 <=? code c) && (code c <=? 32)
   || (code c =? 133) || (code c =? 160))%N.

(** [\d] of the [re] module, and the digits [int] accepts. *)
Definition is_digit (c : Ascii.ascii) : bool :=
  ((48 <=? code c) && (code c <=? 57))%N.

Definition digit_value (c : Ascii.ascii) : Z := Z.of_N (code c) - 48.

(** The longest prefix of characters satisfying [p], and the rest. *)
Fixpoint span (p : Ascii.ascii -> bool) (l : list Ascii.ascii)
    : list Ascii.ascii * list Ascii.ascii :=
  match l with
  | c :: l' =>
      if p c then let (a, b) := span p l' in (c :: a, b) else ([], l)
  | [] => ([], [])
  end.

(** [str.lstrip()] *)
Definition lstrip (l : list Ascii.ascii) : list Ascii.ascii := snd (span is_space l).

(** [str.strip()] *)
Definition strip (l : list Ascii.ascii) : list Ascii.ascii :=
  rev (lstrip (rev (lstrip l))).

Definition DOT : Ascii.ascii := "."%char.

(** [re.match(r"(\d+\.\d+\.\d+)", text)]: the text of group 1.  A digit
    is never a dot, so the greedy runs of digits are the only way to
    match and no backtracking changes the result. *)
Definition match_version (text : list Ascii.ascii) : option (list Ascii.ascii) :=
  let (d1, r1) := span is_digit text in
  match d1, r1 with
  | _ :: _, c1 :: r1' =>
      if Ascii.eqb c1 DOT then
        let (d2, r2) := span is_digit r1' in
        match d2, r2 with
        | _ :: _, c2 :: r2' =>
            if Ascii.eqb c2 DOT then
              let (d3, _) := span is_digit r2' in
              match d3 with
              | _ :: _ => Some (d1 ++ DOT :: d2 ++ DOT :: d3)
              | [] => None
              end
            else None
        | _, _ => None
        end
      else None
  | _, _ => None
  end.

(** [_parse_version] *)
Definition _parse_version (version_string : option string) : option string :=
  match version_string with
  | None => None
  | Some s =>
      if String.eqb s EmptyString then None else
      let text := strip (String.list_ascii_of_string s) in
      match match_version text with
      | Some group => Some (String.string_of_list_ascii group)
      | None => Some (String.string_of_list_ascii text)
      end
  end.

(** [str.split(".")] *)
Fixpoint split_dot (l : list Ascii.ascii) : list (list Ascii.ascii) :=
  match l with
  | [] => [[]]
  | c :: l' =>
      if Ascii.eqb c DOT then [] :: split_dot l'
      else match split_dot l' with
           | part :: parts => (c :: part) :: parts
           | [] => [[c]]
           end
  end.

(** [int(x)] on a string, base 10.  CPython first maps the text to ASCII
    (a space for every other whitespace character, a question mark for
    anything else above ASCII), then reads: whitespace of the C locale, an
    optional sign, digits with single underscores between them,
    whitespace.  A text with more than [INT_MAX_STR_DIGITS] digits is
    refused (the interpreter's default limit).  [None] is
    [ValueError]. *)
Definition is_c_space (c : Ascii.ascii) : bool :=
  ((9 <=? code c) && (code c <=? 13) || (code c =? 32))%N.

Definition to_ascii_text (c : Ascii.ascii) : Ascii.ascii :=
  if (code c <? 127)%N then c
  else if is_space c then " "%char else "?"%char.

Definition INT_MAX_STR_DIGITS : nat := 4300.

Definition UNDERSCORE : Ascii.ascii := "_"%char.

(** Digits, with single underscores only between two digits. *)
Fixpoint grouped_digits (l : list Ascii.ascii) : bool :=
  match l with
  | [] => false
  | c :: l' =>
      is_digit c
      && match l' with
         | [] => true
         | c' :: l'' =>
             if Ascii.eqb c' UNDERSCORE then grouped_digits l'' else grouped_digits l'
         end
  end.

Definition digits_value (digits : list Ascii.ascii) : Z :=
  fold_left (fun acc c => 10 * acc + digit_value c) digits 0.

Definition py_int (x : list Ascii.ascii) : option Z :=
  let text := snd (span is_c_space (to_ascii_text <$> x)) in
  let '(negative, text) :=
    match text with
    | c :: text' =>
        if Ascii.eqb c "+"%char then (false, text')
        else if Ascii.eqb c "-"%char then (true, text')
        else (false, text)
    | [] => (false, text)
    end in
  let (body, rest) := span (fun c => is_digit c || Ascii.eqb c UNDERSCORE) text in
  let digits := List.filter is_digit body in
  if grouped_digits body && forallb is_c_space rest
     && (length digits <=? INT_MAX_STR_DIGITS)%nat
  then Some (if negative : bool then - digits_value digits else digits_value digits)
  else None.

(** [_version_tuple]: [None] for no version and for [ValueError]. *)
Definition _version_tuple (version : option string) : option (list Z) :=
  match version with
  | None => None
  | Some v =>
      if String.eqb v EmptyString then None
      else mapM py_int (split_dot (String.list_ascii_of_string v))
  end.

(** [a > b] on tuples of integers. *)
Fixpoint tuple_gt (a b : list Z) : bool :=
  match a, b with
  | [], _ => false
  | _ :: _, [] => true
  | x :: a', y :: b' => if x =? y then tuple_gt a' b' else y <? x
  end.

(** [_is_update_available] *)
Definition _is_update_available (installed latest : option string) : bool :=
  match _version_tuple installed, _version_tuple latest with
  | Some inst, Some lat => tuple_gt lat inst
  | _, _ => false
  end.

(** A dotted version text: the parts joined by dots. *)
Fixpoint dotted (parts : list (list Ascii.ascii)) : list Ascii.ascii :=
  match parts with
  | [] => []
  | [part] => part
  | part :: parts' => part ++ DOT :: dotted parts'
  end.

(** A part of a plain version number: one or more digits, not more than
    [int] accepts. *)
Definition plain_number (part : list Ascii.ascii) : Prop :=
  part <> [] /\ forallb is_digit part = true
  /\ (length part <= INT_MAX_STR_DIGITS)%nat.

(** The text does not go on with a digit. *)
Definition no_digit_ahead (l : list Ascii.ascii) : Prop :=
  match l with
  | c :: _ => is_digit c = false
  | [] => True
  end.

Definition text_of (l : list Ascii.ascii) : string := String.string_of_list_ascii l.

(** * The device listing of the panel

    [_get_esphome_update_entities] reads the entity registry, the device
    registry, the state machine and the ESPHome config entries at one
    moment and builds one row per device.  The host objects are records
    of the fields the code reads. *)

(** [hass.states.get(entity_id)] as the listing reads it: [state.state]
    and the attributes [installed_version], [latest_version] (a text or
    [None]) and [attributes.get("in_progress", False)]. *)
Record EntityState : Type := mkEntityState {
  es_state : string;
  es_installed_version : option string;
  es_latest_version : option string;
  es_in_progress : bool;
}.

(** [er.RegistryEntry] *)
Record RegistryEntry : Type := mkRegistryEntry {
  re_entity_id : string;
  re_device_id : option string;
  re_domain : string;
  re_platform : string;
  re_disabled_by : option string;
}.

(** [dr.DeviceEntry] *)
Record DeviceEntry : Type := mkDeviceEntry {
  dev_id : string;
  dev_name_by_user : option string;
  dev_name : option string;
  dev_sw_version : option string;
  dev_config_entries : list string;
}.

(** What the listing reads of [hass]: the state machine, the values of
    [ent_reg.entities] and of [dev_reg.devices] in their order, and the
    ids of [hass.config_entries.async_entries("esphome")]. *)
Record Hass : Type := mkHass {
  h_states : string -> option EntityState;
  h_entities : list RegistryEntry;
  h_devices : list DeviceEntry;
  h_esphome_entries : list string;
}.

(** One [dict] of the list the panel receives. *)
Record DeviceRow : Type := mkDeviceRow {
  d_entity_id : option string;
  d_name : string;
  current_version : option string;
  latest_version : option string;
  update_available : bool;
  in_progress : bool;
  firmware_disabled : bool;
  firmware_unavailable : bool;
  enabling : bool;
  online : option bool;
}.

Definition BUILDER_ENTITY_ID : string := "update.esphome_device_builder_update".
Definition ESPHOME : string := "esphome".
Definition BINARY_SENSOR : string := "binary_sensor".

(** Truth value of a text or [None]. *)
Definition truthy (x : option string) : bool :=
  match x with
  | Some s => negb (String.eqb s EmptyString)
  | None => false
  end.

(** [a or b] *)
Definition py_or (a b : option string) : option string :=
  if truthy a then a else b.

(** [x or c] where [c] is a text *)
Definition or_text (x : option string) (c : string) : string :=
  match x with
  | Some s => if String.eqb s EmptyString then c else s
  | None => c
  end.

Definition is_none {A} (x : option A) : bool :=
  match x with None => true | Some _ => false end.

(** [s.endswith(suffix)] *)
Definition endswith (s suffix : string) : bool :=
  let l := String.list_ascii_of_string s in
  let k := String.list_ascii_of_string suffix in
  (length k <=? length l)%nat
  && String.eqb (String.string_of_list_ascii (drop (length l - length k) l)) suffix.

(** The first esphome update entity that is enabled, has a state and a
    truthy [latest_version]: the loop of [_get_esphome_builder_version]. *)
Fixpoint first_latest_version (states : string -> option EntityState)
    (entities : list RegistryEntry) : option string :=
  match entities with
  | [] => None
  | entity :: entities' =>
      if String.eqb (re_domain entity) UPDATE_DOMAIN
         && String.eqb (re_platform entity) ESPHOME
         && is_none (re_disabled_by entity)
      then match states (re_entity_id entity) with
           | Some st =>
               let latest := es_latest_version st in
               if truthy latest then _parse_version latest
               else first_latest_version states entities'
           | None => first_latest_version states entities'
           end
      else first_latest_version states entities'
  end.

Definition _get_esphome_builder_version (hass : Hass) : option string :=
  let scan := first_latest_version (h_states hass) (h_entities hass) in
  match h_states hass BUILDER_ENTITY_ID with
  | Some state =>
      let installed := es_installed_version state in
      if truthy installed then _parse_version installed else scan
  | None => scan
  end.

Definition is_status_entity (device_id : string) (entity : RegistryEntry) : bool :=
  bool_decide (re_device_id entity = Some device_id)
  && String.eqb (re_domain entity) BINARY_SENSOR
  && String.eqb (re_platform entity) ESPHOME
  && endswith (re_entity_id entity) "_status"
  && is_none (re_disabled_by entity).

Definition _find_status_entity (ent_reg : list RegistryEntry) (device_id : string)
  : option string :=
  re_entity_id <$> List.find (is_status_entity device_id) ent_reg.

Definition _is_device_online (hass : Hass) (device_id : option string) : option bool :=
  match device_id with
  | Some did =>
      if truthy device_id then
        let status_entity_id := _find_status_entity (h_entities hass) did in
        match status_entity_id with
        | Some sid =>
            if truthy status_entity_id then
              match h_states hass sid with
              | None => None
              | Some state =>
                  if String.eqb (es_state state) "unavailable"
                     || String.eqb (es_state state) "unknown"
                  then None
                  else Some (String.eqb (es_state state) "on")
              end
            else None
        | None => None
        end
      else None
  | None => None
  end.

(** [dev_reg.async_get(device_id)] *)
Definition dev_async_get (dev_reg : list DeviceEntry) (device_id : string)
  : option DeviceEntry :=
  List.find (fun device => String.eqb (dev_id device) device_id) dev_reg.

Definition _get_device_sw_version (dev_reg : list DeviceEntry)
    (device_id : option string) : option string :=
  match device_id with
  | Some did =>
      if truthy device_id then
        match dev_async_get dev_reg did with
        | Some device => _parse_version (dev_sw_version device)
        | None => None
        end
      else None
  | None => None
  end.

Definition is_esphome_update (entity : RegistryEntry) : bool :=
  String.eqb (re_domain entity) UPDATE_DOMAIN
  && String.eqb (re_platform entity) ESPHOME.

(** The name shown for an update entity. *)
Definition entity_name (dev_reg : list DeviceEntry) (entity : RegistryEntry) : string :=
  let entity_id := re_entity_id entity in
  match re_device_id entity with
  | Some did =>
      if truthy (re_device_id entity) then
        match dev_async_get dev_reg did with
        | Some device =>
            or_text (py_or (dev_name_by_user device) (dev_name device)) entity_id
        | None => entity_id
        end
      else entity_id
  | None => entity_id
  end.

(** The body of the loop over [esphome_update_entities]: the row that is
    appended for [entity]. *)
Definition entity_row (hass : Hass) (builder_version : option string)
    (entity : RegistryEntry) : DeviceRow :=
  let entity_id := re_entity_id entity in
  let device_id := re_device_id entity in
  let is_disabled := negb (is_none (re_disabled_by entity)) in
  let name := entity_name (h_devices hass) entity in
  let registry_version := _get_device_sw_version (h_devices hass) device_id in
  let online := _is_device_online hass device_id in
  let state := h_states hass entity_id in
  if is_disabled then
    let installed := registry_version in
    let update_available := _is_update_available installed builder_version in
    {| d_entity_id := Some entity_id;
       d_name := name;
       current_version := installed;
       latest_version := if update_available then builder_version else None;
       update_available := update_available;
       in_progress := false;
       firmware_disabled := true;
       firmware_unavailable := false;
       enabling := false;
       online := online |}
  else
    let unavailable_row :=
      let is_enabling := is_none state && negb (bool_decide (online = Some false)) in
      let installed := registry_version in
      let update_available := _is_update_available installed builder_version in
      let is_fw_unavailable :=
        negb (is_none state)
        && match state with
           | Some st => String.eqb (es_state st) "unavailable"
           | None => false
           end
        && negb is_enabling in
      {| d_entity_id := Some entity_id;
         d_name := name;
         current_version := installed;
         latest_version := if update_available then builder_version else None;
         update_available := update_available;
         in_progress := false;
         firmware_disabled := false;
         firmware_unavailable := is_fw_unavailable;
         enabling := is_enabling;
         online := online |} in
    match state with
    | None => unavailable_row
    | Some st =>
        if String.eqb (es_state st) "unavailable" then unavailable_row
        else
          let state_version := _parse_version (es_installed_version st) in
          let installed := py_or state_version registry_version in
          let state_latest := _parse_version (es_latest_version st) in
          let latest := py_or state_latest builder_version in
          let ha_says_update := String.eqb (es_state st) "on" in
          let actually_newer := _is_update_available installed latest in
          {| d_entity_id := Some entity_id;
             d_name := name;
             current_version := installed;
             latest_version := if ha_says_update && actually_newer then latest else None;
             update_available := ha_says_update && actually_newer;
             in_progress := es_in_progress st;
             firmware_disabled := false;
             firmware_unavailable := false;
             enabling := false;
             online := online |}
    end.

(** [devices_with_update_entity]: the truthy device ids of the esphome
    update entities. *)
Definition devices_with_update_entity (hass : Hass) : list string :=
  omap (fun entity => if truthy (re_device_id entity) then re_device_id entity else None)
       (List.filter is_esphome_update (h_entities hass)).

Definition mem (x : string) (l : list string) : bool :=
  existsb (String.eqb x) l.

(** The devices of the second loop that are not skipped by a [continue]. *)
Definition without_update_entity (hass : Hass) (device : DeviceEntry) : bool :=
  existsb (fun ceid => mem ceid (h_esphome_entries hass)) (dev_config_entries device)
  && negb (mem (dev_id device) (devices_with_update_entity hass)).

Definition device_row (hass : Hass) (builder_version : option string)
    (device : DeviceEntry) : DeviceRow :=
  let installed := _parse_version (dev_sw_version device) in
  let update_available := _is_update_available installed builder_version in
  let online := _is_device_online hass (Some (dev_id device)) in
  let name := or_text (py_or (dev_name_by_user device) (dev_name device))
                      "Unknown device" in
  {| d_entity_id := None;
     d_name := name;
     current_version := installed;
     latest_version := if update_available then builder_version else None;
     update_available := update_available;
     in_progress := false;
     firmware_disabled := true;
     firmware_unavailable := false;
     enabling := false;
     online := online |}.

(** [str.lower()] on a character with a code point below 256. *)
Definition lower_char (c : Ascii.ascii) : Ascii.ascii :=
  let n := code c in
  if ((65 <=? n) && (n <=? 90) || (192 <=? n) && (n <=? 222) && negb (n =? 215))%N
  then Ascii.ascii_of_N (n + 32) else c.

Fixpoint lower (s : string) : string :=
  match s with
  | EmptyString => EmptyString
  | String c s' => String (lower_char c) (lower s')
  end.

(** The key of the sort: the name, or the empty text for a name that is
    not truthy, in lower case. *)
Definition sort_key (d : DeviceRow) : string := lower (d_name d).

(** [list.sort(key=...)]: the sort is stable and compares keys with [<],
    which determines its result; written here as an insertion that moves
    a row past the rows with a smaller key only. *)
Fixpoint sort_insert {A} (key : A -> string) (x : A) (l : list A) : list A :=
  match l with
  | [] => [x]
  | y :: l' =>
      if String.ltb (key y) (key x) then y :: sort_insert key x l'
      else x :: l
  end.

Definition sort_by {A} (key : A -> string) (l : list A) : list A :=
  foldr (sort_insert key) [] l.

(** The rows before they are sorted. *)
Definition device_rows (hass : Hass) : list DeviceRow :=
  let builder_version := _get_esphome_builder_version hass in
  (entity_row hass builder_version <$> List.filter is_esphome_update (h_entities hass))
  ++ (device_row hass builder_version
        <$> List.filter (without_update_entity hass) (h_devices hass)).

Definition _get_esphome_update_entities (hass : Hass) : list DeviceRow :=
  sort_by sort_key (device_rows hass).

(** A list whose keys never decrease from an earlier to a later place. *)
Definition in_order {A} (key : A -> string) (l : list A) : Prop :=
  forall i j a b, (i < j)%nat -> l !! i = Some a -> l !! j = Some b ->
                  String.leb (key a) (key b) = true.

(** A registry for the examples: an entity that is on with an older
    firmware, a disabled one, one without a state whose device is
    online, and a device of the integration without update entity. *)
Definition panel_example : Hass :=
  {| h_states := fun entity_id =>
       if String.eqb entity_id BUILDER_ENTITY_ID then
         Some (mkEntityState "off" (Some "2024.6.1") (Some "2024.6.1") false)
       else if String.eqb entity_id "update.kitchen_firmware" then
         Some (mkEntityState "on" (Some "2024.5.0") (Some "2024.6.1") false)
       else if String.eqb entity_id "binary_sensor.attic_status" then
         Some (mkEntityState "on" None None false)
       else None;
     h_entities :=
       [ mkRegistryEntry "update.kitchen_firmware" (Some "dev1") "update" "esphome" None;
         mkRegistryEntry "update.garage_firmware" (Some "dev2") "update" "esphome"
                         (Some "integration");
         mkRegistryEntry "update.attic_firmware" (Some "dev3") "update" "esphome" None;
         mkRegistryEntry "binary_sensor.attic_status" (Some "dev3") "binary_sensor"
                         "esphome" None;
         mkRegistryEntry "update.other" (Some "dev9") "update" "hacs" None ];
     h_devices :=
       [ mkDeviceEntry "dev1" None (Some "kitchen") (Some "2024.5.0 (May  1 2024)")
                       ["entry1"];
         mkDeviceEntry "dev2" (Some "Garage") (Some "garage") (Some "2024.6.1") ["entry2"];
         mkDeviceEntry "dev3" None (Some "attic") (Some "2024.4.2") ["entry3"];
         mkDeviceEntry "dev4" None (Some "Balcony") (Some "2023.12.9") ["entry4"];
         mkDeviceEntry "dev9" None (Some "other") None ["entry9"] ];
     h_esphome_entries := ["entry1"; "entry2"; "entry3"; "entry4"] |}.

(** [entity] is an enabled update entity of the ESPHome platform whose
    state has [text] as its [latest_version]. *)
Definition reports_latest (hass : Hass) (entity : RegistryEntry) (text : string) : Prop :=
  entity ∈ h_entities hass /\ is_esphome_update entity = true
  /\ re_disabled_by entity = None
  /\ exists st, h_states hass (re_entity_id entity) = Some st
                /\ es_latest_version st = Some text.

(** * Properties *)

(** ** The summary mapping *)

Lemma total_count_insert_fresh (m : gmap string nat) (k : string) (n : nat) :
  m !! k = None ->
  total_count (<[k := n]> m) = (n + total_count m)%nat.
Proof.
  intros Hk. unfold total_count.
  rewrite map_fold_insert_L; [reflexivity | | exact Hk].
  intros. lia.
Qed.

Lemma total_count_empty : total_count ∅ = 0%nat.
Proof. unfold total_count. apply map_fold_empty. Qed.

Lemma total_count_step (m : gmap string nat) (r : DeviceUpdateResult) :
  total_count (count_status m r) = S (total_count m).
Proof.
  unfold count_status.
  destruct (m !! status r) as [n|] eqn:Hk; simpl.
  - rewrite <- (insert_delete_eq m (status r)).
    rewrite total_count_insert_fresh by apply lookup_delete_eq.
    unfold total_count at 2.
    rewrite (map_fold_delete_L _ _ (status r) n m); [unfold total_count; lia | | exact Hk].
    intros. lia.
  - rewrite total_count_insert_fresh by exact Hk. lia.
Qed.

Lemma total_count_foldl (l : list DeviceUpdateResult) (m : gmap string nat) :
  total_count (foldl count_status m l) = (length l + total_count m)%nat.
Proof.
  revert m. induction l as [|r l IH]; intros m; simpl.
  - reflexivity.
  - rewrite IH, total_count_step. lia.
Qed.

Lemma summary_total (q : UpdateQueue) :
  total_count (summary q) = length (_queue q).
Proof.
  unfold summary. rewrite total_count_foldl, total_count_empty. lia.
Qed.

Lemma results_length (q : UpdateQueue) :
  length (results q) = length (_queue q).
Proof. unfold results. apply length_fmap. Qed.

(** C7. In every snapshot that the status command returns, whatever the
    queue object looks like at that moment (idle, in the middle of a run,
    after it), the per-status counts of the summary add up to the number
    of rows of the results list. *)
Theorem summary_counts_sum_to_results_length (q : UpdateQueue) :
  total_count (reply_summary (ws_get_status q))
  = length (reply_results (ws_get_status q)).
Proof.
  simpl. rewrite summary_total, results_length. reflexivity.
Qed.

(** ** start and cancel *)

(** C6. While a run is in progress, [start] raises the already-running
    error and leaves the whole object as it was: the job sequence with
    every job's status, the cancellation flag, the add-on memory and
    every other field. *)
Theorem start_while_running_rejected
    (entity_ids : list string) (slug : option string) (q : UpdateQueue) :
  _running q = true ->
  start entity_ids slug q = (RuntimeError "Update queue is already running", q).
Proof.
  intros Hrun. unfold start. rewrite Hrun. reflexivity.
Qed.

Lemma start_while_running_rejected_witness :
  let q := mkQueue [mkItem "update.a" STATUS_RUNNING (Some 7) None None;
                    new_item "update.b"]
                   true true 0%nat (Some (mkTask false false))
                   (Some "a0d7b954_vscode") true in
  start ["update.c"] None q
  = (RuntimeError "Update queue is already running", q).
Proof.
  apply (start_while_running_rejected ["update.c"] None). reflexivity.
Defined.

Lemma cancel_idempotent (q : UpdateQueue) : cancel (cancel q) = cancel q.
Proof.
  unfold cancel. destruct q as [l r c i [[d m]|] sl w]; simpl;
    [destruct d; simpl|]; reflexivity.
Qed.

(** ** Frame rules *)

#[local] Instance same_except_preorder i : PreOrder (same_except i).
Proof.
  split.
  - intros l. split; auto.
  - intros l1 l2 l3 [H1 H1'] [H2 H2']. split; [congruence|].
    intros j Hj. rewrite H2', H1' by exact Hj. reflexivity.
Qed.

#[local] Instance same_length_preorder : PreOrder same_length.
Proof.
  split.
  - intros l. reflexivity.
  - intros l1 l2 l3 H1 H2. unfold same_length in *. congruence.
Qed.

Lemma trace_grows_refl (P : Event -> Prop) (tr : list Event) :
  exists evs, tr = tr ++ evs /\ Forall P evs.
Proof. exists []. split; [symmetry; apply app_nil_r | constructor]. Qed.

Lemma trace_grows_trans (P : Event -> Prop) (t1 t2 t3 : list Event) :
  (exists evs, t2 = t1 ++ evs /\ Forall P evs) ->
  (exists evs, t3 = t2 ++ evs /\ Forall P evs) ->
  exists evs, t3 = t1 ++ evs /\ Forall P evs.
Proof.
  intros (e1 & -> & P1) (e2 & -> & P2). exists (e1 ++ e2). split.
  - rewrite app_assoc. reflexivity.
  - apply Forall_app; auto.
Qed.

#[local] Instance frame_preorder Rq P `{!PreOrder Rq} : PreOrder (frame Rq P).
Proof.
  split.
  - intros s. split; auto; try reflexivity. apply trace_grows_refl.
  - intros s1 s2 s3 [Q1 R1 S1 W1 F1 T1] [Q2 R2 S2 W2 F2 T2].
    split; try congruence; auto.
    + etransitivity; eassumption.
    + eapply trace_grows_trans; eassumption.
Qed.

#[local] Instance drift_preorder Rq P `{!PreOrder Rq} : PreOrder (drift Rq P).
Proof.
  split.
  - intros s. split; auto; try reflexivity. apply trace_grows_refl.
  - intros s1 s2 s3 [Q1 S1 F1 T1] [Q2 S2 F2 T2].
    split; try congruence; auto.
    + etransitivity; eassumption.
    + eapply trace_grows_trans; eassumption.
Qed.

Lemma frame_weaken (Rq Rq' : relation (list DeviceUpdateResult))
    (P P' : Event -> Prop) s s' :
  (forall l l', Rq l l' -> Rq' l l') -> (forall ev, P ev -> P' ev) ->
  frame Rq P s s' -> frame Rq' P' s s'.
Proof.
  intros HR HP [Q R S W F (evs & T & E)]. split; auto.
  exists evs. split; [exact T|]. eapply Forall_impl; eauto.
Qed.

Lemma frame_drift Rq P s s' : frame Rq P s s' -> drift Rq P s s'.
Proof. intros [Q R S W F T]. split; auto. Qed.

Lemma drift_weaken (Rq Rq' : relation (list DeviceUpdateResult))
    (P P' : Event -> Prop) s s' :
  (forall l l', Rq l l' -> Rq' l l') -> (forall ev, P ev -> P' ev) ->
  drift Rq P s s' -> drift Rq' P' s s'.
Proof.
  intros HR HP [Q S F (evs & T & E)]. split; auto.
  exists evs. split; [exact T|]. eapply Forall_impl; eauto.
Qed.

Section Preserves.
Variable R : relation Sys.
Context `{!PreOrder R}.

Lemma preserves_ret {A} (a : A) : preserves R (ret a).
Proof. intros s. reflexivity. Qed.

Lemma preserves_raise {A} e : preserves R (@raise A e).
Proof. intros s. reflexivity. Qed.

Lemma preserves_read {A} (f : Sys -> A) : preserves R (fun s => (Ret (f s), s)).
Proof. intros s. reflexivity. Qed.

Lemma preserves_bind {A B} (m : M A) (k : A -> M B) :
  preserves R m -> (forall a, preserves R (k a)) -> preserves R (bind m k).
Proof.
  intros Hm Hk s. unfold bind. specialize (Hm s).
  destruct (m s) as [[a|e|] s1]; simpl in *; auto.
  etransitivity; [exact Hm | apply Hk].
Qed.

Lemma preserves_try_except {A} (body : M A) handler :
  preserves R body -> (forall e h, handler e = Some h -> preserves R h) ->
  preserves R (try_except body handler).
Proof.
  intros Hb Hh s. unfold try_except. specialize (Hb s).
  destruct (body s) as [[a|e|] s1]; simpl in *; auto.
  destruct (handler e) as [h|] eqn:He; simpl; auto.
  etransitivity; [exact Hb | eapply Hh; eassumption].
Qed.

Lemma preserves_try_finally {A} (body : M A) fin :
  preserves R body -> preserves R fin -> preserves R (try_finally body fin).
Proof.
  intros Hb Hf s. unfold try_finally. specialize (Hb s).
  destruct (body s) as [[a|e|] s1]; simpl in *; auto;
    specialize (Hf s1); destruct (fin s1) as [[[]|e'|] s2]; simpl in *;
    etransitivity; eassumption.
Qed.

Lemma preserves_json_get j key default : preserves R (json_get j key default).
Proof. destruct j; first [apply preserves_ret | apply preserves_raise]. Qed.

Lemma preserves_result_is_ok guard result :
  preserves R (result_is_ok guard result).
Proof.
  unfold result_is_ok. destruct guard; [|apply preserves_ret].
  apply preserves_bind; [apply preserves_json_get | intros; apply preserves_ret].
Qed.

Lemma preserves_for_each idxs body :
  (forall i, preserves R (body i)) -> preserves R (for_each idxs body).
Proof.
  intros Hb. induction idxs as [|i rest IH]; simpl.
  - apply preserves_ret.
  - apply preserves_bind; auto.
Qed.
End Preserves.

Lemma keeps_weaken {A} (Rq Rq' : relation (list DeviceUpdateResult))
    (P P' : Event -> Prop) (m : M A) :
  (forall l l', Rq l l' -> Rq' l l') -> (forall ev, P ev -> P' ev) ->
  keeps Rq P m -> keeps Rq' P' m.
Proof. intros HR HP Hm s. eapply frame_weaken; eauto. Qed.

Lemma keeps_drifts {A} Rq P (m : M A) : keeps Rq P m -> drifts Rq P m.
Proof. intros Hm s. apply frame_drift, Hm. Qed.

Lemma drifts_weaken {A} (Rq Rq' : relation (list DeviceUpdateResult))
    (P P' : Event -> Prop) (m : M A) :
  (forall l l', Rq l l' -> Rq' l l') -> (forall ev, P ev -> P' ev) ->
  drifts Rq P m -> drifts Rq' P' m.
Proof. intros HR HP Hm s. eapply drift_weaken; eauto. Qed.

Section Primitives.
Variable Rq : relation (list DeviceUpdateResult).
Variable P : Event -> Prop.
Context `{!PreOrder Rq}.

Lemma keeps_emit ev : P ev -> keeps Rq P (emit ev).
Proof.
  intros Hev s. split; simpl; auto; try reflexivity.
  exists [ev]. split; [reflexivity | repeat constructor; exact Hev].
Qed.

Lemma interrupt_obj_fields i q :
  _queue (interrupt_obj i q) = _queue q
  /\ _running (interrupt_obj i q) = _running q
  /\ _stop_addon_slug (interrupt_obj i q) = _stop_addon_slug q
  /\ _addon_was_running (interrupt_obj i q) = _addon_was_running q
  /\ (_cancelled q = true -> _cancelled (interrupt_obj i q) = true).
Proof.
  destruct i; simpl; auto.
  unfold cancel. simpl. destruct (_task q) as [t|]; simpl; auto.
  destruct (negb (done t)); simpl; auto.
Qed.

Lemma keeps_suspend : keeps Rq P suspend.
Proof.
  intros s. unfold suspend. destruct (future (world s)) as [|wk rest].
  - reflexivity.
  - destruct (interrupt_obj_fields (wk_interrupt wk) (obj s)) as (Q & R & S & W & F).
    split; simpl; auto.
    + rewrite Q. reflexivity.
    + apply trace_grows_refl.
Qed.

Lemma keeps_take_cancel : keeps Rq P take_cancel.
Proof.
  intros s. unfold take_cancel. destruct (_task (obj s)) as [t|].
  - destruct (must_cancel t); simpl; [|reflexivity].
    split; simpl; auto; try reflexivity. apply trace_grows_refl.
  - reflexivity.
Qed.

Lemma keeps_item_set i f :
  (forall l, Rq l (alter f i l)) -> keeps Rq P (item_set i f).
Proof.
  intros Hq s. split; simpl; auto. apply trace_grows_refl.
Qed.

Lemma keeps_set_current_index i : keeps Rq P (modify_obj (set_current_index i)).
Proof.
  intros s. split; simpl; auto; try reflexivity. apply trace_grows_refl.
Qed.

Lemma drifts_set_addon_was_running b :
  drifts Rq P (modify_obj (set_addon_was_running b)).
Proof.
  intros s. split; simpl; auto; try reflexivity. apply trace_grows_refl.
Qed.

Lemma drifts_set_running b : drifts Rq P (modify_obj (set_running b)).
Proof.
  intros s. split; simpl; auto; try reflexivity. apply trace_grows_refl.
Qed.
End Primitives.

Create HintDb coro discriminated.
#[local] Hint Resolve preserves_ret preserves_raise preserves_read
  preserves_json_get preserves_result_is_ok
  keeps_suspend keeps_take_cancel keeps_set_current_index
  drifts_set_addon_was_running drifts_set_running : coro.
#[local] Hint Extern 1 (preserves _ get_obj) => apply preserves_read : coro.
#[local] Hint Extern 1 (preserves _ (item_get _)) => apply preserves_read : coro.
#[local] Hint Extern 1 (preserves _ cancelled_flag) => apply preserves_read : coro.
#[local] Hint Extern 1 (preserves _ datetime_now) => apply preserves_read : coro.
#[local] Hint Extern 1 (preserves _ loop_time) => apply preserves_read : coro.
#[local] Hint Extern 1 (preserves _ pending_wakes) => apply preserves_read : coro.

(** One step of a frame proof: split a sequence, take a branch, discharge
    a primitive. *)
Ltac keeps_step :=
  match goal with
  | |- preserves _ (bind _ _) =>
      refine (preserves_bind _ _ _ _ _); [| intros ?]
  | |- preserves _ (try_finally _ _) =>
      refine (preserves_try_finally _ _ _ _ _)
  | |- preserves _ (try_except _ _) =>
      refine (preserves_try_except _ _ _ _ _);
      [| let e := fresh "e" in let h := fresh "h" in let H := fresh "H" in
         intros e h H; destruct e; simplify_eq H; intros <-]
  | |- preserves (frame _ _) (emit _) => refine (keeps_emit _ _ _ _); exact I
  | |- preserves (drift _ _) (emit _) =>
      apply keeps_drifts; refine (keeps_emit _ _ _ _); exact I
  | |- preserves _ (if ?b then _ else _) => destruct b
  | |- preserves _ (match ?x with _ => _ end) => destruct x
  | |- preserves (drift _ _) _ =>
      solve [auto with coro typeclass_instances
            | apply keeps_drifts; auto with coro typeclass_instances]
  | |- preserves _ _ => solve [auto with coro typeclass_instances]
  end.

Section WaiterFrames.
Variable Rq : relation (list DeviceUpdateResult).
Context `{!PreOrder Rq}.

Lemma keeps_states_get eid : keeps Rq kind_poll (states_get eid).
Proof. unfold states_get. repeat keeps_step. Qed.

Lemma keeps_asyncio_sleep d : keeps Rq kind_poll (asyncio_sleep d).
Proof. unfold asyncio_sleep. repeat keeps_step. Qed.

Lemma keeps_wait_loop fuel eid end_time since saw :
  keeps Rq kind_poll (wait_loop fuel eid end_time since saw).
Proof.
  revert since saw. induction fuel as [|fuel IH]; intros since saw; simpl.
  - intros s. reflexivity.
  - pose proof keeps_states_get. pose proof keeps_asyncio_sleep.
    repeat keeps_step; auto.
Qed.

Lemma keeps_wait_for_completion eid timeout :
  keeps Rq kind_poll (_wait_for_completion eid timeout).
Proof.
  unfold _wait_for_completion.
  pose proof keeps_wait_loop. pose proof keeps_asyncio_sleep.
  repeat keeps_step; auto.
Qed.
End WaiterFrames.

Lemma poll_is_job ev : kind_poll ev -> kind_job ev.
Proof. destruct ev; simpl; auto. Qed.

Lemma job_is_batch ev : kind_job ev -> kind_batch ev.
Proof. destruct ev; simpl; auto. Qed.

Lemma same_except_alter i f l : same_except i l (alter f i l).
Proof.
  split; [apply length_alter|].
  intros j Hj. apply list_lookup_alter_ne. congruence.
Qed.

Lemma same_except_length i l l' : same_except i l l' -> same_length l l'.
Proof. intros [H _]. exact H. Qed.

Section JobFrames.
Variable Rq : relation (list DeviceUpdateResult).
Context `{!PreOrder Rq}.

Lemma keeps_job_states_get eid : keeps Rq kind_job (states_get eid).
Proof.
  eapply keeps_weaken; [| |apply (keeps_states_get Rq)];
    [auto | apply poll_is_job].
Qed.

Lemma keeps_job_sleep d : keeps Rq kind_job (asyncio_sleep d).
Proof.
  eapply keeps_weaken; [| |apply (keeps_asyncio_sleep Rq)];
    [auto | apply poll_is_job].
Qed.

Lemma keeps_job_wait_for_completion eid t :
  keeps Rq kind_job (_wait_for_completion eid t).
Proof.
  eapply keeps_weaken; [| |apply (keeps_wait_for_completion Rq)];
    [auto | apply poll_is_job].
Qed.

Lemma keeps_is_entity_available eid :
  keeps Rq kind_job (_is_entity_available eid).
Proof.
  unfold _is_entity_available. pose proof keeps_job_states_get.
  repeat keeps_step; auto.
Qed.

Lemma keeps_async_call_install eid :
  keeps Rq kind_job (async_call_install eid).
Proof. unfold async_call_install, await_host. repeat keeps_step. Qed.
End JobFrames.

Lemma keeps_update_single i :
  keeps (same_except i) kind_job (_update_single i).
Proof.
  pose proof (keeps_job_wait_for_completion (same_except i)).
  pose proof (keeps_job_states_get (same_except i)).
  pose proof (keeps_is_entity_available (same_except i)).
  pose proof (keeps_async_call_install (same_except i)).
  assert (Hs : forall f, keeps (same_except i) kind_job (item_set i f)).
  { intros. apply keeps_item_set; try exact _. intros. apply same_except_alter. }
  unfold _update_single.
  repeat keeps_step; auto.
Qed.

(** ** Weakest-precondition rules *)

Lemma wp_bind {A B} (m : M A) (k : A -> M B) Q s :
  wp m (fun r s' =>
          match r with
          | Ret a => wp (k a) Q s'
          | Raise e => Q (Raise e) s'
          | Suspended => Q Suspended s'
          end) s ->
  wp (bind m k) Q s.
Proof. unfold wp, bind. destruct (m s) as [[a|e|] s']; simpl; auto. Qed.

Lemma wp_try_except {A} (body : M A) handler Q s :
  wp body (fun r s' =>
             match r with
             | Raise e =>
                 match handler e with
                 | Some h => wp h Q s'
                 | None => Q (Raise e) s'
                 end
             | _ => Q r s'
             end) s ->
  wp (try_except body handler) Q s.
Proof.
  unfold wp, try_except. destruct (body s) as [[a|e|] s']; simpl; auto.
  destruct (handler e); auto.
Qed.

Lemma wp_try_finally {A} (body : M A) fin Q s :
  wp body (fun r s' =>
             match r with
             | Suspended => Q Suspended s'
             | _ =>
                 wp fin (fun r2 s'' =>
                           match r2 with
                           | Ret _ => Q r s''
                           | Raise e => Q (Raise e) s''
                           | Suspended => Q Suspended s''
                           end) s'
             end) s ->
  wp (try_finally body fin) Q s.
Proof.
  unfold wp, try_finally. destruct (body s) as [[a|e|] s']; simpl; auto;
    destruct (fin s') as [[[]|e'|] s'']; simpl; auto.
Qed.

Lemma wp_preserves {A} R (m : M A) Q s :
  preserves R m -> (forall r s', R s s' -> Q r s') -> wp m Q s.
Proof. intros Hm HQ. apply HQ, Hm. Qed.

Lemma wp_run {A} (m : M A) Q s : Q (fst (m s)) (snd (m s)) -> wp m Q s.
Proof. auto. Qed.

Lemma wp_eq {A} (m : M A) s x : wp m (fun r s' => (r, s') = x) s -> m s = x.
Proof. unfold wp. destruct (m s). auto. Qed.

Lemma wp_mono {A} (m : M A) (Q Q' : outcome A -> Sys -> Prop) s :
  wp m Q s -> (forall r s', Q r s' -> Q' r s') -> wp m Q' s.
Proof. unfold wp. auto. Qed.

Lemma wp_item_set i f it Q s :
  _queue (obj s) !! i = Some it ->
  (forall s', _queue (obj s') !! i = Some (f it) ->
              _cancelled (obj s') = _cancelled (obj s) ->
              world s' = world s ->
              Q (Ret tt) s') ->
  wp (item_set i f) Q s.
Proof.
  intros Hit HQ. apply HQ; simpl; [|reflexivity|reflexivity].
  rewrite list_lookup_alter_eq, Hit. reflexivity.
Qed.

Lemma wp_item_get i it Q s :
  _queue (obj s) !! i = Some it -> Q (Ret it) s -> wp (item_get i) Q s.
Proof. intros Hit HQ. unfold wp, item_get. simpl. rewrite Hit. exact HQ. Qed.

Lemma wp_keeps_item {A} P (m : M A) i it Q s :
  keeps eq P m ->
  _queue (obj s) !! i = Some it ->
  (forall r s', _queue (obj s') !! i = Some it ->
                (_cancelled (obj s) = true -> _cancelled (obj s') = true) ->
                Q r s') ->
  wp m Q s.
Proof.
  intros Hm Hit HQ. eapply wp_preserves; [exact Hm|].
  intros r s' [Hq _ _ _ Hf _]. apply HQ; [|exact Hf].
  rewrite <- Hq. exact Hit.
Qed.

(** Abstract execution: the state after each step is known by what the
    step guarantees about the item. *)
Ltac wp_step :=
  lazy beta iota;
  match goal with
  | |- wp (bind _ _) _ _ => apply wp_bind
  | |- wp (try_except _ _) _ _ => apply wp_try_except
  | |- wp (try_finally _ _) _ _ => apply wp_try_finally
  | |- wp (if ?b then _ else _) _ _ => destruct b eqn:?
  | |- wp (item_set _ _) _ _ =>
      eapply wp_item_set; [eassumption | intros ? ? ? ?]
  | |- wp (item_get _) _ _ => eapply wp_item_get; [eassumption |]
  | |- wp datetime_now _ _ => apply wp_run; cbn [datetime_now fst snd]
  | |- wp cancelled_flag _ _ => apply wp_run; cbn [cancelled_flag fst snd]
  | |- wp (ret _) _ _ => apply wp_run; cbn [ret fst snd]
  | |- wp (raise _) _ _ => apply wp_run; cbn [raise fst snd]
  end;
  lazy beta iota.

Tactic Notation "wp_host" uconstr(lem) :=
  eapply (wp_keeps_item _ _ _ _ _ _ lem);
  [eassumption | intros [?|[|?]|] ? ? ?].

Ltac wp_job_step :=
  lazy beta iota;
  match goal with
  | |- wp (_is_entity_available _) _ _ =>
      wp_host (keeps_is_entity_available eq _)
  | |- wp (async_call_install _) _ _ =>
      wp_host (keeps_async_call_install eq _)
  | |- wp (states_get _) _ _ =>
      wp_host (keeps_job_states_get eq _)
  | |- wp (_wait_for_completion _ _) _ _ =>
      wp_host (keeps_job_wait_for_completion eq _ _)
  | |- wp (match ?e with CancelledError => _ | Exception _ => _ end) _ _ =>
      destruct e
  | _ => wp_step
  end;
  lazy beta iota.

(** Straight-line execution: every primitive is run on the explicit
    state. *)
Ltac wp_exec :=
  lazy beta iota;
  match goal with
  | |- wp (bind _ _) _ _ => apply wp_bind
  | |- wp (try_except _ _) _ _ => apply wp_try_except
  | |- wp (try_finally _ _) _ _ => apply wp_try_finally
  | |- wp ?m _ _ =>
      match m with
      | item_set _ _ => idtac | modify_obj _ => idtac | item_get _ => idtac
      | datetime_now => idtac | loop_time => idtac | cancelled_flag => idtac
      | get_obj => idtac | emit _ => idtac | ret _ => idtac | raise _ => idtac
      | pending_wakes => idtac | (fun _ => _) => idtac
      end;
      apply wp_run;
      cbn [item_set modify_obj item_get datetime_now loop_time cancelled_flag
           get_obj emit ret raise pending_wakes fst snd obj world trace
           set_queue _queue _running _cancelled _current_index _task
           _stop_addon_slug _addon_was_running]
  end;
  lazy beta iota.

(** ** The job state machine *)

Lemma update_single_item i s it :
  _queue (obj s) !! i = Some it ->
  wp (_update_single i) (job_post it (wall_clock (world s)) i) s.
Proof.
  intros Hit. unfold _update_single.
  repeat wp_job_step.
  all: try match goal with
           | H : negb true = true |- _ => discriminate H
           | H : negb false = false |- _ => discriminate H
           end.
  all: eexists; split; [eassumption|]; cbn.
  all: split; [reflexivity|]; split; [congruence|].
  all: repeat split; eauto.
  all: try (left; reflexivity).
  all: try (right; left; reflexivity).
  all: try (right; right; left; reflexivity).
  all: try (right; right; right; repeat split; congruence).
Qed.

Lemma alter_as_insert {A} (f : A -> A) i (l : list A) x :
  l !! i = Some x -> alter f i l = <[i := f x]> l.
Proof.
  intros H. apply list_eq. intros j. destruct (decide (i = j)) as [->|Hne].
  - rewrite list_lookup_alter_eq, H. simpl.
    symmetry. apply list_lookup_insert_eq. eapply lookup_lt_Some; eauto.
  - rewrite list_lookup_alter_ne, list_lookup_insert_ne by auto. reflexivity.
Qed.

Lemma set_queue_twice l l' q : set_queue l (set_queue l' q) = set_queue l q.
Proof. reflexivity. Qed.

Lemma update_single_unreachable i s it :
  _queue (obj s) !! i = Some it ->
  unreachable (hass_states (world s) (entity_id it)) = true ->
  _update_single i s =
  (Ret tt,
   mkSys (set_queue (<[i := mkItem (entity_id it) STATUS_SKIPPED
                             (Some (wall_clock (world s)))
                             (Some (wall_clock (world s)))
                             (Some "Device unavailable — skipped")]>
                       (_queue (obj s))) (obj s))
         (world s)
         (trace s ++ [EvStatesGet (entity_id it)])).
Proof.
  intros Hit Hun. destruct s as [q w tr]. simpl in *.
  apply wp_eq. unfold _update_single, _is_entity_available, states_get.
  repeat wp_exec.
  rewrite !list_lookup_alter_eq, Hit.
  cbn [fmap option_fmap option_map default entity_id with_started_at with_status id].
  repeat wp_exec.
  assert (Hav : match hass_states w (entity_id it) with
                | Some st => ret (negb (String.eqb (state st) "unavailable"
                                        || String.eqb (state st) "unknown"))
                | None => ret false
                end = (ret false : M bool)).
  { unfold unreachable in Hun. destruct (hass_states w (entity_id it)); [|reflexivity].
    rewrite Hun. reflexivity. }
  rewrite Hav. repeat wp_exec. cbn [negb]. repeat wp_exec.
  rewrite !list_lookup_alter_eq, Hit.
  cbn [fmap option_fmap option_map default finished_at with_finished_at id].
  repeat wp_exec.
  rewrite !set_queue_twice. apply f_equal.
  apply (f_equal (fun o => mkSys o _ _)), (f_equal (fun l => set_queue l _)).
  rewrite !list_alter_alter_eq, (alter_as_insert _ _ _ _ Hit). reflexivity.
Qed.

(** C5. A job whose first probe finds the target missing or explicitly
    unavailable ends Skipped with the device-unavailable reason and a
    finish timestamp; the only host call made for it is that probe, so the
    install service is never called. *)
Theorem unreachable_target_is_skipped i s it :
  _queue (obj s) !! i = Some it ->
  (hass_states (world s) (entity_id it) = None
   \/ exists st, hass_states (world s) (entity_id it) = Some st
                 /\ state st = "unavailable") ->
  exists s',
    _update_single i s = (Ret tt, s')
    /\ _queue (obj s') !! i
       = Some (mkItem (entity_id it) STATUS_SKIPPED
                      (Some (wall_clock (world s)))
                      (Some (wall_clock (world s)))
                      (Some "Device unavailable — skipped"))
    /\ trace s' = trace s ++ [EvStatesGet (entity_id it)]
    /\ (forall domain service entity,
          EvServiceCall domain service entity ∉ [EvStatesGet (entity_id it)]).
Proof.
  intros Hit Hprobe. eexists. split; [|split; [|split]].
  - apply update_single_unreachable; [exact Hit|].
    destruct Hprobe as [-> | (st & -> & Hst)]; [reflexivity|].
    simpl. rewrite Hst. reflexivity.
  - simpl. apply list_lookup_insert_eq. eapply lookup_lt_Some; eauto.
  - reflexivity.
  - intros d sv e Hin. apply list_elem_of_singleton in Hin. discriminate Hin.
Qed.

Lemma unreachable_target_is_skipped_witness :
  exists s',
    _update_single 0 (mkSys demo_queue
                        (demo_world (Some (mkState "unavailable" false)) []) [])
    = (Ret tt, s')
    /\ _queue (obj s') !! 0%nat
       = Some (mkItem "update.kitchen" STATUS_SKIPPED (Some 1000) (Some 1000)
                      (Some "Device unavailable — skipped"))
    /\ trace s' = [EvStatesGet "update.kitchen"]
    /\ (forall domain service entity,
          EvServiceCall domain service entity ∉ [EvStatesGet "update.kitchen"]).
Proof.
  apply (unreachable_target_is_skipped 0
           (mkSys demo_queue
              (demo_world (Some (mkState "unavailable" false)) []) [])
           (new_item "update.kitchen")).
  - reflexivity.
  - right. eexists. split; reflexivity.
Defined.

(** C8. A probe reading of "unknown" counts as unreachable as well: the
    job ends Skipped and the install service is not called. *)
Theorem unknown_state_is_skipped i s it st :
  _queue (obj s) !! i = Some it ->
  hass_states (world s) (entity_id it) = Some st ->
  state st = "unknown" ->
  fst (_is_entity_available (entity_id it) s) = Ret false
  /\ exists s',
    _update_single i s = (Ret tt, s')
    /\ (exists it', _queue (obj s') !! i = Some it'
                    /\ status it' = STATUS_SKIPPED
                    /\ error it' = Some "Device unavailable — skipped")
    /\ trace s' = trace s ++ [EvStatesGet (entity_id it)]
    /\ (forall domain service entity,
          EvServiceCall domain service entity ∉ [EvStatesGet (entity_id it)]).
Proof.
  intros Hit Hst Hunk. split.
  - unfold _is_entity_available, states_get, bind, emit. simpl.
    rewrite Hst, Hunk. reflexivity.
  - eexists. split; [|split; [|split]].
    + apply update_single_unreachable; [exact Hit|].
      rewrite Hst. simpl. rewrite Hunk. reflexivity.
    + eexists. split.
      * simpl. apply list_lookup_insert_eq. eapply lookup_lt_Some; eauto.
      * split; reflexivity.
    + reflexivity.
    + intros d sv e Hin. apply list_elem_of_singleton in Hin. discriminate Hin.
Qed.

Lemma unknown_state_is_skipped_witness :
  let s := mkSys demo_queue (demo_world (Some (mkState "unknown" false)) []) [] in
  fst (_is_entity_available "update.kitchen" s) = Ret false
  /\ exists s',
    _update_single 0 s = (Ret tt, s')
    /\ (exists it', _queue (obj s') !! 0%nat = Some it'
                    /\ status it' = STATUS_SKIPPED
                    /\ error it' = Some "Device unavailable — skipped")
    /\ trace s' = [EvStatesGet "update.kitchen"]
    /\ (forall domain service entity,
          EvServiceCall domain service entity ∉ [EvStatesGet "update.kitchen"]).
Proof.
  apply (unknown_state_is_skipped 0
           (mkSys demo_queue (demo_world (Some (mkState "unknown" false)) []) [])
           (new_item "update.kitchen") (mkState "unknown" false));
    reflexivity.
Defined.

(** ** The batch *)

Lemma keeps_bus_async_fire Rq `{!PreOrder Rq} ty :
  keeps Rq kind_batch (bus_async_fire ty).
Proof. unfold bus_async_fire. repeat keeps_step. Qed.

Lemma keeps_batch_update_single i :
  keeps same_length kind_batch (_update_single i).
Proof.
  eapply keeps_weaken; [| |apply keeps_update_single];
    [apply same_except_length | apply job_is_batch].
Qed.

Lemma keeps_batch_sleep Rq `{!PreOrder Rq} d :
  keeps Rq kind_batch (asyncio_sleep d).
Proof.
  eapply keeps_weaken; [| |apply (keeps_job_sleep Rq)];
    [auto | apply job_is_batch].
Qed.

Lemma keeps_loop_body n i : keeps same_length kind_batch (loop_body n i).
Proof.
  pose proof (keeps_batch_update_single i).
  pose proof (keeps_bus_async_fire same_length).
  pose proof (keeps_batch_sleep same_length).
  assert (Hs : forall f, keeps same_length kind_batch (item_set i f)).
  { intros. apply keeps_item_set; try exact _. intros. apply length_alter. }
  unfold loop_body, wait_for_cancel_or_timeout.
  repeat keeps_step; auto.
Qed.

Lemma keeps_batch n idxs :
  keeps same_length kind_batch (for_each idxs (loop_body n)).
Proof. apply preserves_for_each; [exact _|]. intros. apply keeps_loop_body. Qed.

(** ** The add-on hooks and the whole run, as drifts *)

Lemma any_event (P : Event -> Prop) ev : P ev -> kind_any ev.
Proof. intros _. exact I. Qed.

Section HookFrames.
Variable Rq : relation (list DeviceUpdateResult).
Context `{!PreOrder Rq}.

Lemma keeps_supervisor_api method path :
  keeps Rq kind_hook (_supervisor_api method path).
Proof. unfold _supervisor_api, await_host. repeat keeps_step. Qed.

Lemma keeps_async_get_addon_info slug :
  keeps Rq kind_hook (async_get_addon_info slug).
Proof.
  unfold async_get_addon_info. pose proof keeps_supervisor_api.
  repeat keeps_step; auto.
Qed.

Lemma keeps_async_stop_addon slug : keeps Rq kind_hook (async_stop_addon slug).
Proof.
  unfold async_stop_addon. pose proof keeps_supervisor_api.
  repeat keeps_step; auto.
Qed.

Lemma keeps_async_start_addon slug : keeps Rq kind_hook (async_start_addon slug).
Proof.
  unfold async_start_addon. pose proof keeps_supervisor_api.
  repeat keeps_step; auto.
Qed.

Lemma keeps_hook_sleep d : keeps Rq kind_hook (asyncio_sleep d).
Proof. unfold asyncio_sleep. repeat keeps_step. Qed.

Lemma keeps_restart_addon : keeps Rq kind_hook _restart_addon.
Proof.
  unfold _restart_addon.
  pose proof keeps_async_get_addon_info. pose proof keeps_async_start_addon.
  repeat keeps_step; auto.
Qed.

Lemma drifts_stop_addon : drifts Rq kind_hook _stop_addon.
Proof.
  unfold _stop_addon.
  pose proof (fun s => keeps_drifts _ _ _ (keeps_async_get_addon_info s)).
  pose proof (fun s => keeps_drifts _ _ _ (keeps_async_stop_addon s)).
  pose proof (fun d => keeps_drifts _ _ _ (keeps_hook_sleep d)).
  repeat keeps_step; auto.
Qed.

Lemma drifts_run_cleanup : drifts Rq kind_any run_cleanup.
Proof.
  unfold run_cleanup, bus_async_fire.
  assert (drifts Rq kind_any _restart_addon).
  { eapply drifts_weaken; [| |apply keeps_drifts, keeps_restart_addon];
      [auto | apply any_event]. }
  repeat keeps_step; auto.
Qed.
End HookFrames.

Lemma drifts_on_cancelled : drifts same_length kind_any on_cancelled.
Proof.
  unfold on_cancelled. keeps_step; [keeps_step|].
  intros s. split; simpl; auto; [apply length_fmap | apply trace_grows_refl].
Qed.

Lemma drifts_run : drifts same_length kind_any _run.
Proof.
  unfold _run.
  assert (drifts same_length kind_any _stop_addon).
  { eapply drifts_weaken; [| |apply (drifts_stop_addon same_length)];
      [auto | apply any_event]. }
  pose proof (drifts_run_cleanup same_length).
  pose proof drifts_on_cancelled.
  assert (forall n idxs, drifts same_length kind_any (for_each idxs (loop_body n))).
  { intros. apply keeps_drifts. eapply keeps_weaken; [| |apply keeps_batch];
      [auto | apply any_event]. }
  repeat keeps_step; auto.
Qed.

(** ** Invariants carried through a run *)

#[local] Instance carries_preorder I : PreOrder (carries I).
Proof. split; unfold carries; [intros s; auto | intros s1 s2 s3; auto]. Qed.

Lemma carries_drift J P s s' :
  drift eq P s s' -> carries (every_item J) s s'.
Proof. intros [Hq _ _ _] HJ j it. rewrite <- Hq. apply HJ. Qed.

Lemma carries_drifts {A} J P (m : M A) :
  drifts eq P m -> preserves (carries (every_item J)) m.
Proof. intros Hm s. eapply carries_drift, Hm. Qed.

Lemma carries_item_set (J : DeviceUpdateResult -> Prop) i f :
  (forall it, J it -> J (f it)) ->
  preserves (carries (every_item J)) (item_set i f).
Proof.
  intros Hf s HJ j it. simpl. rewrite list_lookup_alter.
  destruct (decide (i = j)) as [->|Hne]; [|apply HJ].
  destruct (_queue (obj s) !! j) as [x|] eqn:Hj; simpl; [|discriminate].
  intros [= <-]. apply Hf. eapply HJ. eassumption.
Qed.

Lemma carries_update_single i :
  preserves (carries (every_item never_started_ok)) (_update_single i).
Proof.
  intros s HJ j it' Hj.
  destruct (keeps_update_single i s) as [[Hlen Hne] _ _ _ _ _].
  destruct (decide (j = i)) as [->|Hji].
  - destruct (_queue (obj s) !! i) as [it|] eqn:Hi.
    + destruct (update_single_item i s it Hi) as (it2 & Hit2 & _ & Hst & _).
      rewrite Hit2 in Hj. injection Hj as <-.
      intros Hnone. rewrite Hst in Hnone. discriminate.
    + apply lookup_lt_Some in Hj. apply lookup_ge_None in Hi. lia.
  - rewrite Hne in Hj by exact Hji. eapply HJ. eassumption.
Qed.

Lemma never_started_ok_cancelled it :
  never_started_ok it -> never_started_ok (with_status STATUS_CANCELLED it).
Proof.
  intros H Hs. destruct (H Hs) as (Hf & He & _). simpl. auto.
Qed.

Lemma never_started_ok_cancel_item now it :
  never_started_ok it -> never_started_ok (cancel_item now it).
Proof.
  intros H. unfold cancel_item.
  destruct (String.eqb (status it) STATUS_QUEUED) eqn:Hq.
  - apply never_started_ok_cancelled, H.
  - destruct (String.eqb (status it) STATUS_RUNNING) eqn:Hr; [|exact H].
    intros Hs. simpl in Hs. destruct (H Hs) as (_ & _ & [Hst|Hst]);
      apply String.eqb_eq in Hr; rewrite Hst in Hr; discriminate.
Qed.

Lemma carries_loop_body n i :
  preserves (carries (every_item never_started_ok)) (loop_body n i).
Proof.
  pose proof (carries_update_single i).
  assert (Hfire : forall ty, preserves (carries (every_item never_started_ok))
                               (bus_async_fire ty)).
  { intros. eapply carries_drifts, keeps_drifts, (keeps_bus_async_fire eq). }
  assert (Hsl : forall d, preserves (carries (every_item never_started_ok))
                            (asyncio_sleep d)).
  { intros. eapply carries_drifts, keeps_drifts, (keeps_batch_sleep eq). }
  assert (Hidx : preserves (carries (every_item never_started_ok))
                   (modify_obj (set_current_index i))).
  { eapply carries_drifts, keeps_drifts, (keeps_set_current_index eq kind_any). }
  pose proof (carries_item_set never_started_ok i _ never_started_ok_cancelled).
  unfold loop_body, wait_for_cancel_or_timeout.
  repeat keeps_step; auto.
Qed.

Lemma carries_on_cancelled :
  preserves (carries (every_item never_started_ok)) on_cancelled.
Proof.
  intros s HJ j it. simpl. rewrite list_lookup_fmap.
  destruct (_queue (obj s) !! j) as [x|] eqn:Hj; simpl; [|discriminate].
  intros [= <-]. apply never_started_ok_cancel_item. eapply HJ. eassumption.
Qed.

Lemma carries_run :
  preserves (carries (every_item never_started_ok)) _run.
Proof.
  pose proof (carries_drifts never_started_ok _ _ (drifts_stop_addon eq)).
  pose proof (carries_drifts never_started_ok _ _ (drifts_run_cleanup eq)).
  pose proof carries_on_cancelled.
  assert (forall n idxs, preserves (carries (every_item never_started_ok))
                           (for_each idxs (loop_body n))).
  { intros. apply preserves_for_each; [exact _|]. intros. apply carries_loop_body. }
  unfold _run.
  repeat keeps_step; auto.
Qed.

Lemma started_queue_never_started_ok entity_ids slug q w tr :
  _running q = false ->
  every_item never_started_ok (mkSys (snd (start entity_ids slug q)) w tr).
Proof.
  intros Hidle j it. unfold start. rewrite Hidle. simpl.
  rewrite list_lookup_fmap.
  destruct (entity_ids !! j); simpl; [|discriminate].
  intros [= <-] _. simpl. auto.
Qed.

(** ** Cancellation *)

Lemma loop_body_cancelled n i s :
  _cancelled (obj s) = true ->
  loop_body n i s
  = (Ret tt,
     mkSys (set_queue (alter (with_status STATUS_CANCELLED) i (_queue (obj s)))
                      (set_current_index i (obj s)))
           (world s) (trace s)).
Proof.
  intros Hc. unfold loop_body, bind, modify_obj, cancelled_flag. simpl.
  rewrite Hc. reflexivity.
Qed.

Lemma cancel_item_queued now it :
  status it = STATUS_QUEUED ->
  cancel_item now it = with_status STATUS_CANCELLED it.
Proof. intros H. unfold cancel_item. rewrite H. reflexivity. Qed.

(** C9. A job that is marked Cancelled without having been started keeps
    its blank start timestamp, finish timestamp and error text; only its
    status changes, from Queued to Cancelled.  This holds for the loop's
    own check of the flag and for the handler of a forced cancellation,
    neither of which calls the host.  In every state that a run begun by
    [start] reaches, at its end or at any suspension point, a job without
    a start timestamp has no finish timestamp and no error, and is Queued
    or Cancelled. *)
Theorem cancelled_before_start_changes_status_only
    (entity_ids : list string) (slug : option string) (q : UpdateQueue)
    (w : World) (tr : list Event) (Hidle : _running q = false) :
  (forall j it,
     _queue (obj (snd (_run (mkSys (snd (start entity_ids slug q)) w tr)))) !! j
     = Some it ->
     started_at it = None ->
     finished_at it = None /\ error it = None
     /\ (status it = STATUS_QUEUED \/ status it = STATUS_CANCELLED))
  /\ (forall n i s it,
        _queue (obj s) !! i = Some it -> status it = STATUS_QUEUED ->
        _cancelled (obj s) = true ->
        exists s',
          loop_body n i s = (Ret tt, s')
          /\ _queue (obj s') !! i
             = Some (mkItem (entity_id it) STATUS_CANCELLED
                            (started_at it) (finished_at it) (error it))
          /\ trace s' = trace s)
  /\ (forall i s it,
        _queue (obj s) !! i = Some it -> status it = STATUS_QUEUED ->
        exists s',
          on_cancelled s = (Ret tt, s')
          /\ _queue (obj s') !! i
             = Some (mkItem (entity_id it) STATUS_CANCELLED
                            (started_at it) (finished_at it) (error it))
          /\ trace s' = trace s).
Proof.
  split; [|split].
  - intros j it Hj. eapply (carries_run _ (started_queue_never_started_ok
                                            entity_ids slug q w tr Hidle)).
    exact Hj.
  - intros n i s it Hit Hq Hc. eexists. split; [apply loop_body_cancelled, Hc|].
    split; [|reflexivity]. simpl. rewrite list_lookup_alter_eq, Hit. reflexivity.
  - intros i s it Hit Hq. eexists. split; [reflexivity|].
    split; [|reflexivity]. simpl. rewrite list_lookup_fmap, Hit. simpl.
    rewrite cancel_item_queued by exact Hq. reflexivity.
Qed.

(** C1 (as amended). [cancel()] raises the cancellation flag and asks the
    pending task to cancel; it changes no job (status, timestamps, error
    text) and no other field, and calling it again changes nothing more.
    A job that [_update_single] leaves Cancelled was demoted by the
    coroutine itself: either the flag was set when the routine ended, or
    the requested cancellation was raised in it at a suspension point. *)
Theorem cancel_only_sets_flag (q : UpdateQueue) :
  _queue (cancel q) = _queue q
  /\ _cancelled (cancel q) = true
  /\ _running (cancel q) = _running q
  /\ _current_index (cancel q) = _current_index q
  /\ _stop_addon_slug (cancel q) = _stop_addon_slug q
  /\ _addon_was_running (cancel q) = _addon_was_running q
  /\ _task (cancel q) = Task_cancel <$> _task q
  /\ cancel (cancel q) = cancel q
  /\ (forall wk, _queue (interrupt_obj wk q) = _queue q)
  /\ (forall i w tr it it',
        _queue q !! i = Some it ->
        _queue (obj (snd (_update_single i (mkSys q w tr)))) !! i = Some it' ->
        status it' = STATUS_CANCELLED ->
        _cancelled (obj (snd (_update_single i (mkSys q w tr)))) = true
        \/ fst (_update_single i (mkSys q w tr)) = Raise CancelledError).
Proof.
  repeat split.
  1-7: destruct q as [l r c k [[[] m]|] sl wr]; reflexivity.
  - apply cancel_idempotent.
  - intros wk. apply interrupt_obj_fields.
  - intros i w tr it it' Hit Hit' Hst.
    pose proof (update_single_item i (mkSys q w tr) it Hit) as Hwp.
    unfold wp, job_post in Hwp. destruct Hwp as (it2 & H2 & _ & _ & Hout).
    rewrite Hit' in H2. injection H2 as <-.
    destruct (fst (_update_single i (mkSys q w tr))) as [[]|[|msg]|]; simpl in Hout.
    + destruct Hout as (_ & [H|[H|[H|(_ & H & _)]]]);
        [rewrite Hst in H; discriminate ..| left; exact H].
    + right. reflexivity.
    + contradiction.
    + destruct Hout as (H & _). rewrite Hst in H. discriminate.
Qed.

Lemma cancel_only_sets_flag_witness :
  _queue (cancel demo_queue) = _queue demo_queue
  /\ _cancelled (cancel demo_queue) = true
  /\ _task (cancel demo_queue) = Some (mkTask false true).
Proof.
  destruct (cancel_only_sets_flag demo_queue) as (Hq & Hc & _ & _ & _ & _ & Ht & _).
  split; [exact Hq | split; [exact Hc | exact Ht]].
Defined.

(** C1 (as stated) fails.  [cancel()] does more than set the flag: it
    requests the cancellation of the task.  And the running job is
    demoted by the handler of the CancelledError that this request raises
    in the waiter's sleep, not by a reading of the flag: the same run
    with the task cancelled by the host, the flag never set, leaves the
    same jobs. *)
Lemma cancel_reaches_the_task_counterexample :
  _task demo_queue = Some (mkTask false false)
  /\ _task (cancel demo_queue) = Some (mkTask false true)
  /\ cancel demo_queue <> set_cancelled true demo_queue
  /\ fst (_update_single 0 cancelled_during_wait) = Raise CancelledError
  /\ _queue (obj (snd (_update_single 0 cancelled_during_wait))) !! 0%nat
     = Some (mkItem "update.kitchen" STATUS_CANCELLED (Some 1000) (Some 1007)
                    (Some "Cancelled by user"))
  /\ fst (_update_single 0 task_cancelled_during_wait) = Raise CancelledError
  /\ _cancelled (obj (snd (run_task task_cancelled_during_wait))) = false
  /\ _cancelled (obj (snd (run_task cancelled_during_wait))) = true
  /\ _queue (obj (snd (run_task task_cancelled_during_wait)))
     = _queue (obj (snd (run_task cancelled_during_wait)))
  /\ _queue (obj (snd (run_task cancelled_during_wait)))
     = [mkItem "update.kitchen" STATUS_CANCELLED (Some 1000) (Some 1007)
               (Some "Cancelled by user");
        mkItem "update.porch" STATUS_CANCELLED None None None].
Proof.
  split; [reflexivity|]. split; [reflexivity|].
  split; [intros H; apply (f_equal _task) in H; vm_compute in H; discriminate H|].
  repeat (split; [vm_compute; reflexivity|]).
  vm_compute. reflexivity.
Qed.

Lemma cancelled_before_start_changes_status_only_witness :
  _running UpdateQueue_init = false
  /\ _queue (obj (snd (_run cancelled_during_wait))) !! 1%nat
     = Some (mkItem "update.porch" STATUS_CANCELLED None None None)
  /\ (finished_at (mkItem "update.porch" STATUS_CANCELLED None None None) = None
      /\ error (mkItem "update.porch" STATUS_CANCELLED None None None) = None
      /\ (status (mkItem "update.porch" STATUS_CANCELLED None None None) = STATUS_QUEUED
          \/ status (mkItem "update.porch" STATUS_CANCELLED None None None)
             = STATUS_CANCELLED))
  /\ (exists s',
        loop_body 2 1 (mkSys (cancel demo_queue) (demo_world None []) [])
        = (Ret tt, s')
        /\ _queue (obj s') !! 1%nat
           = Some (mkItem "update.porch" STATUS_CANCELLED None None None)
        /\ trace s' = [])
  /\ (exists s',
        on_cancelled (mkSys demo_queue (demo_world None []) []) = (Ret tt, s')
        /\ _queue (obj s') !! 1%nat
           = Some (mkItem "update.porch" STATUS_CANCELLED None None None)
        /\ trace s' = []).
Proof.
  destruct (cancelled_before_start_changes_status_only
              ["update.kitchen"; "update.porch"] None UpdateQueue_init
              (world cancelled_during_wait) [] eq_refl) as (Hrun & Hloop & Hhandler).
  split; [reflexivity|].
  split; [vm_compute; reflexivity|].
  split.
  - apply (Hrun 1%nat (mkItem "update.porch" STATUS_CANCELLED None None None)).
    + vm_compute. reflexivity.
    + reflexivity.
  - split.
    + apply (Hloop 2%nat 1%nat (mkSys (cancel demo_queue) (demo_world None []) [])
               (mkItem "update.porch" STATUS_QUEUED None None None));
        reflexivity.
    + apply (Hhandler 1%nat (mkSys demo_queue (demo_world None []) [])
               (mkItem "update.porch" STATUS_QUEUED None None None));
        reflexivity.
Defined.

(** ** The completion waiter *)

Lemma take_cancel_calm q w tr :
  calm q -> take_cancel (mkSys q w tr) = (Ret false, mkSys q w tr).
Proof.
  intros [_ Ht]. unfold take_cancel. simpl.
  destruct (_task q) as [t|] eqn:E; [|reflexivity].
  rewrite (Ht t eq_refl). reflexivity.
Qed.

Lemma sleep_undisturbed d q t wl sts nxt fut tr :
  calm q -> wk_interrupt nxt = NoInterrupt ->
  asyncio_sleep d (mkSys q (mkWorld t wl sts (nxt :: fut)) tr)
  = (Ret tt,
     mkSys q (mkWorld (wk_loop_clock nxt) (wk_wall_clock nxt) (wk_states nxt) fut)
           (tr ++ [EvSleep d])).
Proof.
  intros Hc Hi. unfold asyncio_sleep, bind, emit, suspend. simpl.
  rewrite Hi. simpl. rewrite take_cancel_calm by exact Hc. reflexivity.
Qed.

(** One poll that goes round again: an available reading. *)
Lemma wait_loop_polls fuel eid end_time since saw q t wl sts nxt fut tr :
  calm q -> t < end_time -> wk_interrupt nxt = NoInterrupt ->
  keeps_polling (sts eid) = true ->
  exists tr',
    wait_loop (S fuel) eid end_time since saw
      (mkSys q (mkWorld t wl sts (nxt :: fut)) tr)
    = wait_loop fuel eid end_time None (saw || shows_progress (sts eid))
        (mkSys q (mkWorld (wk_loop_clock nxt) (wk_wall_clock nxt)
                          (wk_states nxt) fut) tr').
Proof.
  intros Hc Ht Hi Hk. cbn [wait_loop].
  unfold bind at 1. cbn [loop_time world loop_clock].
  assert (Hlt : (t <? end_time) = true) by (apply Z.ltb_lt; exact Ht).
  rewrite Hlt. cbn [negb].
  unfold bind at 1. cbn [cancelled_flag obj]. rewrite (proj1 Hc).
  unfold bind at 1. unfold states_get, bind at 1, emit.
  cbn [world hass_states obj trace].
  unfold keeps_polling in Hk. destruct (sts eid) as [st|]; [|discriminate].
  apply andb_true_iff in Hk as [Hna Hnf].
  apply negb_true_iff in Hna. rewrite Hna.
  apply negb_true_iff in Hnf. rewrite Hnf.
  cbn [shows_progress].
  assert (Hsaw : (if attr_in_progress st then true else saw)
                 = saw || attr_in_progress st) by (destruct saw, (attr_in_progress st); reflexivity).
  rewrite Hsaw.
  destruct (negb (attr_in_progress st) && String.eqb (state st) "on").
  - assert (Hboth : forall b : bool,
              (if b then asyncio_sleep 10 else asyncio_sleep 10) = asyncio_sleep 10)
      by (intros []; reflexivity).
    rewrite Hboth. unfold bind.
    rewrite (sleep_undisturbed _ _ _ _ _ _ _ _ Hc Hi). eexists; reflexivity.
  - unfold bind.
    rewrite (sleep_undisturbed _ _ _ _ _ _ _ _ Hc Hi). eexists; reflexivity.
Qed.

(** One poll that goes round again: a missing or unavailable reading
    inside the grace window. *)
Lemma wait_loop_down fuel eid end_time since since' saw q t wl sts nxt fut tr :
  calm q -> t < end_time -> wk_interrupt nxt = NoInterrupt ->
  is_down (sts eid) = true ->
  (since = None /\ since' = t
   \/ since = Some since' /\ t - since' <= MAX_UNAVAILABLE_DURATION) ->
  exists tr',
    wait_loop (S fuel) eid end_time since saw
      (mkSys q (mkWorld t wl sts (nxt :: fut)) tr)
    = wait_loop fuel eid end_time (Some since') saw (at_wake q nxt fut tr').
Proof.
  intros Hc Ht Hi Hd Hs. cbn [wait_loop].
  unfold bind at 1. cbn [loop_time world loop_clock].
  assert (Hlt : (t <? end_time) = true) by (apply Z.ltb_lt; exact Ht).
  rewrite Hlt. cbn [negb].
  unfold bind at 1. cbn [cancelled_flag obj]. rewrite (proj1 Hc).
  unfold bind at 1. unfold states_get, bind at 1, emit.
  cbn [world hass_states obj trace].
  assert (Hgt : forall u, t - u <= MAX_UNAVAILABLE_DURATION ->
                          (t - u >? MAX_UNAVAILABLE_DURATION) = false).
  { intros u Hu. rewrite Z.gtb_ltb. apply Z.ltb_ge. exact Hu. }
  unfold is_down in Hd. destruct (sts eid) as [st|]; [rewrite Hd|];
    destruct Hs as [[-> ->] | [-> Hw]]; unfold bind; cbn [loop_time world loop_clock];
    rewrite ?(Hgt _ Hw), (sleep_undisturbed _ _ _ _ _ _ _ _ Hc Hi);
    eexists; reflexivity.
Qed.

(** The deciding poll: still missing or unavailable after the grace
    window. *)
Lemma wait_loop_lost fuel eid end_time since saw q t wl sts fut tr :
  calm q -> t < end_time ->
  is_down (sts eid) = true ->
  t - since > MAX_UNAVAILABLE_DURATION ->
  exists s',
    wait_loop (S fuel) eid end_time (Some since) saw
      (mkSys q (mkWorld t wl sts fut) tr)
    = (Ret (false, Some (lost_reason saw (sts eid))), s')
    /\ obj s' = q.
Proof.
  intros Hc Ht Hd Hs. cbn [wait_loop].
  unfold bind at 1. cbn [loop_time world loop_clock].
  assert (Hlt : (t <? end_time) = true) by (apply Z.ltb_lt; exact Ht).
  rewrite Hlt. cbn [negb].
  unfold bind at 1. cbn [cancelled_flag obj]. rewrite (proj1 Hc).
  unfold bind at 1. unfold states_get, bind at 1, emit.
  cbn [world hass_states obj trace].
  assert (Hgt : (t - since >? MAX_UNAVAILABLE_DURATION) = true).
  { rewrite Z.gtb_ltb. apply Z.ltb_lt. lia. }
  unfold is_down in Hd. destruct (sts eid) as [st|]; [rewrite Hd|];
    unfold bind; cbn [loop_time world loop_clock]; rewrite Hgt;
    [destruct saw|]; eexists; split; reflexivity.
Qed.

Lemma wait_loop_down_run eid end_time q last rest since' (mids : list Wake) :
  calm q ->
  Forall (undisturbed end_time) (mids ++ [last]) ->
  Forall (fun wk => is_down (wk_states wk eid) = true) (mids ++ [last]) ->
  Forall (fun wk => wk_loop_clock wk - since' <= MAX_UNAVAILABLE_DURATION) mids ->
  wk_loop_clock last - since' > MAX_UNAVAILABLE_DURATION ->
  forall fuel since saw t wl sts tr,
    t < end_time -> is_down (sts eid) = true ->
    (since = None /\ since' = t
     \/ since = Some since' /\ t - since' <= MAX_UNAVAILABLE_DURATION) ->
    exists s',
      wait_loop (S (S (length mids)) + fuel) eid end_time since saw
        (mkSys q (mkWorld t wl sts (mids ++ last :: rest)) tr)
      = (Ret (false, Some (lost_reason saw (wk_states last eid))), s')
      /\ obj s' = q.
Proof.
  intros Hc. induction mids as [|m mids IH];
    intros Hu Hd Hw Hx fuel since saw t wl sts tr Ht Hdn Hs.
  - apply Forall_cons in Hu as [[Hi Hlt] _].
    apply Forall_cons in Hd as [Hdl _].
    destruct (wait_loop_down (S fuel) eid end_time since since' saw q t wl sts
                last rest tr Hc Ht Hi Hdn Hs) as (tr1 & E1).
    destruct (wait_loop_lost fuel eid end_time since' saw q (wk_loop_clock last)
                (wk_wall_clock last) (wk_states last) rest tr1 Hc Hlt Hdl Hx)
      as (s' & E2 & Hq).
    exists s'. split; [|exact Hq]. etransitivity; [exact E1 | exact E2].
  - simpl in Hu. apply Forall_cons in Hu as [[Hi Hmt] Hu].
    simpl in Hd. apply Forall_cons in Hd as [Hmd Hd].
    apply Forall_cons in Hw as [Hmw Hw].
    destruct (wait_loop_down (S (S (length mids)) + fuel) eid end_time since since'
                saw q t wl sts m (mids ++ last :: rest) tr Hc Ht Hi Hdn Hs)
      as (tr1 & E1).
    destruct (IH Hu Hd Hw Hx fuel (Some since') saw (wk_loop_clock m)
                (wk_wall_clock m) (wk_states m) tr1 Hmt Hmd
                (or_intror (conj eq_refl Hmw))) as (s' & E2 & Hq).
    exists s'. split; [|exact Hq]. etransitivity; [exact E1 | exact E2].
Qed.

Lemma wait_loop_step eid end_time q cur nxt tail fuel since saw tr :
  calm q ->
  undisturbed end_time cur -> wk_interrupt nxt = NoInterrupt ->
  still_waiting (wk_states cur eid) = true ->
  outage_within eid since [cur] ->
  exists tr',
    wait_loop (S fuel) eid end_time since saw (at_wake q cur (nxt :: tail) tr)
    = wait_loop fuel eid end_time (timer_after eid since cur)
        (saw || saw_live eid [cur]) (at_wake q nxt tail tr').
Proof.
  intros Hc [_ Ht] Hn Hw Hout. unfold timer_after, saw_live. cbn [existsb].
  rewrite orb_false_r.
  destruct (is_down (wk_states cur eid)) eqn:Hd.
  - assert (Hk : keeps_polling (wk_states cur eid) = false).
    { unfold is_down, keeps_polling in *. destruct (wk_states cur eid) as [st|];
        [rewrite Hd|]; reflexivity. }
    rewrite Hk. cbn [andb]. rewrite orb_false_r.
    unfold at_wake at 1.
    apply (wait_loop_down fuel eid end_time since (default (wk_loop_clock cur) since)
             saw q (wk_loop_clock cur) (wk_wall_clock cur) (wk_states cur) nxt tail tr
             Hc Ht Hn Hd).
    destruct since as [t0|]; [right | left; split; reflexivity].
    split; [reflexivity|]. cbn [default].
    apply (Hout t0 [] cur [] eq_refl eq_refl). constructor; [exact Hd | constructor].
  - unfold still_waiting in Hw. rewrite Hd in Hw. cbn [orb] in Hw.
    rewrite Hw. cbn [andb].
    unfold at_wake at 1.
    destruct (wait_loop_polls fuel eid end_time since saw q (wk_loop_clock cur)
                (wk_wall_clock cur) (wk_states cur) nxt tail tr Hc Ht Hn Hw)
      as (tr' & E).
    exists tr'. exact E.
Qed.

Lemma short_outages_tail eid cur polls :
  short_outages eid (cur :: polls) -> short_outages eid polls.
Proof.
  intros H l1 a mid b l2 E. apply (H (cur :: l1) a mid b l2). rewrite E. reflexivity.
Qed.

Lemma outage_within_head eid since cur polls :
  outage_within eid since (cur :: polls) -> outage_within eid since [cur].
Proof.
  intros H t0 run b l2 Hs E Hdown.
  destruct run as [|r run]; [|destruct run; discriminate E].
  injection E as <- <-. apply (H t0 [] cur polls Hs eq_refl Hdown).
Qed.

Lemma outage_within_next eid since cur polls :
  short_outages eid (cur :: polls) ->
  outage_within eid since (cur :: polls) ->
  outage_within eid (timer_after eid since cur) polls.
Proof.
  intros Hshort Hout t0 run b l2 Hs E Hdown. unfold timer_after in Hs.
  destruct (is_down (wk_states cur eid)) eqn:Hd; [|discriminate].
  injection Hs as <-. destruct since as [t0|]; cbn [default].
  - apply (Hout t0 (cur :: run) b l2 eq_refl); [rewrite E; reflexivity|].
    constructor; [exact Hd | exact Hdown].
  - apply (Hshort [] cur run b l2); [rewrite E; reflexivity|].
    constructor; [exact Hd | exact Hdown].
Qed.

Lemma wait_loop_rides eid end_time q nxt tail :
  calm q -> wk_interrupt nxt = NoInterrupt ->
  forall polls cur fuel since saw tr,
    Forall (undisturbed end_time) (cur :: polls) ->
    Forall (fun wk => still_waiting (wk_states wk eid) = true) (cur :: polls) ->
    short_outages eid (cur :: polls) ->
    outage_within eid since (cur :: polls) ->
    exists tr',
      wait_loop (S (length polls) + fuel) eid end_time since saw
        (at_wake q cur (polls ++ nxt :: tail) tr)
      = wait_loop fuel eid end_time (timer_over eid since (cur :: polls))
          (saw || saw_live eid (cur :: polls)) (at_wake q nxt tail tr').
Proof.
  intros Hc Hn. induction polls as [|p polls IH];
    intros cur fuel since saw tr Hu Hw Hshort Hout.
  - apply Forall_cons in Hu as [Hu _]. apply Forall_cons in Hw as [Hw _].
    destruct (wait_loop_step eid end_time q cur nxt tail fuel since saw tr
                Hc Hu Hn Hw Hout) as (tr' & E).
    exists tr'. exact E.
  - apply Forall_cons in Hu as [Hu Hus]. apply Forall_cons in Hw as [Hw Hws].
    assert (Hp : wk_interrupt p = NoInterrupt).
    { apply Forall_cons in Hus as [[Hi _] _]. exact Hi. }
    destruct (wait_loop_step eid end_time q cur p (polls ++ nxt :: tail)
                (S (length polls) + fuel) since saw tr Hc Hu Hp Hw
                (outage_within_head _ _ _ _ Hout)) as (tr1 & E1).
    destruct (IH p fuel (timer_after eid since cur) (saw || saw_live eid [cur]) tr1
                Hus Hws (short_outages_tail _ _ _ Hshort)
                (outage_within_next _ _ _ _ Hshort Hout)) as (tr2 & E2).
    exists tr2. etransitivity; [exact E1|]. etransitivity; [exact E2|].
    unfold saw_live. cbn [existsb]. rewrite !orb_false_r, !orb_assoc. reflexivity.
Qed.

(** The waiter polls through [pre] and stands at [last]. *)
Lemma waiter_rides_through eid timeout s pre last rest :
  calm (obj s) ->
  future (world s) = pre ++ last :: rest ->
  Forall (undisturbed (loop_clock (world s) + timeout)) pre ->
  wk_interrupt last = NoInterrupt ->
  Forall (fun wk => still_waiting (wk_states wk eid) = true) pre ->
  short_outages eid pre ->
  exists tr',
    _wait_for_completion eid timeout s
    = wait_loop (S (length rest)) eid (loop_clock (world s) + timeout)
        (timer_over eid None pre) (saw_live eid pre) (at_wake (obj s) last rest tr').
Proof.
  intros Hcalm Hfut Hund Hlast Hpre Hshort.
  destruct s as [q [t wl sts fut] tr]. cbn [obj world future loop_clock] in *.
  subst fut. unfold _wait_for_completion.
  unfold bind at 1. cbn [loop_time world loop_clock fst snd].
  set (end_time := t + timeout) in *.
  destruct pre as [|p pre].
  - unfold bind at 1. cbn [app].
    rewrite (sleep_undisturbed _ _ _ _ _ _ _ _ Hcalm Hlast).
    unfold bind at 1. cbn [pending_wakes world future fst snd].
    eexists. reflexivity.
  - assert (Hi : wk_interrupt p = NoInterrupt).
    { apply Forall_cons in Hund as [[Hi _] _]. exact Hi. }
    unfold bind at 1. cbn [app].
    rewrite (sleep_undisturbed _ _ _ _ _ _ _ _ Hcalm Hi).
    unfold bind at 1. cbn [pending_wakes world future fst snd].
    rewrite length_app. cbn [length].
    replace (S (length pre + S (length rest)))
      with (S (length pre) + S (length rest))%nat by lia.
    destruct (wait_loop_rides eid end_time q last rest Hcalm Hlast pre p
                (S (length rest)) None false (tr ++ [EvSleep 5]) Hund Hpre Hshort)
      as (tr1 & E1).
    { intros t0 run b l2 [=]. }
    exists tr1. exact E1.
Qed.

Lemma run_within_spec eid a mid b l2 :
  run_within eid a (mid ++ b :: l2) = true ->
  Forall (down_at eid) (mid ++ [b]) ->
  wk_loop_clock b - wk_loop_clock a <= MAX_UNAVAILABLE_DURATION.
Proof.
  induction mid as [|m mid IH]; cbn [app run_within]; intros H Hd.
  - apply Forall_cons in Hd as [Hb _]. unfold down_at in Hb. rewrite Hb in H.
    apply andb_true_iff in H as [H _]. apply Z.leb_le. exact H.
  - apply Forall_cons in Hd as [Hm Hd]. unfold down_at in Hm. rewrite Hm in H.
    apply andb_true_iff in H as [_ H]. apply IH; assumption.
Qed.

Lemma outages_ok_sound eid polls :
  outages_ok eid polls = true -> short_outages eid polls.
Proof.
  induction polls as [|p polls IH]; intros H l1 a mid b l2 E Hd.
  - destruct l1; discriminate E.
  - cbn [outages_ok] in H. apply andb_true_iff in H as [Hp H].
    destruct l1 as [|x l1]; cbn [app] in E; injection E as -> ->.
    + apply Forall_cons in Hd as [Ha Hd]. unfold down_at in Ha. rewrite Ha in Hp.
      eapply run_within_spec; eassumption.
    + apply (IH H l1 a mid b l2 eq_refl Hd).
Defined.

Lemma timer_over_begins eid pre :
  outage_begins eid pre -> timer_over eid None pre = None.
Proof.
  intros H. destruct pre as [|p pre] using rev_ind; [reflexivity|].
  unfold timer_over. rewrite fold_left_app. cbn [fold_left].
  unfold timer_after. rewrite (H pre p eq_refl). reflexivity.
Qed.

(** C3 (as amended). When the target stays missing or unavailable from
    one poll until a poll more than MAX_UNAVAILABLE_DURATION later, with
    no cancellation and before the overall deadline, the waiter returns
    failure at that poll, whatever it rode through before: available
    readings and earlier outages that stayed within the window.  The
    reason follows the deciding reading first: a missing target gives
    "Device disappeared and did not come back" whatever was seen before;
    an unavailable one gives "Device went offline during update and did
    not recover" if an earlier poll showed progress and "Device became
    unavailable" if none did. *)
Theorem waiter_gives_up_after_grace eid timeout s pre first mids last rest :
  grace_exceeded eid timeout s pre first mids last rest ->
  exists s',
    _wait_for_completion eid timeout s
    = (Ret (false, Some (lost_reason (saw_live eid pre) (wk_states last eid))), s')
    /\ obj s' = obj s.
Proof.
  intros [Hscript Hcalm Hund Hpre Hshort Hbegins Hdown Hwithin Hexc].
  apply Forall_app in Hund as [Hund1 Hund2].
  apply Forall_cons in Hund2 as [[Hi Hft] Hund2].
  apply Forall_cons in Hdown as [Hfd Hdown].
  destruct (waiter_rides_through eid timeout s pre first (mids ++ last :: rest)
              Hcalm Hscript Hund1 Hi Hpre Hshort) as (tr' & ->).
  rewrite (timer_over_begins eid pre Hbegins).
  rewrite length_app. cbn [length].
  replace (S (length mids + S (length rest)))
    with (S (S (length mids)) + length rest)%nat by lia.
  unfold at_wake.
  destruct (wait_loop_down_run eid (loop_clock (world s) + timeout) (obj s) last rest
              (wk_loop_clock first) mids Hcalm Hund2 Hdown Hwithin Hexc
              (length rest) None (saw_live eid pre)
              (wk_loop_clock first) (wk_wall_clock first) (wk_states first) tr'
              Hft Hfd (or_introl (conj eq_refl eq_refl))) as (s' & E & Hq).
  exists s'. split; [exact E | exact Hq].
Qed.

Lemma lost_after_progress_exceeds_grace :
  grace_exceeded "update.kitchen" DEFAULT_UPDATE_TIMEOUT lost_after_progress
    [plain_wake 5 (Some (mkState "on" true))]
    (plain_wake 10 None) missing_polls (plain_wake 140 None) [].
Proof.
  split.
  - reflexivity.
  - split; [reflexivity|]. intros t [= <-]. reflexivity.
  - repeat (constructor; [split; [reflexivity | vm_compute; reflexivity]|]).
    constructor.
  - repeat constructor.
  - apply outages_ok_sound. vm_compute. reflexivity.
  - intros [|a [|b l]] p [=]; subst; reflexivity.
  - repeat constructor.
  - repeat (constructor; [vm_compute; discriminate|]). constructor.
  - vm_compute. reflexivity.
Defined.

Lemma lost_in_second_outage_exceeds_grace :
  grace_exceeded "update.kitchen" DEFAULT_UPDATE_TIMEOUT lost_in_second_outage
    [plain_wake 5 (Some (mkState "unavailable" false));
     plain_wake 15 (Some (mkState "on" true))]
    (plain_wake 25 (Some (mkState "unavailable" false))) offline_polls
    (plain_wake 155 (Some (mkState "unavailable" false))) [].
Proof.
  split.
  - reflexivity.
  - split; [reflexivity|]. intros t [= <-]. reflexivity.
  - repeat (constructor; [split; [reflexivity | vm_compute; reflexivity]|]).
    constructor.
  - repeat constructor.
  - apply outages_ok_sound. vm_compute. reflexivity.
  - intros [|a [|b [|c l]]] p [=]; subst; reflexivity.
  - repeat constructor.
  - repeat (constructor; [vm_compute; discriminate|]). constructor.
  - vm_compute. reflexivity.
Defined.

Lemma waiter_gives_up_after_grace_witness :
  (exists s',
      _wait_for_completion "update.kitchen" DEFAULT_UPDATE_TIMEOUT lost_after_progress
      = (Ret (false, Some "Device disappeared and did not come back"), s')
      /\ obj s' = obj lost_after_progress)
  /\ (exists s',
        _wait_for_completion "update.kitchen" DEFAULT_UPDATE_TIMEOUT lost_in_second_outage
        = (Ret (false, Some "Device went offline during update and did not recover"), s')
        /\ obj s' = obj lost_in_second_outage).
Proof.
  split.
  - apply (waiter_gives_up_after_grace "update.kitchen" DEFAULT_UPDATE_TIMEOUT
             lost_after_progress _ _ _ _ _ lost_after_progress_exceeds_grace).
  - apply (waiter_gives_up_after_grace "update.kitchen" DEFAULT_UPDATE_TIMEOUT
             lost_in_second_outage _ _ _ _ _ lost_in_second_outage_exceeds_grace).
Defined.

(** C3 (as stated) fails: progress was seen, the target then went missing
    for more than the grace window, and the waiter answers "Device
    disappeared and did not come back", not "Device went offline during
    update and did not recover". *)
Lemma waiter_reason_by_history_counterexample :
  grace_exceeded "update.kitchen" DEFAULT_UPDATE_TIMEOUT lost_after_progress
    [plain_wake 5 (Some (mkState "on" true))]
    (plain_wake 10 None) missing_polls (plain_wake 140 None) []
  /\ saw_live "update.kitchen" [plain_wake 5 (Some (mkState "on" true))] = true
  /\ fst (_wait_for_completion "update.kitchen" DEFAULT_UPDATE_TIMEOUT
            lost_after_progress)
     = Ret (false, Some "Device disappeared and did not come back")
  /\ fst (_wait_for_completion "update.kitchen" DEFAULT_UPDATE_TIMEOUT
            lost_after_progress)
     <> Ret (false,
             Some (lost_reason_by_history
                     (saw_live "update.kitchen"
                        [plain_wake 5 (Some (mkState "on" true))])
                     (wk_states (plain_wake 140 None) "update.kitchen"))).
Proof.
  split; [exact lost_after_progress_exceeds_grace|].
  split; [reflexivity|].
  split; [vm_compute; reflexivity|].
  vm_compute. discriminate.
Qed.

(** ** Progress events *)

Lemma reported_transfer tr tr' q q' j :
  reported tr q j ->
  (exists evs, tr' = tr ++ evs) ->
  length q' = length q -> q' !! j = q !! j ->
  reported tr' q' j.
Proof.
  intros (rows & counts & Hin & Hlen & Hrow & Hlater & Hsum) (evs & ->) Hl Hj.
  exists rows, counts. repeat split; auto.
  - apply elem_of_app. left. exact Hin.
  - congruence.
  - congruence.
  - intros k Hk Hkn. apply Hlater; [exact Hk | congruence].
Qed.

Lemma ended_not_cancelled it :
  status it = STATUS_CANCELLED -> ~ ended (status it).
Proof. intros -> [H|[H|H]]; discriminate. Qed.

Lemma ended_not_running it :
  status it = STATUS_RUNNING -> ~ ended (status it).
Proof. intros -> [H|[H|H]]; discriminate. Qed.

Lemma ended_not_queued it :
  status it = STATUS_QUEUED -> ~ ended (status it).
Proof. intros -> [H|[H|H]]; discriminate. Qed.

(** After a step that changed at most item [k], and left it not ended,
    every report is still there. *)
Lemma all_reported_step k s s' :
  all_reported s ->
  same_except k (_queue (obj s)) (_queue (obj s')) ->
  (exists evs, trace s' = trace s ++ evs) ->
  (forall it, _queue (obj s') !! k = Some it ->
              ended (status it) -> reported (trace s') (_queue (obj s')) k) ->
  all_reported s'.
Proof.
  intros Hrep [Hlen Hne] Htr Hk j it Hj He.
  destruct (decide (j = k)) as [->|Hjk]; [eapply Hk; eassumption|].
  eapply reported_transfer; [| exact Htr | exact Hlen | apply Hne, Hjk].
  eapply Hrep; [|exact He]. rewrite <- Hne by exact Hjk. exact Hj.
Qed.

Lemma fire_reports k (s1 : Sys) tr' :
  (exists evs, tr' = (trace s1 ++ [EvFire EVENT_PROGRESS (results (obj s1))
                                     (summary (obj s1))]) ++ evs) ->
  (forall j it, (k < j)%nat -> _queue (obj s1) !! j = Some it ->
                status it = STATUS_QUEUED) ->
  reported tr' (_queue (obj s1)) k.
Proof.
  intros (evs & ->) Hq.
  exists (results (obj s1)), (summary (obj s1)). repeat split.
  - apply elem_of_app. left. apply elem_of_app. right. apply list_elem_of_singleton.
    reflexivity.
  - apply results_length.
  - unfold results. apply list_lookup_fmap.
  - intros j Hj Hjn. unfold results. rewrite list_lookup_fmap.
    destruct (_queue (obj s1) !! j) as [it|] eqn:E.
    + simpl. rewrite (Hq j it Hj E). reflexivity.
    + apply lookup_ge_None in E. lia.
  - rewrite summary_total, results_length. reflexivity.
Qed.

Lemma keeps_pause_part n i :
  keeps eq kind_batch
    (c <- cancelled_flag ;;
     if (i <? n - 1)%nat && negb c then wait_for_cancel_or_timeout else ret tt).
Proof.
  pose proof (keeps_batch_sleep eq). unfold wait_for_cancel_or_timeout.
  repeat keeps_step; auto.
Qed.

Lemma trace_grows_any (P : Event -> Prop) (tr tr' : list Event) :
  (exists evs, tr' = tr ++ evs /\ Forall P evs) -> exists evs, tr' = tr ++ evs.
Proof. intros (evs & H & _). eauto. Qed.

Lemma loop_body_inv n k s :
  (k < n)%nat -> batch_inv n k s ->
  wp (loop_body n k)
     (fun r s' =>
        match r with
        | Ret _ => batch_inv n (S k) s'
        | _ => all_reported s'
        end) s.
Proof.
  intros Hk (Hlen & Hq & Hrep).
  destruct (_cancelled (obj s)) eqn:Hc.
  - unfold wp. rewrite (loop_body_cancelled n k s Hc).
    unfold batch_inv. cbn [fst snd obj trace set_queue _queue].
    assert (Hse : same_except k (_queue (obj s))
                    (alter (with_status STATUS_CANCELLED) k (_queue (obj s))))
      by apply same_except_alter.
    split; [|split].
    + rewrite length_alter. exact Hlen.
    + intros j it Hj. rewrite list_lookup_alter_ne by lia. apply Hq. lia.
    + eapply (all_reported_step k s);
        [exact Hrep | exact Hse | exists []; symmetry; apply app_nil_r |].
      cbn [obj set_queue _queue]. intros it. rewrite list_lookup_alter_eq.
      destruct (_queue (obj s) !! k); simpl; [|discriminate].
      intros [= <-] He. exfalso. revert He. apply ended_not_cancelled. reflexivity.
  - unfold loop_body. apply wp_bind, wp_run. cbn [modify_obj fst snd].
    apply wp_bind, wp_run. cbn [cancelled_flag fst snd obj set_current_index _cancelled].
    rewrite Hc. apply wp_bind.
    set (s0 := mkSys (set_current_index k (obj s)) (world s) (trace s)).
    destruct (lookup_lt_is_Some_2 (_queue (obj s)) k ltac:(lia)) as [it Hit].
    pose proof (keeps_update_single k s0) as [Hse _ _ _ _ Htr].
    pose proof (update_single_item k s0 it Hit) as Hpost.
    unfold wp in Hpost. unfold wp at 1.
    destruct (_update_single k s0) as [r1 s1]. cbn [fst snd] in *.
    destruct Hpost as (it' & Hit' & _ & _ & Hout).
    assert (Hstep : forall s', _queue (obj s') = _queue (obj s1) ->
                    (exists evs, trace s' = trace s1 ++ evs) ->
                    (ended (status it') -> reported (trace s') (_queue (obj s1)) k) ->
                    all_reported s').
    { intros s' Hq' (evs' & Ht') Hrk.
      eapply (all_reported_step k s); [exact Hrep | rewrite Hq'; exact Hse | |].
      - destruct Htr as (evs & Ht & _). exists (evs ++ evs').
        rewrite Ht', Ht, app_assoc. reflexivity.
      - rewrite Hq'. intros x Hx. rewrite Hit' in Hx. injection Hx as <-. exact Hrk. }
    destruct r1 as [[]|[|msg]|]; cbn [job_outcome] in Hout.
    + (* the job routine returned: the event is fired, then the pause *)
      apply wp_bind, wp_run. unfold bus_async_fire, bind, get_obj, emit.
      cbn [fst snd obj world trace].
      eapply wp_preserves; [apply keeps_pause_part|].
      intros r3 s3 [Hq3 _ _ _ _ Htr3]. cbn [obj trace] in Hq3, Htr3.
      apply trace_grows_any in Htr3.
      assert (Hlater : forall j x, (k < j)%nat -> _queue (obj s1) !! j = Some x ->
                                   status x = STATUS_QUEUED).
      { intros j x Hj Hx. rewrite (proj2 Hse) in Hx by lia. eapply Hq; [|exact Hx].
        lia. }
      assert (Hall : all_reported s3).
      { apply Hstep; [symmetry; exact Hq3 | |].
        - destruct Htr3 as (evs & ->). eexists. rewrite <- app_assoc. reflexivity.
        - intros _. apply fire_reports; [exact Htr3 | exact Hlater]. }
      assert (Hinv : batch_inv n (S k) s3).
      { split; [|split; [|exact Hall]].
        - rewrite <- Hq3. rewrite (proj1 Hse). exact Hlen.
        - intros j x Hj Hx. rewrite <- Hq3 in Hx. eapply Hlater; [|exact Hx]. lia. }
      destruct r3 as [[]|e|]; assumption.
    + (* cancelled at a suspension point *)
      apply Hstep; [reflexivity | exists []; symmetry; apply app_nil_r |].
      intros He. exfalso. revert He. apply ended_not_cancelled, Hout.
    + contradiction.
    + (* still suspended inside the job *)
      apply Hstep; [reflexivity | exists []; symmetry; apply app_nil_r |].
      intros He. exfalso. revert He. apply ended_not_running, Hout.
Qed.

Lemma batch_all_reported n m :
  forall k s, (k + m = n)%nat -> batch_inv n k s ->
  wp (for_each (seq k m) (loop_body n)) (fun _ s' => all_reported s') s.
Proof.
  induction m as [|m IH]; intros k s Hkm Hinv.
  - apply wp_run. simpl. apply Hinv.
  - cbn [seq for_each]. apply wp_bind.
    eapply wp_mono; [apply (loop_body_inv n k s); [lia | exact Hinv]|].
    intros [[]|e|] s' H; [|exact H|exact H].
    apply IH; [lia | exact H].
Qed.

Lemma all_queued_reported s :
  (forall j it, _queue (obj s) !! j = Some it -> status it = STATUS_QUEUED) ->
  all_reported s.
Proof.
  intros Hq j it Hj He. exfalso. revert He. apply ended_not_queued.
  eapply Hq. eassumption.
Qed.

Lemma all_reported_drift P s s' :
  drift eq P s s' -> all_reported s -> all_reported s'.
Proof.
  intros [Hq _ _ Htr] Hrep j it Hj He. rewrite <- Hq in *.
  eapply reported_transfer; [eapply Hrep; eassumption | | reflexivity | reflexivity].
  eapply trace_grows_any, Htr.
Qed.

Lemma carries_all_reported_drifts {A} P (m : M A) :
  drifts eq P m -> preserves (carries all_reported) m.
Proof. intros Hm s H. eapply all_reported_drift; [apply Hm | exact H]. Qed.

Lemma carries_all_reported_on_cancelled :
  preserves (carries all_reported) on_cancelled.
Proof.
  intros s Hrep j it'. cbn [on_cancelled bind datetime_now modify_obj snd fst obj
                            trace set_queue _queue].
  rewrite list_lookup_fmap.
  destruct (_queue (obj s) !! j) as [it|] eqn:Hj; simpl; [|discriminate].
  intros [= <-] He.
  assert (Hsame : cancel_item (wall_clock (world s)) it = it).
  { unfold cancel_item in *.
    destruct (String.eqb (status it) STATUS_QUEUED);
      [exfalso; revert He; apply ended_not_cancelled; reflexivity|].
    destruct (String.eqb (status it) STATUS_RUNNING);
      [exfalso; revert He; apply ended_not_cancelled; reflexivity|].
    reflexivity. }
  rewrite Hsame in He.
  eapply reported_transfer; [eapply Hrep; eassumption | exists []; symmetry; apply app_nil_r | |].
  - apply length_fmap.
  - rewrite list_lookup_fmap, Hj. simpl. rewrite Hsame. reflexivity.
Qed.

(** The [try] block of [_run], from a queue of Queued jobs. *)
Lemma run_body_all_reported s :
  (forall j it, _queue (obj s) !! j = Some it -> status it = STATUS_QUEUED) ->
  wp (_stop_addon ;;
      q <- get_obj ;;
      let n := length (_queue q) in
      for_each (seq 0 n) (loop_body n))
     (fun _ s' => all_reported s') s.
Proof.
  intros Hq. apply wp_bind.
  eapply wp_preserves; [apply (drifts_stop_addon eq)|].
  intros r1 s1 Hd1.
  assert (Hq1 : forall j it, _queue (obj s1) !! j = Some it -> status it = STATUS_QUEUED).
  { intros j it. rewrite <- (dr_queue _ _ _ _ Hd1). apply Hq. }
  destruct r1 as [[]|e|]; [|apply all_queued_reported, Hq1 ..].
  apply wp_bind, wp_run. cbn [get_obj fst snd].
  apply batch_all_reported; [lia|].
  split; [reflexivity|]. split; [|apply all_queued_reported, Hq1].
  intros j it _. apply Hq1.
Qed.

Lemma run_all_reported s :
  (forall j it, _queue (obj s) !! j = Some it -> status it = STATUS_QUEUED) ->
  all_reported (snd (_run s)).
Proof.
  intros Hq.
  set (body := (_stop_addon ;;
                q <- get_obj ;;
                let n := length (_queue q) in
                for_each (seq 0 n) (loop_body n))).
  assert (Hbody : preserves (carries all_reported) (fun _ : Sys => body s)).
  { intros s0 _. apply (run_body_all_reported s Hq). }
  pose proof carries_all_reported_on_cancelled.
  pose proof (carries_all_reported_drifts _ _ (drifts_run_cleanup eq)).
  assert (Hrun : preserves (carries all_reported)
                   (try_finally
                      (try_except (fun _ : Sys => body s)
                         (fun err =>
                            match err with
                            | CancelledError => Some on_cancelled
                            | Exception _ => None
                            end))
                      run_cleanup)).
  { repeat keeps_step; auto. }
  apply (Hrun s). apply all_queued_reported, Hq.
Qed.

Lemma keeps_pause_poll Rq `{!PreOrder Rq} n i :
  keeps Rq kind_poll
    (c <- cancelled_flag ;;
     if (i <? n - 1)%nat && negb c then wait_for_cancel_or_timeout else ret tt).
Proof.
  pose proof (keeps_asyncio_sleep Rq). unfold wait_for_cancel_or_timeout.
  repeat keeps_step; auto.
Qed.

Lemma loop_body_ran n i s s1 :
  _cancelled (obj s) = false ->
  _update_single i (mkSys (set_current_index i (obj s)) (world s) (trace s))
  = (Ret tt, s1) ->
  exists r s2 evs,
    loop_body n i s = (r, s2)
    /\ trace s2 = trace s1 ++ EvFire EVENT_PROGRESS (results (obj s1))
                                     (summary (obj s1)) :: evs
    /\ Forall kind_poll evs
    /\ _queue (obj s2) = _queue (obj s1).
Proof.
  intros Hc Hrun. unfold loop_body.
  unfold bind at 1. cbn [modify_obj].
  unfold bind at 1. cbn [cancelled_flag obj set_current_index _cancelled].
  rewrite Hc. unfold bind at 1. rewrite Hrun.
  unfold bind at 1. unfold bus_async_fire, bind at 1, get_obj, emit.
  pose proof (keeps_pause_poll eq n i
                (mkSys (obj s1) (world s1)
                   (trace s1 ++ [EvFire EVENT_PROGRESS (results (obj s1))
                                   (summary (obj s1))])))
    as [Hq _ _ _ _ (evs & Htr & Hev)].
  cbn [obj trace] in Hq, Htr.
  match goal with
  | |- exists r s2 evs, ?m ?st = _ /\ _ =>
      destruct (m st) as [r s2] eqn:E
  end.
  cbn [snd] in Hq, Htr.
  exists r, s2, evs. split; [reflexivity|]. split; [|split; [exact Hev | symmetry; exact Hq]].
  rewrite Htr, <- app_assoc. reflexivity.
Qed.

Lemma reported_in_progress_rows tr q j :
  reported tr q j ->
  exists rows, rows ∈ progress_rows tr /\ rows !! j = result_row <$> q !! j.
Proof.
  intros (rows & counts & Hin & _ & Hrow & _). exists rows. split; [|exact Hrow].
  unfold progress_rows. apply list_elem_of_In, in_flat_map.
  exists (EvFire EVENT_PROGRESS rows counts). split.
  - apply list_elem_of_In. exact Hin.
  - simpl. left. reflexivity.
Qed.

(** C2 (as amended). Every job that ends Success, Failed or Skipped has
    its own progress event: one that carries the complete results and
    summary snapshot, shows the job in its final state and shows every
    later job still Queued.  This holds in every state a run begun by
    [start] reaches.  More generally, whenever the job routine returns
    (also with the job Cancelled because the waiter saw the flag), the
    next host call of the loop is that progress event, followed at most
    by the pause between jobs.  A job that the loop marks Cancelled
    without running is not followed by any host call. *)
Theorem progress_event_follows_each_job_that_ran
    (entity_ids : list string) (slug : option string) (q : UpdateQueue)
    (w : World) (tr : list Event) (Hidle : _running q = false) :
  all_reported (snd (_run (mkSys (snd (start entity_ids slug q)) w tr)))
  /\ (forall n i s s1,
        _cancelled (obj s) = false ->
        _update_single i (mkSys (set_current_index i (obj s)) (world s) (trace s))
        = (Ret tt, s1) ->
        exists r s2 evs,
          loop_body n i s = (r, s2)
          /\ trace s2 = trace s1 ++ EvFire EVENT_PROGRESS (results (obj s1))
                                           (summary (obj s1)) :: evs
          /\ Forall kind_poll evs
          /\ _queue (obj s2) = _queue (obj s1))
  /\ (forall n i s,
        _cancelled (obj s) = true -> trace (snd (loop_body n i s)) = trace s).
Proof.
  split; [|split].
  - apply run_all_reported. intros j it. unfold start. rewrite Hidle.
    cbn [snd obj _queue]. rewrite list_lookup_fmap.
    destruct (entity_ids !! j); simpl; [|discriminate]. intros [= <-]. reflexivity.
  - apply loop_body_ran.
  - intros n i s Hc. rewrite (loop_body_cancelled n i s Hc). reflexivity.
Qed.

Lemma progress_event_follows_each_job_that_ran_witness :
  _running UpdateQueue_init = false
  /\ all_reported
       (snd (_run (mkSys (snd (start ["update.kitchen"; "update.porch"] None
                                     UpdateQueue_init))
                         (demo_world (Some (mkState "on" false))
                            [plain_wake 2 (Some (mkState "off" false));
                             plain_wake 3 (Some (mkState "off" false))])
                         []))).
Proof.
  split; [reflexivity|].
  exact (proj1 (progress_event_follows_each_job_that_ran
                  ["update.kitchen"; "update.porch"] None UpdateQueue_init
                  (demo_world (Some (mkState "on" false))
                     [plain_wake 2 (Some (mkState "off" false));
                      plain_wake 3 (Some (mkState "off" false))])
                  [] eq_refl)).
Defined.

(** C2 (as stated) fails for the jobs that end Cancelled.  When [cancel()]
    arrives while the first job waits, the cancellation is raised at the
    sleep: the first job is demoted, the handler marks the second one
    Cancelled without running it, and the run ends without a single
    progress event. *)
Lemma progress_after_cancelled_job_counterexample :
  fst (run_task cancelled_during_wait) = Ret tt
  /\ _queue (obj (snd (run_task cancelled_during_wait)))
     = [mkItem "update.kitchen" STATUS_CANCELLED (Some 1000) (Some 1007)
               (Some "Cancelled by user");
        mkItem "update.porch" STATUS_CANCELLED None None None]
  /\ progress_rows (trace (snd (run_task cancelled_during_wait))) = []
  /\ ~ reported (trace (snd (run_task cancelled_during_wait)))
                (_queue (obj (snd (run_task cancelled_during_wait)))) 0
  /\ ~ reported (trace (snd (run_task cancelled_during_wait)))
                (_queue (obj (snd (run_task cancelled_during_wait)))) 1.
Proof.
  assert (Hp1 : progress_rows (trace (snd (run_task cancelled_during_wait))) = [])
    by (vm_compute; reflexivity).
  split; [vm_compute; reflexivity|].
  split; [vm_compute; reflexivity|].
  split; [exact Hp1|].
  split; intros H; apply reported_in_progress_rows in H as (rows & Hin & _);
    rewrite Hp1 in Hin; apply elem_of_nil in Hin; exact Hin.
Qed.

(** The loop's own check.  Should the install call answer the
    cancellation with an error of its own, the first job fails and gets
    its progress event; the second job is then marked Cancelled at the
    head of the loop, which goes on without publishing. *)
Lemma cancelled_at_loop_head_example :
  fst (run_task cancelled_during_install) = Ret tt
  /\ _queue (obj (snd (run_task cancelled_during_install)))
     = [mkItem "update.kitchen" STATUS_FAILED (Some 1000) (Some 1002)
               (Some "Install failed — Connection lost");
        mkItem "update.porch" STATUS_CANCELLED None None None]
  /\ progress_rows (trace (snd (run_task cancelled_during_install)))
     = [[mkRow "update.kitchen" STATUS_FAILED (Some (isoformat 1000))
               (Some (isoformat 1002))
               (Some "Install failed — Connection lost");
         mkRow "update.porch" STATUS_QUEUED None None None]]
  /\ ~ reported (trace (snd (run_task cancelled_during_install)))
                (_queue (obj (snd (run_task cancelled_during_install)))) 1.
Proof.
  assert (Hq2 : _queue (obj (snd (run_task cancelled_during_install)))
                = [mkItem "update.kitchen" STATUS_FAILED (Some 1000) (Some 1002)
                          (Some "Install failed — Connection lost");
                   mkItem "update.porch" STATUS_CANCELLED None None None])
    by (vm_compute; reflexivity).
  assert (Hp2 : progress_rows (trace (snd (run_task cancelled_during_install)))
                = [[mkRow "update.kitchen" STATUS_FAILED (Some (isoformat 1000))
                          (Some (isoformat 1002))
                          (Some "Install failed — Connection lost");
                    mkRow "update.porch" STATUS_QUEUED None None None]])
    by (vm_compute; reflexivity).
  split; [vm_compute; reflexivity|].
  split; [exact Hq2|].
  split; [exact Hp2|].
  intros H. apply reported_in_progress_rows in H as (rows & Hin & Hrow).
  rewrite Hp2 in Hin. apply list_elem_of_singleton in Hin. subst rows.
  rewrite Hq2 in Hrow. discriminate Hrow.
Qed.

(** ** Quiet runs *)





Lemma returns_try_except {A} n (body : M A) handler good :
  returns_within n body good -> returns_within n (try_except body handler) good.
Proof.
  intros Hb s k Hq. destruct (Hb s k Hq) as (a & s' & E & Ha & Hq').
  exists a, s'. unfold try_except. rewrite E. auto.
Qed.









(** ** The helpers as functions of the reply *)

Lemma json_get_pure j key default s :
  json_get j key default s
  = (match j with
     | JObject fields => Ret (dict_get fields key default)
     | _ => Raise (AttributeError j)
     end, s).
Proof. destruct j; reflexivity. Qed.

Lemma get_addon_info_reads slug s :
  async_get_addon_info slug s
  = match _supervisor_api "GET" ("/addons/" +:+ slug +:+ "/info") s with
    | (Ret result, s1) => (read_info result, s1)
    | (Raise e, s1) => (Raise e, s1)
    | (Suspended, s1) => (Suspended, s1)
    end.
Proof.
  unfold async_get_addon_info. unfold bind at 1.
  destruct (_supervisor_api "GET" ("/addons/" +:+ slug +:+ "/info") s)
    as [[result|e|] s1]; [|reflexivity ..].
  unfold read_info, result_is_ok.
  destruct (json_truthy result) eqn:Ht; [|reflexivity].
  unfold bind. rewrite json_get_pure.
  destruct result; try reflexivity.
  cbn [ret]. destruct (json_eq_text (dict_get fields "result" JNull) "ok");
    reflexivity.
Qed.

Lemma result_is_ok_reads result s :
  result_is_ok (is_not_none result) result s = (read_ok result, s).
Proof.
  unfold result_is_ok, read_ok, bind. destruct result; reflexivity.
Qed.

Lemma stop_addon_reads slug s :
  async_stop_addon slug s
  = match _supervisor_api "POST" ("/addons/" +:+ slug +:+ "/stop") s with
    | (Ret result, s1) => (read_ok result, s1)
    | (Raise e, s1) => (Raise e, s1)
    | (Suspended, s1) => (Suspended, s1)
    end.
Proof.
  unfold async_stop_addon, bind.
  destruct (_supervisor_api "POST" ("/addons/" +:+ slug +:+ "/stop") s)
    as [[result|e|] s1]; [apply result_is_ok_reads | reflexivity ..].
Qed.

Lemma start_addon_reads slug s :
  async_start_addon slug s
  = match _supervisor_api "POST" ("/addons/" +:+ slug +:+ "/start") s with
    | (Ret result, s1) => (read_ok result, s1)
    | (Raise e, s1) => (Raise e, s1)
    | (Suspended, s1) => (Suspended, s1)
    end.
Proof.
  unfold async_start_addon, bind.
  destruct (_supervisor_api "POST" ("/addons/" +:+ slug +:+ "/start") s)
    as [[result|e|] s1]; [apply result_is_ok_reads | reflexivity ..].
Qed.



(** ** Runs that come to their end *)











(** ** The empty batch *)

Lemma stop_addon_no_slug s :
  truthy_slug (_stop_addon_slug (obj s)) = None -> _stop_addon s = (Ret tt, s).
Proof.
  intros H. unfold _stop_addon, bind, get_obj. rewrite H. reflexivity.
Qed.









(** ** The add-on hooks *)

Lemma count_events_app p tr tr' :
  count_events p (tr ++ tr') = (count_events p tr + count_events p tr')%nat.
Proof. induction tr as [|ev tr IH]; simpl; [reflexivity | rewrite IH; lia]. Qed.

Lemma count_events_none (P : Event -> Prop) p evs :
  (forall ev, P ev -> p ev = false) -> Forall P evs -> count_events p evs = 0%nat.
Proof.
  intros HP. induction 1 as [|ev evs Hev _ IH]; simpl; [reflexivity|].
  rewrite (HP ev Hev), IH. reflexivity.
Qed.

Lemma batch_event_no_supervisor_call method path ev :
  kind_batch ev -> is_supervisor_call method path ev = false.
Proof. destruct ev; simpl; intros H; try reflexivity; contradiction. Qed.

Lemma eqb_append_prefix (a b c : string) :
  String.eqb (a +:+ b) (a +:+ c) = String.eqb b c.
Proof.
  induction a as [|ch a IH]; simpl; [reflexivity|].
  rewrite Ascii.eqb_refl. exact IH.
Qed.

Lemma stop_path_not_info slug :
  String.eqb ("/addons/" +:+ slug +:+ "/info") ("/addons/" +:+ slug +:+ "/stop") = false.
Proof. rewrite !eqb_append_prefix. reflexivity. Qed.

Lemma start_path_not_stop slug :
  String.eqb ("/addons/" +:+ slug +:+ "/stop") ("/addons/" +:+ slug +:+ "/start") = false.
Proof. rewrite !eqb_append_prefix. reflexivity. Qed.

Lemma stop_path_not_start slug :
  String.eqb ("/addons/" +:+ slug +:+ "/start") ("/addons/" +:+ slug +:+ "/stop") = false.
Proof. rewrite !eqb_append_prefix. reflexivity. Qed.

(** The helper never lets an ordinary exception out. *)
Lemma supervisor_api_no_error method path s msg :
  fst (_supervisor_api method path s) <> Raise (Exception msg).
Proof.
  unfold _supervisor_api.
  destruct (String.eqb method "GET" || String.eqb method "POST"); [|discriminate].
  unfold await_host, bind, emit, suspend. cbn [fst snd obj world trace].
  destruct (future (world s)) as [|wk rest]; [discriminate|].
  match goal with
  | |- context [take_cancel ?st] =>
      assert (Htc : exists c s3, take_cancel st = (Ret c, s3))
  end.
  { unfold take_cancel. cbn [obj world trace].
    destruct (_task (interrupt_obj (wk_interrupt wk) (obj s))) as [t|];
      [destruct (must_cancel t)|]; eauto. }
  destruct Htc as (c & s3 & ->). cbn [ret].
  destruct (wk_raise wk) as [[|msg']|]; cbn [raise ret fst];
    [| |destruct (wk_http_status wk =? 200); [destruct (wk_json wk)|]];
    discriminate.
Qed.

(** One exchange with the Supervisor: the request is logged before the
    coroutine is suspended; with a wake at hand the helper ends as the
    wake answers and the script moves on by that wake. *)
Lemma supervisor_api_exchange method path s :
  method = "GET" \/ method = "POST" ->
  trace (snd (_supervisor_api method path s)) = trace s ++ [EvSupervisor method path]
  /\ match future (world s) with
     | [] => fst (_supervisor_api method path s) = Suspended
     | wk :: rest =>
         fst (_supervisor_api method path s) = answer Ret wk
         /\ future (world (snd (_supervisor_api method path s))) = rest
     end.
Proof.
  intros Hm. unfold _supervisor_api.
  assert (E : String.eqb method "GET" || String.eqb method "POST" = true)
    by (destruct Hm as [-> | ->]; reflexivity).
  rewrite E. clear E Hm.
  unfold await_host, bind, emit, suspend. cbn [fst snd obj world trace].
  destruct (future (world s)) as [|wk rest]; [split; reflexivity|].
  match goal with
  | |- context [take_cancel ?st] =>
      assert (Htc : exists c s3, take_cancel st = (Ret c, s3)
                                 /\ trace s3 = trace st
                                 /\ future (world s3) = future (world st))
  end.
  { unfold take_cancel. cbn [obj world trace].
    destruct (_task (interrupt_obj (wk_interrupt wk) (obj s))) as [t|];
      [destruct (must_cancel t)|]; eauto. }
  destruct Htc as (c & s3 & -> & Htr & Hfut). cbn [ret trace world future] in *.
  unfold answer, wake_reply.
  destruct (wk_raise wk) as [[|msg]|]; cbn [raise ret fst snd];
    [| |destruct (wk_http_status wk =? 200); [destruct (wk_json wk)|]];
    cbn [fst snd default]; auto.
Qed.

Lemma exchange_reads {A} (read : Json -> outcome A) (m : M A) method path s :
  method = "GET" \/ method = "POST" ->
  (forall s0,
     m s0 = match _supervisor_api method path s0 with
            | (Ret result, s1) => (read result, s1)
            | (Raise e, s1) => (Raise e, s1)
            | (Suspended, s1) => (Suspended, s1)
            end) ->
  snd (m s) = snd (_supervisor_api method path s)
  /\ trace (snd (m s)) = trace s ++ [EvSupervisor method path]
  /\ match future (world s) with
     | [] => fst (m s) = Suspended
     | wk :: rest =>
         fst (m s) = answer read wk /\ future (world (snd (m s))) = rest
     end.
Proof.
  intros Hm Hreads. rewrite Hreads.
  destruct (supervisor_api_exchange method path s Hm) as [Ht Hf].
  destruct (_supervisor_api method path s) as [[result|e|] s1]; cbn [fst snd] in *;
    (split; [reflexivity|]); (split; [exact Ht|]);
    destruct (future (world s)) as [|wk rest]; try discriminate; try reflexivity;
    destruct Hf as [Hf1 Hf2]; (split; [|exact Hf2]);
    unfold answer in *; destruct (wk_raise wk) as [[|msg]|];
    try discriminate; try congruence.
Qed.

Lemma get_addon_info_exchange slug s :
  snd (async_get_addon_info slug s)
  = snd (_supervisor_api "GET" ("/addons/" +:+ slug +:+ "/info") s)
  /\ trace (snd (async_get_addon_info slug s))
     = trace s ++ [EvSupervisor "GET" ("/addons/" +:+ slug +:+ "/info")]
  /\ match future (world s) with
     | [] => fst (async_get_addon_info slug s) = Suspended
     | wk :: rest =>
         fst (async_get_addon_info slug s) = answer read_info wk
         /\ future (world (snd (async_get_addon_info slug s))) = rest
     end.
Proof.
  apply exchange_reads; [left; reflexivity|]. intros. apply get_addon_info_reads.
Qed.

Lemma stop_addon_exchange slug s :
  snd (async_stop_addon slug s)
  = snd (_supervisor_api "POST" ("/addons/" +:+ slug +:+ "/stop") s)
  /\ trace (snd (async_stop_addon slug s))
     = trace s ++ [EvSupervisor "POST" ("/addons/" +:+ slug +:+ "/stop")]
  /\ match future (world s) with
     | [] => fst (async_stop_addon slug s) = Suspended
     | wk :: rest =>
         fst (async_stop_addon slug s) = answer read_ok wk
         /\ future (world (snd (async_stop_addon slug s))) = rest
     end.
Proof.
  apply exchange_reads; [right; reflexivity|]. intros. apply stop_addon_reads.
Qed.

Lemma start_addon_exchange slug s :
  snd (async_start_addon slug s)
  = snd (_supervisor_api "POST" ("/addons/" +:+ slug +:+ "/start") s)
  /\ trace (snd (async_start_addon slug s))
     = trace s ++ [EvSupervisor "POST" ("/addons/" +:+ slug +:+ "/start")]
  /\ match future (world s) with
     | [] => fst (async_start_addon slug s) = Suspended
     | wk :: rest =>
         fst (async_start_addon slug s) = answer read_ok wk
         /\ future (world (snd (async_start_addon slug s))) = rest
     end.
Proof.
  apply exchange_reads; [right; reflexivity|]. intros. apply start_addon_reads.
Qed.

(** Proper replies are read without an error. *)
Lemma read_info_proper result :
  proper_reply result = true ->
  exists info,
    read_info result = Ret info
    /\ (json_truthy info = false \/ exists fields, info = JObject fields).
Proof.
  unfold proper_reply, read_info. destruct result; try discriminate.
  - intros _. exists JNull. auto.
  - intros H. destruct (json_truthy (JObject fields)); [|exists JNull; auto].
    destruct (json_eq_text (dict_get fields "result" JNull) "ok");
      [|exists JNull; auto].
    eexists. split; [reflexivity|].
    destruct (dict_get fields "data" (JObject [])); eauto;
      left; apply negb_true_iff, H.
Qed.

Lemma read_ok_proper result :
  proper_reply result = true -> exists ok, read_ok result = Ret ok.
Proof. unfold read_ok. destruct result; try discriminate; eauto. Qed.

Lemma answer_proper {A} (read : Json -> outcome A) wk msg :
  (forall result, proper_reply result = true -> exists a, read result = Ret a) ->
  proper_wake wk -> answer read wk <> Raise (Exception msg).
Proof.
  intros Hread Hwk. unfold answer.
  destruct (wk_raise wk) as [[|msg']|]; try discriminate;
    destruct (Hread _ Hwk) as (a & ->); discriminate.
Qed.

Lemma hook_memory_frame Rq slug was a b s s' :
  frame Rq kind_batch s s' -> hook_memory slug was a b s ->
  hook_memory slug was a b s'.
Proof.
  intros [_ _ Hs Hw _ (evs & Ht & Hev)] [H1 H2 H3 H4].
  split; try congruence.
  - unfold stop_calls in *. rewrite Ht, count_events_app, H3.
    rewrite (count_events_none kind_batch); [lia | | exact Hev].
    intros ev. apply batch_event_no_supervisor_call.
  - unfold start_calls in *. rewrite Ht, count_events_app, H4.
    rewrite (count_events_none kind_batch); [lia | | exact Hev].
    intros ev. apply batch_event_no_supervisor_call.
Qed.

Lemma keeps_batch_on_cancelled : keeps same_length kind_batch on_cancelled.
Proof.
  intros s. split; simpl; auto; [apply length_fmap | apply trace_grows_refl].
Qed.

(** ** The script only gets shorter *)

#[local] Instance later_preorder : PreOrder later.
Proof.
  split; unfold later.
  - intros s. reflexivity.
  - intros s1 s2 s3 H12 H23. etransitivity; eassumption.
Qed.

Lemma later_same_world {A} (m : M A) :
  (forall s, world (snd (m s)) = world s) -> preserves later m.
Proof. intros H s. unfold later. rewrite H. reflexivity. Qed.

Lemma later_suspend : preserves later suspend.
Proof.
  intros s. unfold later, suspend. destruct (future (world s)) as [|wk rest] eqn:E;
    cbn [snd world future]; [rewrite E; reflexivity|].
  apply suffix_cons_r. reflexivity.
Qed.

Lemma later_emit ev : preserves later (emit ev).
Proof. apply later_same_world. reflexivity. Qed.

Lemma later_modify_obj f : preserves later (modify_obj f).
Proof. apply later_same_world. reflexivity. Qed.

Lemma later_item_set i f : preserves later (item_set i f).
Proof. apply later_same_world. reflexivity. Qed.

Lemma later_take_cancel : preserves later take_cancel.
Proof.
  apply later_same_world. intros s. unfold take_cancel.
  destruct (_task (obj s)) as [t|]; [destruct (must_cancel t)|]; reflexivity.
Qed.

#[local] Hint Resolve later_suspend later_emit later_modify_obj later_item_set
  later_take_cancel : coro.

Lemma later_sleep d : preserves later (asyncio_sleep d).
Proof. unfold asyncio_sleep. repeat keeps_step. Qed.

Lemma later_states_get eid : preserves later (states_get eid).
Proof. unfold states_get. repeat keeps_step. Qed.

Lemma later_wait_loop fuel eid end_time since saw :
  preserves later (wait_loop fuel eid end_time since saw).
Proof.
  revert since saw. induction fuel as [|fuel IH]; intros since saw; simpl.
  - intros s. reflexivity.
  - pose proof later_states_get. pose proof later_sleep.
    repeat keeps_step; auto.
Qed.

Lemma later_update_single i : preserves later (_update_single i).
Proof.
  pose proof later_states_get. pose proof later_sleep. pose proof later_wait_loop.
  unfold _update_single, _wait_for_completion, _is_entity_available,
    async_call_install, await_host.
  repeat keeps_step; auto.
Qed.

Lemma later_loop_body n i : preserves later (loop_body n i).
Proof.
  pose proof (later_update_single i). pose proof later_sleep.
  unfold loop_body, wait_for_cancel_or_timeout, bus_async_fire.
  repeat keeps_step; auto.
Qed.

Lemma later_supervisor_api method path :
  preserves later (_supervisor_api method path).
Proof. unfold _supervisor_api, await_host. repeat keeps_step. Qed.

Lemma later_stop_addon : preserves later _stop_addon.
Proof.
  pose proof later_supervisor_api. pose proof later_sleep.
  unfold _stop_addon, async_get_addon_info, async_stop_addon.
  repeat keeps_step; auto.
Qed.

Lemma later_restart_addon : preserves later _restart_addon.
Proof.
  pose proof later_supervisor_api.
  unfold _restart_addon, async_get_addon_info, async_start_addon.
  repeat keeps_step; auto.
Qed.

Lemma later_on_cancelled : preserves later on_cancelled.
Proof. unfold on_cancelled. repeat keeps_step. Qed.

Lemma later_batch_after_prehook :
  preserves later
    (q <- get_obj ;;
     let n := length (_queue q) in
     for_each (seq 0 n) (loop_body n)).
Proof.
  keeps_step; [keeps_step|]. cbv zeta.
  apply preserves_for_each; [exact _|]. intros. apply later_loop_body.
Qed.

Lemma proper_world_later s s' : later s s' -> proper_world s -> proper_world s'.
Proof.
  unfold later, proper_world. intros [l ->] H. apply Forall_app in H. apply H.
Qed.

Lemma count_info_call slug p :
  (p = stop_calls \/ p = start_calls) ->
  forall tr, p slug (tr ++ [EvSupervisor "GET" ("/addons/" +:+ slug +:+ "/info")])
             = p slug tr.
Proof.
  intros [-> | ->] tr; unfold stop_calls, start_calls;
    rewrite count_events_app; simpl; lia.
Qed.

Lemma count_start_call slug tr :
  start_calls slug (tr ++ [EvSupervisor "POST" ("/addons/" +:+ slug +:+ "/start")])
  = S (start_calls slug tr)
  /\ stop_calls slug (tr ++ [EvSupervisor "POST" ("/addons/" +:+ slug +:+ "/start")])
     = stop_calls slug tr.
Proof.
  unfold stop_calls, start_calls. rewrite !count_events_app.
  cbn [count_events is_supervisor_call].
  rewrite !String.eqb_refl, stop_path_not_start. cbn [andb]. lia.
Qed.

Lemma count_stop_call slug tr :
  stop_calls slug (tr ++ [EvSupervisor "POST" ("/addons/" +:+ slug +:+ "/stop")])
  = S (stop_calls slug tr)
  /\ start_calls slug (tr ++ [EvSupervisor "POST" ("/addons/" +:+ slug +:+ "/stop")])
     = start_calls slug tr.
Proof.
  unfold stop_calls, start_calls. rewrite !count_events_app.
  cbn [count_events is_supervisor_call].
  rewrite !String.eqb_refl, start_path_not_stop. cbn [andb]. lia.
Qed.

Lemma count_fire slug p ty rows counts :
  (p = stop_calls \/ p = start_calls) ->
  forall tr, p slug (tr ++ [EvFire ty rows counts]) = p slug tr.
Proof.
  intros [-> | ->] tr; unfold stop_calls, start_calls;
    rewrite count_events_app; simpl; lia.
Qed.

(** The requests of the post-hook when the add-on is to be restarted:
    the info request, and the start request unless the hook is left
    before; it returns only after both, and with proper replies it never
    ends with an error. *)
Lemma restart_addon_calls slug s :
  truthy_slug (_stop_addon_slug (obj s)) = Some slug ->
  _addon_was_running (obj s) = true ->
  (trace (snd (_restart_addon s))
   = trace s ++ [EvSupervisor "GET" ("/addons/" +:+ slug +:+ "/info")]
   \/ trace (snd (_restart_addon s))
      = trace s ++ [EvSupervisor "GET" ("/addons/" +:+ slug +:+ "/info");
                    EvSupervisor "POST" ("/addons/" +:+ slug +:+ "/start")])
  /\ (fst (_restart_addon s) = Ret tt ->
      trace (snd (_restart_addon s))
      = trace s ++ [EvSupervisor "GET" ("/addons/" +:+ slug +:+ "/info");
                    EvSupervisor "POST" ("/addons/" +:+ slug +:+ "/start")])
  /\ (proper_world s -> forall msg, fst (_restart_addon s) <> Raise (Exception msg)).
Proof.
  intros Hslug Hwas.
  set (info_call := EvSupervisor "GET" ("/addons/" +:+ slug +:+ "/info")).
  set (start_call := EvSupervisor "POST" ("/addons/" +:+ slug +:+ "/start")).
  assert (Hstart : forall s1 (addon_name : Json),
             trace s1 = trace s ++ [info_call] ->
             (proper_world s -> proper_world s1) ->
             let m := (success <- async_start_addon slug ;; ret tt) in
             trace (snd (m s1)) = trace s ++ [info_call; start_call]
             /\ (proper_world s -> forall msg, fst (m s1) <> Raise (Exception msg))).
  { intros s1 _ Ht1 Hp1 m. subst m.
    destruct (start_addon_exchange slug s1) as (_ & Ht2 & Hf2).
    unfold bind.
    destruct (async_start_addon slug s1) as [[ok|e|] s2]; cbn [fst snd ret] in *;
      (split; [rewrite Ht2, Ht1, <- app_assoc; reflexivity|]);
      intros Hp msg; try discriminate.
    intros [= ->]. specialize (Hp1 Hp). unfold proper_world in Hp1.
    destruct (future (world s1)) as [|wk2 rest2]; [discriminate|].
    destruct Hf2 as [Hf2 _]. apply Forall_cons in Hp1 as [Hwk2 _].
    symmetry in Hf2. revert Hf2. apply answer_proper; [apply read_ok_proper | exact Hwk2]. }
  assert (H : exists r s',
             _restart_addon s = (r, s')
             /\ (trace s' = trace s ++ [info_call]
                 \/ trace s' = trace s ++ [info_call; start_call])
             /\ (r = Ret tt -> trace s' = trace s ++ [info_call; start_call])
             /\ (proper_world s -> forall msg, r <> Raise (Exception msg))).
  { unfold _restart_addon. unfold bind at 1. cbn [get_obj].
    rewrite Hslug, Hwas. cbn [negb].
    destruct (get_addon_info_exchange slug s) as (Hs1 & Ht1 & Hf1).
    pose proof (later_supervisor_api "GET" ("/addons/" +:+ slug +:+ "/info") s) as Hl1.
    rewrite <- Hs1 in Hl1.
    unfold bind at 1.
    destruct (async_get_addon_info slug s) as [[info|e|] s1]; cbn [fst snd] in *.
    - assert (Hinfo : proper_world s ->
                      json_truthy info = false \/ exists fields, info = JObject fields).
      { intros Hp. unfold proper_world in Hp.
        destruct (future (world s)) as [|wk rest]; [discriminate|].
        destruct Hf1 as [Hf1 _]. apply Forall_cons in Hp as [Hwk _].
        unfold answer in Hf1. destruct (wk_raise wk) as [[|msg']|]; try discriminate;
          destruct (read_info_proper _ Hwk) as (info' & E & H);
          rewrite E in Hf1; injection Hf1 as ->; exact H. }
      unfold bind at 1.
      destruct (json_truthy info) eqn:Htruthy.
      + rewrite json_get_pure.
        destruct info as [| | | | | |fields];
          try (eexists _, _; split; [reflexivity|]; split; [left; exact Ht1|];
               split; [discriminate|];
               intros Hp msg; destruct (Hinfo Hp) as [H | (f & H)];
               [cbn in H, Htruthy; congruence | discriminate H]).
        destruct (Hstart s1 (dict_get fields "name" (JString slug)) Ht1
                    (proper_world_later _ _ Hl1)) as [Ha Hb].
        destruct ((success <- async_start_addon slug ;; ret tt) s1) as [r s2].
        exists r, s2. split; [reflexivity|]. split; [right; exact Ha|].
        split; [intros _; exact Ha | exact Hb].
      + cbn [ret].
        destruct (Hstart s1 (JString slug) Ht1 (proper_world_later _ _ Hl1)) as [Ha Hb].
        destruct ((success <- async_start_addon slug ;; ret tt) s1) as [r s2].
        exists r, s2. split; [reflexivity|]. split; [right; exact Ha|].
        split; [intros _; exact Ha | exact Hb].
    - eexists _, _. split; [reflexivity|].
      split; [left; exact Ht1|]. split; [discriminate|].
      intros Hp msg [= ->]. unfold proper_world in Hp.
      destruct (future (world s)) as [|wk rest]; [discriminate|].
      destruct Hf1 as [Hf1 _]. apply Forall_cons in Hp as [Hwk _].
      symmetry in Hf1. revert Hf1. apply answer_proper; [|exact Hwk].
      intros result Hr. destruct (read_info_proper result Hr) as (i & E & _). eauto.
    - eexists _, _. split; [reflexivity|].
      split; [left; exact Ht1|]. split; discriminate. }
  destruct H as (r & s' & -> & H). exact H.
Qed.

(** The post-hook: no stop call; no start call without the memory; with
    it, one start call whenever the cleanup runs to its end on proper
    replies, and never more than one. *)
Lemma cleanup_memory slug was a b s :
  hook_memory slug was a b s ->
  stop_calls slug (trace (snd (run_cleanup s))) = a
  /\ (was = false -> start_calls slug (trace (snd (run_cleanup s))) = b)
  /\ (was = true -> proper_world s -> fst (run_cleanup s) = Ret tt ->
      start_calls slug (trace (snd (run_cleanup s))) = S b)
  /\ (start_calls slug (trace (snd (run_cleanup s))) <= S b)%nat.
Proof.
  intros [Hslug Hwas Hstops Hstarts].
  set (info_call := EvSupervisor "GET" ("/addons/" +:+ slug +:+ "/info")).
  set (start_call := EvSupervisor "POST" ("/addons/" +:+ slug +:+ "/start")).
  assert (Hcount1 : forall tr, tr = trace s ++ [info_call] ->
             stop_calls slug tr = a /\ start_calls slug tr = b).
  { intros tr ->.
    rewrite (count_info_call slug _ (or_introl eq_refl)),
            (count_info_call slug _ (or_intror eq_refl)). auto. }
  assert (Hcount2 : forall tr, tr = trace s ++ [info_call; start_call] ->
             stop_calls slug tr = a /\ start_calls slug tr = S b).
  { intros tr ->.
    change (trace s ++ [info_call; start_call])
      with (trace s ++ [info_call] ++ [start_call]).
    rewrite app_assoc. unfold start_call.
    destruct (count_start_call slug (trace s ++ [info_call])) as [E1 E2].
    rewrite E1, E2. destruct (Hcount1 _ eq_refl) as [-> ->]. auto. }
  assert (Hfire : forall tr ty rows counts,
             stop_calls slug (tr ++ [EvFire ty rows counts]) = stop_calls slug tr
             /\ start_calls slug (tr ++ [EvFire ty rows counts]) = start_calls slug tr).
  { intros. split; [apply (count_fire slug _ _ _ _ (or_introl eq_refl))
                   | apply (count_fire slug _ _ _ _ (or_intror eq_refl))]. }
  assert (H : exists r s1,
             _restart_addon s = (r, s1)
             /\ (was = false -> r = Ret tt /\ trace s1 = trace s)
             /\ (was = true ->
                 (trace s1 = trace s ++ [info_call]
                  \/ trace s1 = trace s ++ [info_call; start_call])
                 /\ (r = Ret tt -> trace s1 = trace s ++ [info_call; start_call])
                 /\ (proper_world s -> forall msg, r <> Raise (Exception msg)))).
  { destruct was.
    - pose proof (restart_addon_calls slug s Hslug Hwas) as Hr.
      destruct (_restart_addon s) as [r s1]. exists r, s1.
      split; [reflexivity|]. split; [discriminate | intros _; exact Hr].
    - exists (Ret tt), s. split; [|split; [auto | discriminate]].
      unfold _restart_addon, bind, get_obj. rewrite Hslug, Hwas. reflexivity. }
  destruct H as (r & s1 & Er & Hfalse & Htrue).
  assert (Hfinish : forall s2,
             (modify_obj (set_running false) ;; bus_async_fire EVENT_FINISHED) s2
             = (Ret tt,
                mkSys (set_running false (obj s2)) (world s2)
                      (trace s2 ++ [EvFire EVENT_FINISHED
                                      (results (set_running false (obj s2)))
                                      (summary (set_running false (obj s2)))]))).
  { intros s2. reflexivity. }
  assert (H : exists r' s',
             run_cleanup s = (r', s')
             /\ stop_calls slug (trace s') = stop_calls slug (trace s1)
             /\ start_calls slug (trace s') = start_calls slug (trace s1)
             /\ (r' = Ret tt -> r = Ret tt \/ exists msg, r = Raise (Exception msg))).
  { unfold run_cleanup. unfold bind at 1. unfold try_except. rewrite Er.
    destruct r as [[]|[|msg]|]; cbn [ret].
    - rewrite Hfinish. eexists _, _. split; [reflexivity|]. cbn [trace].
      destruct (Hfire (trace s1) EVENT_FINISHED
                  (results (set_running false (obj s1)))
                  (summary (set_running false (obj s1)))) as [-> ->]. auto.
    - eexists _, _. split; [reflexivity|]. split; [reflexivity|].
      split; [reflexivity | discriminate].
    - rewrite Hfinish. eexists _, _. split; [reflexivity|]. cbn [trace].
      destruct (Hfire (trace s1) EVENT_FINISHED
                  (results (set_running false (obj s1)))
                  (summary (set_running false (obj s1)))) as [-> ->]. eauto.
    - eexists _, _. split; [reflexivity|]. split; [reflexivity|].
      split; [reflexivity | discriminate]. }
  destruct H as (r' & s' & E & Hs & Ht & Hr'). rewrite E. cbn [fst snd].
  rewrite Hs, Ht.
  destruct was.
  - destruct (Htrue eq_refl) as (Htr & Hret & Hprop).
    assert (Hle : stop_calls slug (trace s1) = a
                  /\ (start_calls slug (trace s1) <= S b)%nat).
    { destruct Htr as [Htr|Htr];
        [destruct (Hcount1 _ Htr) as [-> ->] | destruct (Hcount2 _ Htr) as [-> ->]];
        auto. }
    destruct Hle as [Hsa Hsb].
    split; [exact Hsa|]. split; [discriminate|]. split; [|exact Hsb].
    intros _ Hp Hret'. destruct (Hr' Hret') as [-> | (msg & ->)].
    + apply (Hcount2 _ (Hret eq_refl)).
    + exfalso. exact (Hprop Hp msg eq_refl).
  - destruct (Hfalse eq_refl) as [_ Htr]. rewrite Htr, Hstops, Hstarts.
    repeat split; try discriminate; auto.
Qed.

Lemma answer_says_started wk :
  wake_says_started wk ->
  exists info,
    answer read_info wk = Ret (JObject info)
    /\ dict_get info "state" JNull = JString "started".
Proof.
  intros (Hret & fields & info & Hrep & Hres & Hdata & Hstate).
  exists info. split; [|exact Hstate].
  assert (E : read_info (wake_reply wk) = Ret (JObject info)).
  { rewrite Hrep. unfold read_info.
    destruct fields as [|field fields]; [discriminate Hres|].
    cbn [json_truthy]. rewrite Hres, Hdata. reflexivity. }
  unfold answer. unfold wake_returns in Hret.
  destruct (wk_raise wk) as [[|msg]|]; [congruence | exact E | exact E].
Qed.

Lemma answer_readable wk :
  wake_returns wk -> wake_readable wk -> answer read_ok wk = Ret (wake_accepts wk).
Proof.
  intros Hret Hread.
  assert (E : read_ok (wake_reply wk) = Ret (wake_accepts wk)).
  { unfold wake_accepts. destruct Hread as [-> | (fields & ->)]; reflexivity. }
  unfold answer. unfold wake_returns in Hret.
  destruct (wk_raise wk) as [[|msg]|]; [congruence | exact E | exact E].
Qed.

(** The pre-hook when the Supervisor says the add-on is running and the
    stop request is answered by nothing or by an object: one stop call,
    and the memory is what the stop request answered. *)
Lemma prehook_memory s slug wk1 wk2 rest :
  truthy_slug (_stop_addon_slug (obj s)) = Some slug ->
  future (world s) = wk1 :: wk2 :: rest ->
  wake_says_started wk1 -> wake_returns wk2 -> wake_readable wk2 ->
  hook_memory slug (wake_accepts wk2) (S (stop_calls slug (trace s)))
              (start_calls slug (trace s)) (snd (_stop_addon s))
  /\ (exists evs,
        trace (snd (_stop_addon s))
        = trace s ++ EvSupervisor "GET" ("/addons/" +:+ slug +:+ "/info")
                  :: EvSupervisor "POST" ("/addons/" +:+ slug +:+ "/stop") :: evs
        /\ Forall kind_poll evs).
Proof.
  intros Hslug Hfut Hw1 Hr2 Hread2.
  destruct (answer_says_started wk1 Hw1) as (info & Hans1 & Hstate).
  pose proof (answer_readable wk2 Hr2 Hread2) as Hans2.
  assert (H : exists r s1,
             _stop_addon s = (r, s1)
             /\ hook_memory slug (wake_accepts wk2) (S (stop_calls slug (trace s)))
                            (start_calls slug (trace s)) s1
             /\ exists evs,
                  trace s1
                  = trace s ++ EvSupervisor "GET" ("/addons/" +:+ slug +:+ "/info")
                            :: EvSupervisor "POST" ("/addons/" +:+ slug +:+ "/stop")
                            :: evs
                  /\ Forall kind_poll evs).
  { unfold _stop_addon. unfold bind at 1. cbn [get_obj]. rewrite Hslug.
    unfold bind at 1.
    destruct (get_addon_info_exchange slug s) as (_ & Hta & Hfa).
    rewrite Hfut, Hans1 in Hfa. destruct Hfa as [Hra Hfa].
    pose proof (keeps_async_get_addon_info eq slug s) as [_ _ Hsa Hwa _ _].
    destruct (async_get_addon_info slug s) as [ra sa]. cbn [fst snd] in *. subst ra.
    destruct info as [|field info]; [discriminate Hstate|].
    unfold bind at 1. cbn [json_truthy]. unfold bind at 1. rewrite json_get_pure.
    rewrite Hstate. cbn [ret json_eq_text].
    change (String.eqb "started" "started") with true. cbv iota.
    unfold bind at 1. cbn [modify_obj].
    set (sa' := mkSys (set_addon_was_running true (obj sa)) (world sa) (trace sa)).
    unfold bind at 1. rewrite json_get_pure.
    unfold bind at 1.
    destruct (stop_addon_exchange slug sa') as (_ & Htb & Hfb).
    cbn [sa' world] in Hfb. rewrite Hfa, Hans2 in Hfb. destruct Hfb as [Hrb Hfb].
    pose proof (keeps_async_stop_addon eq slug sa') as [_ _ Hsb Hwb _ _].
    destruct (async_stop_addon slug sa') as [rb sb]. cbn [fst snd] in *. subst rb.
    cbn [sa' obj trace set_addon_was_running _stop_addon_slug _addon_was_running]
      in Hsb, Hwb, Htb.
    assert (Hb : hook_memory slug true (S (stop_calls slug (trace s)))
                   (start_calls slug (trace s)) sb).
    { split; [congruence | exact Hwb | |].
      - rewrite Htb. destruct (count_stop_call slug (trace sa)) as [-> _].
        rewrite Hta, (count_info_call slug _ (or_introl eq_refl)). reflexivity.
      - rewrite Htb. destruct (count_stop_call slug (trace sa)) as [_ ->].
        rewrite Hta, (count_info_call slug _ (or_intror eq_refl)). reflexivity. }
    assert (Htrb : trace sb
                   = trace s ++ EvSupervisor "GET" ("/addons/" +:+ slug +:+ "/info")
                             :: EvSupervisor "POST" ("/addons/" +:+ slug +:+ "/stop")
                             :: []).
    { rewrite Htb, Hta, <- app_assoc. reflexivity. }
    destruct (wake_accepts wk2).
    - pose proof (keeps_asyncio_sleep eq 5 sb) as Hfr.
      destruct (asyncio_sleep 5 sb) as [r s1]. cbn [snd] in Hfr.
      exists r, s1. split; [reflexivity|]. split.
      + apply (hook_memory_frame eq _ _ _ _ sb s1); [|exact Hb].
        apply (frame_weaken eq eq kind_poll kind_batch _ _ (fun _ _ H => H)
                 (fun ev Hev => job_is_batch _ (poll_is_job _ Hev)) Hfr).
      + destruct Hfr as [_ _ _ _ _ (evs & Ht & Hev)]. exists evs.
        split; [|exact Hev]. rewrite Ht, Htrb, <- app_assoc. reflexivity.
    - cbn [modify_obj]. eexists _, _. split; [reflexivity|]. split.
      + destruct Hb as [B1 B2 B3 B4]. split; auto.
      + exists []. split; [exact Htrb | constructor]. }
  destruct H as (r & s1 & -> & H). exact H.
Qed.

Lemma keeps_batch_after_prehook :
  keeps same_length kind_batch
    (q <- get_obj ;;
     let n := length (_queue q) in
     for_each (seq 0 n) (loop_body n)).
Proof.
  pose proof keeps_batch. repeat keeps_step; auto.
Qed.

(** [_run], seen from the state the pre-hook leaves: the batch and the
    cancellation handler keep the frame, and the run then either is still
    suspended or ends as its cleanup ends. *)
Lemma run_after_prehook s :
  exists s3,
    frame same_length kind_batch (snd (_stop_addon s)) s3
    /\ later s s3
    /\ ((fst (_run s) = Suspended /\ snd (_run s) = s3)
        \/ (snd (_run s) = snd (run_cleanup s3)
            /\ (fst (_run s) = Ret tt -> fst (run_cleanup s3) = Ret tt))).
Proof.
  assert (Hrefl : forall x, frame same_length kind_batch x x) by (intros; reflexivity).
  assert (H : exists r s',
             _run s = (r, s')
             /\ exists s3,
                  frame same_length kind_batch (snd (_stop_addon s)) s3
                  /\ later s s3
                  /\ ((r = Suspended /\ s' = s3)
                      \/ (s' = snd (run_cleanup s3)
                          /\ (r = Ret tt -> fst (run_cleanup s3) = Ret tt)))).
  { unfold _run, try_finally, try_except. unfold bind at 1.
    pose proof (later_stop_addon s) as Hl1.
    destruct (_stop_addon s) as [[[]|e|] s1]; cbn [snd] in *.
    - pose proof (keeps_batch_after_prehook s1) as Hfr.
      pose proof (later_batch_after_prehook s1) as Hl2.
      destruct ((q <- get_obj ;;
                 let n := length (_queue q) in
                 for_each (seq 0 n) (loop_body n)) s1) as [[[]|[|msg]|] s2];
        cbn [snd] in Hfr, Hl2.
      + destruct (run_cleanup s2) as [[[]|e'|] s4] eqn:E;
          eexists _, _; (split; [reflexivity|]); exists s2;
          (split; [exact Hfr|]); (split; [etransitivity; eassumption|]);
          right; rewrite E;
          (split; [reflexivity | intros H; first [exact H | discriminate H]]).
      + pose proof (keeps_batch_on_cancelled s2) as Hfr2.
        pose proof (later_on_cancelled s2) as Hl3.
        destruct (on_cancelled s2) as [[[]|e2|] s3] eqn:E2; cbn [snd] in Hfr2, Hl3;
          try (unfold on_cancelled, bind, datetime_now, modify_obj in E2; discriminate E2).
        destruct (run_cleanup s3) as [[[]|e'|] s4] eqn:E;
          eexists _, _; (split; [reflexivity|]); exists s3;
          (split; [etransitivity; eassumption|]);
          (split; [etransitivity; [exact Hl1 | etransitivity; eassumption]|]);
          right; rewrite E;
          (split; [reflexivity | intros H; first [exact H | discriminate H]]).
      + destruct (run_cleanup s2) as [[[]|e'|] s4] eqn:E;
          eexists _, _; (split; [reflexivity|]); exists s2;
          (split; [exact Hfr|]); (split; [etransitivity; eassumption|]);
          right; rewrite E;
          (split; [reflexivity | intros H; first [exact H | discriminate H]]).
      + eexists _, _. split; [reflexivity|]. exists s2. split; [exact Hfr|].
        split; [etransitivity; eassumption|]. left. split; reflexivity.
    - destruct e as [|msg].
      + pose proof (keeps_batch_on_cancelled s1) as Hfr2.
        pose proof (later_on_cancelled s1) as Hl3.
        destruct (on_cancelled s1) as [[[]|e2|] s3] eqn:E2; cbn [snd] in Hfr2, Hl3;
          try (unfold on_cancelled, bind, datetime_now, modify_obj in E2; discriminate E2).
        destruct (run_cleanup s3) as [[[]|e'|] s4] eqn:E;
          eexists _, _; (split; [reflexivity|]); exists s3;
          (split; [exact Hfr2|]); (split; [etransitivity; eassumption|]);
          right; rewrite E;
          (split; [reflexivity | intros H; first [exact H | discriminate H]]).
      + destruct (run_cleanup s1) as [[[]|e'|] s4] eqn:E;
          eexists _, _; (split; [reflexivity|]); exists s1;
          (split; [apply Hrefl|]); (split; [exact Hl1|]);
          right; rewrite E;
          (split; [reflexivity | intros H; first [exact H | discriminate H]]).
    - eexists _, _. split; [reflexivity|]. exists s1. split; [apply Hrefl|].
      split; [exact Hl1|]. left. split; reflexivity. }
  destruct H as (r & s' & -> & s3 & Hfr & Hl & H). exists s3. auto.
Qed.

(** The add-on is asked to stop once, before anything else of the batch.
    If that request is refused, it is never asked to start.  If it is
    accepted, it is asked to start once in every run that comes to its
    end, however the batch went (completed, failed, or cancelled),
    provided the Supervisor's replies are proper; and never more than
    once. *)
Theorem addon_restart_accounting s slug wk1 wk2 rest :
  truthy_slug (_stop_addon_slug (obj s)) = Some slug ->
  future (world s) = wk1 :: wk2 :: rest ->
  wake_says_started wk1 -> wake_returns wk2 -> wake_readable wk2 ->
  stop_calls slug (trace (snd (_run s))) = S (stop_calls slug (trace s))
  /\ (exists evs,
        trace (snd (_run s))
        = trace s ++ EvSupervisor "GET" ("/addons/" +:+ slug +:+ "/info")
                  :: EvSupervisor "POST" ("/addons/" +:+ slug +:+ "/stop") :: evs)
  /\ (wake_accepts wk2 = false ->
      start_calls slug (trace (snd (_run s))) = start_calls slug (trace s))
  /\ (wake_accepts wk2 = true -> proper_world s -> fst (_run s) = Ret tt ->
      start_calls slug (trace (snd (_run s))) = S (start_calls slug (trace s)))
  /\ (start_calls slug (trace (snd (_run s))) <= S (start_calls slug (trace s)))%nat.
Proof.
  intros Hslug Hfut Hw1 Hw2 Hread2.
  destruct (prehook_memory s slug wk1 wk2 rest Hslug Hfut Hw1 Hw2 Hread2)
    as (Hmem & evs1 & Ht1 & _).
  destruct (run_after_prehook s) as (s3 & Hfr & Hlater & Hrun).
  pose proof (hook_memory_frame _ _ _ _ _ _ _ Hfr Hmem) as Hmem3.
  destruct Hfr as [_ _ _ _ _ (evs2 & Ht2 & _)].
  destruct Hrun as [[Hsus ->] | [-> Hret]].
  - destruct Hmem3 as [_ _ H3 H4]. rewrite H3, H4, Hsus.
    split; [reflexivity|]. split.
    + exists (evs1 ++ evs2). rewrite Ht2, Ht1, <- app_assoc. reflexivity.
    + repeat split; try reflexivity; try discriminate; lia.
  - destruct (cleanup_memory _ _ _ _ _ Hmem3) as (C1 & C2 & C3 & C4).
    pose proof (drifts_run_cleanup eq s3) as [_ _ _ (evs3 & Ht3 & _)].
    split; [exact C1|]. split.
    + exists (evs1 ++ evs2 ++ evs3). rewrite Ht3, Ht2, Ht1, <- !app_assoc. reflexivity.
    + split; [exact C2|]. split; [|exact C4].
      intros Hacc Hp Hr.
      apply C3; [exact Hacc | eapply proper_world_later; eassumption | apply Hret, Hr].
Qed.

(** The accounting at a run that is cancelled during the settle delay:
    the target is never touched, and the add-on is started again. *)
Lemma addon_restart_accounting_example :
  fst (_run cancelled_during_settle) = Ret tt
  /\ results (obj (snd (_run cancelled_during_settle)))
     = [mkRow "update.kitchen" STATUS_CANCELLED None None None]
  /\ stop_calls addon_slug (trace (snd (_run cancelled_during_settle))) = 1%nat
  /\ start_calls addon_slug (trace (snd (_run cancelled_during_settle))) = 1%nat.
Proof.
  assert (Hret : fst (_run cancelled_during_settle) = Ret tt) by (vm_compute; reflexivity).
  destruct (addon_restart_accounting cancelled_during_settle addon_slug
              (supervisor_wake 1 (Some (mkState "on" false)) info_started)
              (supervisor_wake 2 (Some (mkState "on" false)) reply_ok) _
              eq_refl eq_refl)
    as (Hstop & _ & _ & Hstart & _).
  - split; [discriminate|]. eexists _, _. repeat split; reflexivity.
  - discriminate.
  - right. eexists. reflexivity.
  - split; [exact Hret|]. split; [vm_compute; reflexivity|].
    split; [exact Hstop|]. apply (Hstart eq_refl); [|exact Hret].
    repeat (constructor; [reflexivity|]). constructor.
Defined.

(** C4. With an add-on that was running and a stop request that was
    accepted, one start request is due at the end of every run; the code
    itself says: always restart add-on if it was stopped.  Here the
    single target updates at once, and [cancel()] arrives while the
    post-hook awaits the Supervisor's answer about the add-on: the
    cancellation is not an [Exception], so the handler around
    [_restart_addon] lets it through.  The add-on was asked to stop once
    and is never asked to start; the object still says it is running, no
    finished event was fired, and a later [start] is refused. *)
Theorem restart_lost_when_cleanup_is_cancelled :
  let r := run_task cancelled_during_restart in
  fst r = Raise CancelledError
  /\ future (world (snd r)) = []
  /\ results (obj (snd r))
     = [mkRow "update.kitchen" STATUS_SUCCESS
          (Some (isoformat 1007)) (Some (isoformat 1009)) None]
  /\ _addon_was_running (obj (snd r)) = true
  /\ stop_calls addon_slug (trace (snd r)) = 1%nat
  /\ start_calls addon_slug (trace (snd r)) = 0%nat
  /\ (fst <$> (fst <$> fired (trace (snd r)))) = [EVENT_PROGRESS]
  /\ (done <$> _task (obj (snd r))) = Some true
  /\ is_running (obj (snd r)) = true
  /\ fst (start ["update.kitchen"] (Some addon_slug) (obj (snd r)))
     = RuntimeError "Update queue is already running".
Proof.
  vm_compute. repeat split; reflexivity.
Qed.

(** * The rest of the queue's interface *)

Lemma foldl_count_status_lookup (l : list DeviceUpdateResult) :
  forall (m : gmap string nat) (st : string),
    foldl count_status m l !! st
    = if decide (jobs_with st l = 0%nat) then m !! st
      else Some (default 0%nat (m !! st) + jobs_with st l)%nat.
Proof.
  unfold jobs_with.
  induction l as [|r l IH]; intros m st; [reflexivity|].
  cbn [foldl]. rewrite IH. rewrite filter_cons.
  unfold count_status at 1 2.
  destruct (decide (status r = st)) as [->|Hne].
  - rewrite lookup_insert_eq. cbn [length default]. unfold id.
    rewrite (decide_False (P := S _ = 0%nat)) by lia.
    destruct (decide _) as [->|Hn]; f_equal; lia.
  - rewrite lookup_insert_ne by exact Hne. reflexivity.
Qed.

Lemma summary_lookup (q : UpdateQueue) (st : string) :
  summary q !! st
  = if decide (jobs_with st (_queue q) = 0%nat) then None
    else Some (jobs_with st (_queue q)).
Proof.
  unfold summary. rewrite foldl_count_status_lookup, lookup_empty.
  destruct (decide _); reflexivity.
Qed.

Lemma jobs_with_zero (st : string) (l : list DeviceUpdateResult) :
  jobs_with st l = 0%nat <-> forall r, r ∈ l -> status r <> st.
Proof.
  unfold jobs_with. rewrite length_zero_iff_nil. split.
  - intros H0 r Hr Hst.
    assert (Hin : r ∈ filter (fun r => status r = st) l)
      by (apply list_elem_of_filter; split; assumption).
    rewrite H0 in Hin. apply elem_of_nil in Hin. exact Hin.
  - intros Hall. induction l as [|r l IH]; [reflexivity|].
    rewrite filter_cons. rewrite decide_False.
    + apply IH. intros r' Hr'. apply Hall. right. exact Hr'.
    + apply Hall. left.
Qed.

(** X1. The summary maps a status to the number of jobs that have it, and
    has no entry for a status that no job has: a count of zero is never
    reported. *)
Theorem summary_counts_jobs_by_status (q : UpdateQueue) (st : string) :
  default 0%nat (summary q !! st) = jobs_with st (_queue q)
  /\ summary q !! st <> Some 0%nat
  /\ (summary q !! st = None <-> forall r, r ∈ _queue q -> status r <> st).
Proof.
  rewrite summary_lookup, <- jobs_with_zero.
  destruct (decide _) as [H0|Hn].
  - split; [symmetry; exact H0|]. split; [discriminate|].
    split; [intros _; exact H0 | reflexivity].
  - split; [reflexivity|]. split; [intros [= H]; apply Hn, H|].
    split; [discriminate | intros H; contradiction].
Qed.

Lemma jobs_with_new_items (st : string) (ids : list string) :
  jobs_with st (new_item <$> ids)
  = if decide (st = STATUS_QUEUED) then length ids else 0%nat.
Proof.
  unfold jobs_with. induction ids as [|e ids IH]; [destruct (decide _); reflexivity|].
  rewrite fmap_cons, filter_cons. cbn [new_item status].
  destruct (decide (st = STATUS_QUEUED)) as [->|Hne].
  - rewrite decide_True by reflexivity. cbn [length]. rewrite IH. reflexivity.
  - rewrite decide_False by congruence. exact IH.
Qed.

(** X2. Accepted while idle, the start command replaces whatever the
    queue held: the status command then shows the run as running, one
    Queued row per target in the order given, with no timestamps and no
    error, and a summary that counts them all as queued (no entry at all
    for an empty list).  A cancellation flag left over from before is
    cleared, and so is the add-on memory. *)
Theorem start_lists_every_target_queued
    (entity_ids : list string) (slug : option string) (q : UpdateQueue) :
  _running q = false ->
  exists q',
    ws_start_updates entity_ids slug q = (WsStarted, q')
    /\ ws_get_status q'
       = mkStatus true
           ((fun e => mkRow e STATUS_QUEUED None None None) <$> entity_ids)
           (if decide (entity_ids = []) then ∅
            else {[ STATUS_QUEUED := length entity_ids ]})
    /\ _cancelled q' = false
    /\ _addon_was_running q' = false
    /\ _stop_addon_slug q' = slug.
Proof.
  intros Hidle. unfold ws_start_updates, start. rewrite Hidle.
  eexists. split; [reflexivity|]. split; [|repeat split].
  unfold ws_get_status, is_running, results. cbn [_running _queue]. f_equal.
  - rewrite <- list_fmap_compose. reflexivity.
  - apply map_eq. intros st. rewrite summary_lookup. cbn [_queue].
    rewrite jobs_with_new_items.
    destruct (decide (entity_ids = [])) as [->|Hne].
    + rewrite lookup_empty. destruct (decide (st = _)); reflexivity.
    + destruct (decide (st = STATUS_QUEUED)) as [->|Hst].
      * rewrite lookup_singleton_eq. rewrite decide_False; [reflexivity|].
        destruct entity_ids; [congruence | discriminate].
      * rewrite lookup_singleton_ne by congruence. reflexivity.
Qed.

Lemma start_lists_every_target_queued_witness :
  exists q',
    ws_start_updates ["update.kitchen"; "update.porch"] None
      (cancel UpdateQueue_init) = (WsStarted, q')
    /\ ws_get_status q'
       = mkStatus true
           [mkRow "update.kitchen" STATUS_QUEUED None None None;
            mkRow "update.porch" STATUS_QUEUED None None None]
           {[ STATUS_QUEUED := 2%nat ]}
    /\ _cancelled q' = false
    /\ _addon_was_running q' = false
    /\ _stop_addon_slug q' = None.
Proof.
  apply (start_lists_every_target_queued ["update.kitchen"; "update.porch"] None
           (cancel UpdateQueue_init)).
  reflexivity.
Defined.

(** X3. The clear command is refused while a run is in progress: the
    caller gets the clear_failed error and the object is left as it was.
    When idle it empties the job sequence and nothing else, so that the
    status command shows no rows and an empty summary, and a new run can
    be started. *)
Theorem clear_only_when_idle (q : UpdateQueue) :
  (_running q = true ->
   ws_clear_results q
   = (WsError "clear_failed" "Cannot clear while updates are running", q))
  /\ (_running q = false ->
      exists q',
        ws_clear_results q = (WsCleared, q')
        /\ ws_get_status q' = mkStatus false [] ∅
        /\ q' = set_queue [] q
        /\ forall ids slug, fst (ws_start_updates ids slug q') = WsStarted).
Proof.
  unfold ws_clear_results, clear. split; intros H; rewrite H; [reflexivity|].
  eexists. split; [reflexivity|].
  unfold ws_get_status, is_running, results, summary, ws_start_updates, start.
  cbn [set_queue _queue _running]. rewrite H.
  split; [reflexivity|]. split; reflexivity.
Qed.

Lemma clear_only_when_idle_witness :
  ws_clear_results demo_queue
  = (WsError "clear_failed" "Cannot clear while updates are running", demo_queue)
  /\ exists q',
       ws_clear_results (set_running false demo_queue) = (WsCleared, q')
       /\ ws_get_status q' = mkStatus false [] ∅
       /\ q' = set_queue [] (set_running false demo_queue)
       /\ forall ids slug, fst (ws_start_updates ids slug q') = WsStarted.
Proof.
  split.
  - apply (proj1 (clear_only_when_idle demo_queue)). reflexivity.
  - apply (proj2 (clear_only_when_idle (set_running false demo_queue))). reflexivity.
Defined.

(** * The run as a whole *)

(** ** The targets of a run *)

#[local] Instance same_ids_preorder : PreOrder same_ids.
Proof.
  split; unfold same_ids; [intros l; reflexivity|].
  intros l1 l2 l3 H1 H2. congruence.
Qed.

Lemma same_ids_alter i f l :
  (forall it, entity_id (f it) = entity_id it) -> same_ids l (alter f i l).
Proof.
  intros Hf. unfold same_ids. apply list_eq. intros j.
  rewrite !list_lookup_fmap.
  destruct (decide (j = i)) as [->|Hne].
  - rewrite list_lookup_alter_eq. destruct (l !! i); simpl; [|reflexivity].
    rewrite Hf. reflexivity.
  - rewrite list_lookup_alter_ne by congruence. reflexivity.
Qed.

Lemma keeps_ids_item_set P i f :
  (forall it, entity_id (f it) = entity_id it) ->
  keeps same_ids P (item_set i f).
Proof.
  intros Hf. apply keeps_item_set; try exact _. intros l. apply same_ids_alter, Hf.
Qed.

Lemma keeps_ids_update_single i : keeps same_ids kind_job (_update_single i).
Proof.
  pose proof (keeps_job_wait_for_completion same_ids).
  pose proof (keeps_job_states_get same_ids).
  pose proof (keeps_is_entity_available same_ids).
  pose proof (keeps_async_call_install same_ids).
  assert (Hs : forall f, (forall it, entity_id (f it) = entity_id it) ->
                         keeps same_ids kind_job (item_set i f))
    by (intros; apply keeps_ids_item_set; assumption).
  unfold _update_single.
  repeat keeps_step; auto.
Qed.

#[local] Instance keeps_targets_preorder ids : PreOrder (keeps_targets ids).
Proof.
  split; unfold keeps_targets.
  - intros s H. split; [exact H|]. apply trace_grows_refl.
  - intros s1 s2 s3 H12 H23 H1.
    destruct (H12 H1) as (H2 & Ht2). destruct (H23 H2) as (H3 & Ht3).
    split; [exact H3|]. eapply trace_grows_trans; eassumption.
Qed.

Lemma not_fired_lists_targets ids evs :
  Forall not_fired evs -> Forall (lists_targets ids) evs.
Proof.
  intros H. eapply Forall_impl; [exact H|].
  intros [] Hev; simpl in *; auto. contradiction.
Qed.

Lemma keeps_targets_drifts {A} ids (P : Event -> Prop) (m : M A) :
  (forall ev, P ev -> not_fired ev) ->
  drifts same_ids P m -> preserves (keeps_targets ids) m.
Proof.
  intros HP Hm s Hids. destruct (Hm s) as [Hq _ _ (evs & Ht & Hevs)].
  split; [rewrite Hq; exact Hids|].
  exists evs. split; [exact Ht|]. apply not_fired_lists_targets.
  eapply Forall_impl; [exact Hevs | exact HP].
Qed.

Lemma job_not_fired ev : kind_job ev -> not_fired ev.
Proof. destruct ev; simpl; auto. Qed.

Lemma hook_not_fired ev : kind_hook ev -> not_fired ev.
Proof. destruct ev; simpl; auto. Qed.

Lemma keeps_targets_fire ids ty : preserves (keeps_targets ids) (bus_async_fire ty).
Proof.
  intros s Hids. unfold bus_async_fire, bind, get_obj, emit. cbn [fst snd obj trace].
  split; [exact Hids|]. eexists. split; [reflexivity|].
  constructor; [|constructor]. cbn [lists_targets]. unfold results.
  rewrite <- list_fmap_compose. exact Hids.
Qed.

Lemma keeps_targets_loop_body ids n i : preserves (keeps_targets ids) (loop_body n i).
Proof.
  pose proof (keeps_targets_drifts ids _ _ job_not_fired
                (keeps_drifts _ _ _ (keeps_ids_update_single i))).
  pose proof (keeps_targets_fire ids).
  pose proof (fun d => keeps_targets_drifts ids _ _ job_not_fired
                         (keeps_drifts _ _ _ (keeps_job_sleep same_ids d))).
  assert (Hs : forall f, (forall it, entity_id (f it) = entity_id it) ->
                         preserves (keeps_targets ids) (item_set i f)).
  { intros f Hf. apply (keeps_targets_drifts ids kind_job); [apply job_not_fired|].
    apply keeps_drifts, keeps_ids_item_set, Hf. }
  assert (Hi : preserves (keeps_targets ids) (modify_obj (set_current_index i))).
  { apply (keeps_targets_drifts ids kind_job); [apply job_not_fired|].
    apply keeps_drifts, keeps_set_current_index. exact _. }
  unfold loop_body, wait_for_cancel_or_timeout.
  repeat keeps_step; auto.
Qed.

Lemma keeps_targets_on_cancelled ids : preserves (keeps_targets ids) on_cancelled.
Proof.
  intros s Hids.
  cbn [on_cancelled bind datetime_now modify_obj snd fst obj trace set_queue _queue].
  split; [|apply trace_grows_refl].
  rewrite <- Hids, <- list_fmap_compose. apply list_fmap_ext.
  intros _ it _. unfold cancel_item, compose.
  destruct (String.eqb _ _); [reflexivity|]. destruct (String.eqb _ _); reflexivity.
Qed.

Lemma keeps_targets_run_cleanup ids : preserves (keeps_targets ids) run_cleanup.
Proof.
  pose proof (keeps_targets_drifts ids _ _ hook_not_fired
                (keeps_drifts _ _ _ (keeps_restart_addon same_ids))).
  pose proof (keeps_targets_fire ids).
  assert (preserves (keeps_targets ids) (modify_obj (set_running false))).
  { apply (keeps_targets_drifts ids kind_hook); [apply hook_not_fired|].
    apply drifts_set_running. exact _. }
  unfold run_cleanup.
  repeat keeps_step; auto.
Qed.

Lemma keeps_targets_run ids : preserves (keeps_targets ids) _run.
Proof.
  pose proof (keeps_targets_drifts ids _ _ hook_not_fired (drifts_stop_addon same_ids)).
  pose proof (keeps_targets_run_cleanup ids).
  pose proof (keeps_targets_on_cancelled ids).
  assert (forall n idxs, preserves (keeps_targets ids) (for_each idxs (loop_body n))).
  { intros. apply preserves_for_each; [exact _|]. intros. apply keeps_targets_loop_body. }
  unfold _run.
  repeat keeps_step; auto.
Qed.

(** X4. A run never adds, drops or reorders a job.  At every point of a
    run begun by [start], the results list holds one row per target in
    the order given, and so does every progress or finished event fired
    so far. *)
Theorem run_lists_the_targets_given
    (entity_ids : list string) (slug : option string) (q : UpdateQueue)
    (w : World) (tr : list Event) :
  _running q = false ->
  row_entity_id <$> results (obj (snd (_run (mkSys (snd (start entity_ids slug q)) w tr))))
  = entity_ids
  /\ exists evs,
       trace (snd (_run (mkSys (snd (start entity_ids slug q)) w tr))) = tr ++ evs
       /\ forall ty rows counts,
            EvFire ty rows counts ∈ evs -> row_entity_id <$> rows = entity_ids.
Proof.
  intros Hidle.
  destruct (keeps_targets_run entity_ids (mkSys (snd (start entity_ids slug q)) w tr))
    as (Hq & evs & Ht & Hevs).
  { unfold start. rewrite Hidle. cbn [snd obj _queue].
    rewrite <- list_fmap_compose. apply list_fmap_id. }
  split.
  - unfold results. rewrite <- list_fmap_compose. exact Hq.
  - exists evs. split; [exact Ht|]. intros ty rows counts Hin.
    rewrite Forall_forall in Hevs. apply (Hevs _ Hin).
Qed.

Lemma run_lists_the_targets_given_witness :
  row_entity_id <$> results (obj (snd (_run cancelled_during_wait)))
  = ["update.kitchen"; "update.porch"]
  /\ exists evs,
       trace (snd (_run cancelled_during_wait)) = [] ++ evs
       /\ forall ty rows counts,
            EvFire ty rows counts ∈ evs
            -> row_entity_id <$> rows = ["update.kitchen"; "update.porch"].
Proof.
  apply (run_lists_the_targets_given ["update.kitchen"; "update.porch"] None
           UpdateQueue_init (world cancelled_during_wait) []).
  reflexivity.
Defined.

(** ** Errors never leave the run *)

Lemma no_error_ret {A} (a : A) : no_error (ret a).
Proof. intros s msg. discriminate. Qed.

Lemma no_error_read {A} (f : Sys -> A) : no_error (fun s => (Ret (f s), s)).
Proof. intros s msg. discriminate. Qed.

Lemma no_error_cancelled {A} : no_error (@raise A CancelledError).
Proof. intros s msg. discriminate. Qed.

Lemma no_error_modify_obj f : no_error (modify_obj f).
Proof. intros s msg. discriminate. Qed.

Lemma no_error_emit ev : no_error (emit ev).
Proof. intros s msg. discriminate. Qed.

Lemma no_error_suspend : no_error suspend.
Proof. intros s msg. unfold suspend. destruct (future (world s)); discriminate. Qed.

Lemma no_error_take_cancel : no_error take_cancel.
Proof.
  intros s msg. unfold take_cancel.
  destruct (_task (obj s)) as [t|]; [destruct (must_cancel t)|]; discriminate.
Qed.

Lemma no_error_bind {A B} (m : M A) (k : A -> M B) :
  no_error m -> (forall a, no_error (k a)) -> no_error (bind m k).
Proof.
  intros Hm Hk s msg. unfold bind. specialize (Hm s).
  destruct (m s) as [[a|e|] s1]; cbn [fst] in *.
  - apply Hk.
  - destruct e as [|msg']; [discriminate|]. exfalso. apply (Hm msg'). reflexivity.
  - discriminate.
Qed.

(** A [try] whose handlers catch every [Exception]. *)
Lemma no_error_try_catch {A} (body : M A) handler :
  (forall msg, exists h, handler (Exception msg) = Some h) ->
  (forall e h, handler e = Some h -> no_error h) ->
  no_error (try_except body handler).
Proof.
  intros Hcatch Hh s msg. unfold try_except.
  destruct (body s) as [[a|e|] s1]; cbn [fst]; try discriminate.
  destruct (handler e) as [h|] eqn:He.
  - eapply Hh. exact He.
  - destruct e as [|msg']; [discriminate|].
    destruct (Hcatch msg') as (h & Hsome). congruence.
Qed.

Lemma no_error_try_except {A} (body : M A) handler :
  no_error body ->
  (forall e h, handler e = Some h -> no_error h) ->
  no_error (try_except body handler).
Proof.
  intros Hb Hh s msg. unfold try_except. specialize (Hb s).
  destruct (body s) as [[a|e|] s1]; cbn [fst] in *; try discriminate.
  destruct (handler e) as [h|] eqn:He.
  - eapply Hh. exact He.
  - destruct e as [|msg']; [discriminate|]. exfalso. apply (Hb msg'). reflexivity.
Qed.

Lemma no_error_try_finally {A} (body : M A) fin :
  no_error body -> no_error fin -> no_error (try_finally body fin).
Proof.
  intros Hb Hf s msg. unfold try_finally. specialize (Hb s).
  destruct (body s) as [[a|e|] s1]; cbn [fst] in *; try discriminate.
  - specialize (Hf s1). destruct (fin s1) as [[[]|e|] s2]; cbn [fst] in *;
      [discriminate | | discriminate].
    destruct e as [|msg']; [discriminate|]. exfalso. apply (Hf msg'). reflexivity.
  - specialize (Hf s1). destruct (fin s1) as [[[]|e'|] s2]; cbn [fst] in *;
      [| | discriminate].
    + destruct e as [|msg']; [discriminate|]. exfalso. apply (Hb msg'). reflexivity.
    + destruct e' as [|msg']; [discriminate|]. exfalso. apply (Hf msg'). reflexivity.
Qed.

Lemma no_error_for_each idxs body :
  (forall i, no_error (body i)) -> no_error (for_each idxs body).
Proof.
  intros Hb. induction idxs as [|i idxs IH]; cbn [for_each].
  - apply no_error_ret.
  - apply no_error_bind; [apply Hb | intros _; exact IH].
Qed.

#[local] Hint Resolve no_error_ret no_error_read no_error_cancelled
  no_error_modify_obj no_error_emit no_error_suspend no_error_take_cancel : coro.
#[local] Hint Extern 1 (no_error get_obj) => apply no_error_read : coro.
#[local] Hint Extern 1 (no_error (item_get _)) => apply no_error_read : coro.
#[local] Hint Extern 1 (no_error cancelled_flag) => apply no_error_read : coro.
#[local] Hint Extern 1 (no_error datetime_now) => apply no_error_read : coro.
#[local] Hint Extern 1 (no_error loop_time) => apply no_error_read : coro.
#[local] Hint Extern 1 (no_error pending_wakes) => apply no_error_read : coro.
#[local] Hint Extern 1 (no_error (item_set _ _)) => apply no_error_modify_obj : coro.

Ltac no_error_step :=
  match goal with
  | |- no_error (bind _ _) => apply no_error_bind; [| intros ?]
  | |- no_error (try_finally _ _) => apply no_error_try_finally
  | |- no_error (if ?b then _ else _) => destruct b
  | |- no_error (match ?x with _ => _ end) => destruct x
  | |- no_error _ => solve [auto with coro]
  end.

Lemma no_error_states_get eid : no_error (states_get eid).
Proof. unfold states_get. repeat no_error_step. Qed.

Lemma no_error_sleep d : no_error (asyncio_sleep d).
Proof. unfold asyncio_sleep. repeat no_error_step. Qed.

Lemma no_error_wait_loop fuel eid end_time since saw :
  no_error (wait_loop fuel eid end_time since saw).
Proof.
  revert since saw. induction fuel as [|fuel IH]; intros since saw; simpl.
  - intros s msg. discriminate.
  - pose proof no_error_states_get. pose proof no_error_sleep.
    repeat no_error_step; auto.
Qed.

Lemma no_error_wait_for_completion eid timeout :
  no_error (_wait_for_completion eid timeout).
Proof.
  unfold _wait_for_completion.
  pose proof no_error_wait_loop. pose proof no_error_sleep.
  repeat no_error_step; auto.
Qed.

Lemma no_error_supervisor_api method path : no_error (_supervisor_api method path).
Proof. intros s msg. apply supervisor_api_no_error. Qed.

Lemma no_error_update_single i : no_error (_update_single i).
Proof.
  unfold _update_single.
  repeat no_error_step.
  apply no_error_try_catch.
  - intros msg. eexists. reflexivity.
  - intros [|msg] h [= <-]; repeat no_error_step.
Qed.

Lemma no_error_loop_body n i : no_error (loop_body n i).
Proof.
  pose proof (no_error_update_single i). pose proof no_error_sleep.
  unfold loop_body, wait_for_cancel_or_timeout, bus_async_fire.
  repeat no_error_step; auto.
Qed.

Lemma no_error_run_cleanup : no_error run_cleanup.
Proof.
  unfold run_cleanup, bus_async_fire.
  repeat no_error_step; auto.
  apply no_error_try_catch.
  - intros msg. eexists. reflexivity.
  - intros [|msg] h [= <-]. auto with coro.
Qed.

Lemma no_error_batch :
  no_error (q <- get_obj ;;
            let n := length (_queue q) in
            for_each (seq 0 n) (loop_body n)).
Proof.
  pose proof no_error_loop_body.
  repeat no_error_step; auto. apply no_error_for_each. auto.
Qed.

Lemma no_error_on_cancelled : no_error on_cancelled.
Proof. unfold on_cancelled. repeat no_error_step. Qed.

(** An error that leaves the run is the error the pre-hook raised. *)
Lemma run_error_from_prehook s msg :
  fst (_run s) = Raise (Exception msg) ->
  fst (_stop_addon s) = Raise (Exception msg).
Proof.
  unfold _run, try_finally, try_except. unfold bind at 1.
  destruct (_stop_addon s) as [[[]|[|msg1]|] s1]; cbn [fst].
  - pose proof (no_error_batch s1) as Hb.
    destruct ((q <- get_obj ;;
               let n := length (_queue q) in
               for_each (seq 0 n) (loop_body n)) s1) as [[[]|[|msg2]|] s2];
      cbn [fst] in Hb.
    + pose proof (no_error_run_cleanup s2) as Hc.
      destruct (run_cleanup s2) as [[[]|[|msg3]|] s3]; cbn [fst] in *;
        try discriminate. intros _. exfalso. apply (Hc msg3). reflexivity.
    + pose proof (no_error_on_cancelled s2) as Ho.
      destruct (on_cancelled s2) as [[[]|[|msg3]|] s3]; cbn [fst] in Ho;
        try (exfalso; apply (Ho msg3); reflexivity);
        try (intros; discriminate);
        pose proof (no_error_run_cleanup s3) as Hc;
        destruct (run_cleanup s3) as [[[]|[|msg4]|] s4]; cbn [fst] in *;
        try discriminate; intros _; exfalso; apply (Hc msg4); reflexivity.
    + exfalso. apply (Hb msg2). reflexivity.
    + discriminate.
  - pose proof (no_error_on_cancelled s1) as Ho.
    destruct (on_cancelled s1) as [[[]|[|msg3]|] s3]; cbn [fst] in Ho;
      try (exfalso; apply (Ho msg3); reflexivity);
      try (intros; discriminate);
      pose proof (no_error_run_cleanup s3) as Hc;
      destruct (run_cleanup s3) as [[[]|[|msg4]|] s4]; cbn [fst] in *;
      try discriminate; intros _; exfalso; apply (Hc msg4); reflexivity.
  - pose proof (no_error_run_cleanup s1) as Hc.
    destruct (run_cleanup s1) as [[[]|[|msg3]|] s3]; cbn [fst] in *;
      try discriminate; [intros H; exact H|].
    intros _. exfalso. apply (Hc msg3). reflexivity.
  - discriminate.
Qed.

(** ** Proper replies *)

Lemma safe_of_no_error {A} (m : M A) : no_error m -> safe m (fun _ => True).
Proof.
  intros Hm s _. specialize (Hm s). destruct (fst (m s)) as [a|[|msg]|]; auto.
  apply (Hm msg). reflexivity.
Qed.

Lemma safe_bind {A B} (m : M A) (k : A -> M B) good good' :
  safe m good -> preserves later m ->
  (forall a, good a -> safe (k a) good') ->
  safe (bind m k) good'.
Proof.
  intros Hm Hl Hk s Hp. specialize (Hm s Hp). specialize (Hl s).
  unfold bind. destruct (m s) as [[a|[|msg]|] s1]; cbn [fst snd] in *; auto.
  apply (Hk a Hm s1). eapply proper_world_later; eassumption.
Qed.

Lemma safe_weaken {A} (m : M A) (good good' : A -> Prop) :
  (forall a, good a -> good' a) -> safe m good -> safe m good'.
Proof.
  intros Hg Hm s Hp. specialize (Hm s Hp).
  destruct (fst (m s)) as [a|[|msg]|]; auto.
Qed.

Lemma safe_ret {A} (a : A) (good : A -> Prop) : good a -> safe (ret a) good.
Proof. intros Ha s _. exact Ha. Qed.

Lemma safe_json_get fields key default :
  safe (json_get (JObject fields) key default) (fun _ => True).
Proof. intros s _. exact I. Qed.

Lemma safe_exchange {A} (read : Json -> outcome A) (m : M A) (good : A -> Prop) :
  (forall s, match future (world s) with
             | [] => fst (m s) = Suspended
             | wk :: rest => fst (m s) = answer read wk /\ future (world (snd (m s))) = rest
             end) ->
  (forall result, proper_reply result = true -> exists a, read result = Ret a /\ good a) ->
  safe m good.
Proof.
  intros Hex Hread s Hp. specialize (Hex s). unfold proper_world in Hp.
  destruct (future (world s)) as [|wk rest]; [rewrite Hex; exact I|].
  destruct Hex as [-> _]. apply Forall_cons in Hp as [Hwk _].
  unfold answer. destruct (wk_raise wk) as [[|msg]|]; try exact I;
    destruct (Hread _ Hwk) as (a & -> & Ha); exact Ha.
Qed.

Lemma safe_async_get_addon_info slug :
  safe (async_get_addon_info slug)
       (fun info => json_truthy info = false \/ exists fields, info = JObject fields).
Proof.
  apply (safe_exchange read_info).
  - intros s. apply get_addon_info_exchange.
  - apply read_info_proper.
Qed.

Lemma safe_async_stop_addon slug : safe (async_stop_addon slug) (fun _ => True).
Proof.
  apply (safe_exchange read_ok).
  - intros s. apply stop_addon_exchange.
  - intros result H. destruct (read_ok_proper result H) as (ok & E). eauto.
Qed.

Lemma safe_async_start_addon slug : safe (async_start_addon slug) (fun _ => True).
Proof.
  apply (safe_exchange read_ok).
  - intros s. apply start_addon_exchange.
  - intros result H. destruct (read_ok_proper result H) as (ok & E). eauto.
Qed.

Lemma later_async_get_addon_info slug : preserves later (async_get_addon_info slug).
Proof.
  pose proof later_supervisor_api. unfold async_get_addon_info.
  repeat keeps_step; auto.
Qed.

Lemma later_async_stop_addon slug : preserves later (async_stop_addon slug).
Proof.
  pose proof later_supervisor_api. unfold async_stop_addon.
  repeat keeps_step; auto.
Qed.

Lemma later_async_start_addon slug : preserves later (async_start_addon slug).
Proof.
  pose proof later_supervisor_api. unfold async_start_addon.
  repeat keeps_step; auto.
Qed.

Lemma safe_stop_addon : safe _stop_addon (fun _ => True).
Proof.
  unfold _stop_addon.
  eapply safe_bind; [apply safe_of_no_error; auto with coro
                    | apply preserves_read; exact _ |].
  intros q _. destruct (truthy_slug (_stop_addon_slug q)) as [slug|];
    [|apply safe_ret; exact I].
  eapply safe_bind; [apply safe_async_get_addon_info
                    | apply later_async_get_addon_info |].
  intros info Hinfo.
  eapply (safe_bind _ _ (fun started : bool =>
                           started = true -> exists fields, info = JObject fields)).
  { destruct (json_truthy info) eqn:Ht; [|apply safe_ret; discriminate].
    destruct Hinfo as [Hf | (fields & ->)]; [congruence|].
    eapply safe_bind; [apply safe_json_get | repeat keeps_step |].
    intros st _. apply safe_ret. eauto. }
  { destruct (json_truthy info); repeat keeps_step. }
  intros [] Hstarted; [|apply safe_ret; exact I].
  destruct (Hstarted eq_refl) as (fields & ->).
  eapply safe_bind; [apply safe_of_no_error; auto with coro | repeat keeps_step |].
  intros _ _.
  eapply safe_bind; [apply safe_json_get | repeat keeps_step |].
  intros addon_name _.
  eapply safe_bind; [apply safe_async_stop_addon | apply later_async_stop_addon |].
  intros [] _; apply safe_of_no_error; [apply no_error_sleep | auto with coro].
Qed.

Lemma safe_restart_addon : safe _restart_addon (fun _ => True).
Proof.
  unfold _restart_addon.
  eapply safe_bind; [apply safe_of_no_error; auto with coro
                    | apply preserves_read; exact _ |].
  intros q _. destruct (truthy_slug (_stop_addon_slug q)) as [slug|];
    [|apply safe_ret; exact I].
  destruct (negb (_addon_was_running q)); [apply safe_ret; exact I|].
  eapply safe_bind; [apply safe_async_get_addon_info
                    | apply later_async_get_addon_info |].
  intros info Hinfo.
  eapply (safe_bind _ _ (fun _ => True)).
  { destruct (json_truthy info) eqn:Ht; [|apply safe_ret; exact I].
    destruct Hinfo as [Hf | (fields & ->)]; [congruence|]. apply safe_json_get. }
  { destruct (json_truthy info); repeat keeps_step. }
  intros addon_name _.
  eapply safe_bind; [apply safe_async_start_addon | apply later_async_start_addon |].
  intros _ _. apply safe_ret. exact I.
Qed.

(** X5. No error leaves a job, and none leaves the run while the
    Supervisor can be understood.  Whatever the devices and the install
    service do, a job never raises anything but the cancellation: an
    install or waiter error is recorded in the job.  The cleanup never
    raises anything but the cancellation either: an error of the
    post-hook is only logged.  So an error that leaves the run is one the
    pre-hook raised; and while every reply of the Supervisor is a proper
    one (nothing, or an object whose data is an object or not truthy)
    neither hook raises one, and the run as a whole returns, is still
    suspended, or is cancelled. *)
Theorem run_raises_only_cancellation (s : Sys) (i : nat) :
  (fst (_update_single i s) = Ret tt \/ fst (_update_single i s) = Suspended
   \/ fst (_update_single i s) = Raise CancelledError)
  /\ (fst (run_cleanup s) = Ret tt \/ fst (run_cleanup s) = Suspended
      \/ fst (run_cleanup s) = Raise CancelledError)
  /\ (forall msg, fst (_run s) = Raise (Exception msg) ->
                  fst (_stop_addon s) = Raise (Exception msg))
  /\ (proper_world s ->
      (fst (_stop_addon s) = Ret tt \/ fst (_stop_addon s) = Suspended
       \/ fst (_stop_addon s) = Raise CancelledError)
      /\ (fst (_restart_addon s) = Ret tt \/ fst (_restart_addon s) = Suspended
          \/ fst (_restart_addon s) = Raise CancelledError)
      /\ (fst (_run s) = Ret tt \/ fst (_run s) = Suspended
          \/ fst (_run s) = Raise CancelledError)).
Proof.
  assert (H : forall m : M unit, (forall msg, fst (m s) <> Raise (Exception msg)) ->
              fst (m s) = Ret tt \/ fst (m s) = Suspended
              \/ fst (m s) = Raise CancelledError).
  { intros m Hm. destruct (fst (m s)) as [[]|[|msg]|]; auto.
    exfalso. apply (Hm msg). reflexivity. }
  assert (Hsafe : forall m : M unit, safe m (fun _ => True) -> proper_world s ->
                  forall msg, fst (m s) <> Raise (Exception msg)).
  { intros m Hm Hp msg E. specialize (Hm s Hp). rewrite E in Hm. exact Hm. }
  split; [apply H, no_error_update_single|].
  split; [apply H, no_error_run_cleanup|].
  split; [intros msg; apply run_error_from_prehook|].
  intros Hp.
  split; [apply H, (Hsafe _ safe_stop_addon Hp)|].
  split; [apply H, (Hsafe _ safe_restart_addon Hp)|].
  apply H. intros msg E. apply run_error_from_prehook in E.
  exact (Hsafe _ safe_stop_addon Hp msg E).
Qed.

(** A reply that the pre-hook cannot read: the error leaves the run, after
    the cleanup. *)
Lemma run_raises_only_cancellation_witness :
  fst (_run unreadable_info) = Raise (AttributeError (JArray [JInt 1]))
  /\ fst (_stop_addon unreadable_info) = Raise (AttributeError (JArray [JInt 1]))
  /\ (fst (_run cancelled_during_settle) = Ret tt
      \/ fst (_run cancelled_during_settle) = Suspended
      \/ fst (_run cancelled_during_settle) = Raise CancelledError).
Proof.
  assert (E : fst (_run unreadable_info) = Raise (AttributeError (JArray [JInt 1])))
    by (vm_compute; reflexivity).
  split; [exact E|]. split.
  - apply (proj1 (proj2 (proj2 (run_raises_only_cancellation unreadable_info 0)))).
    exact E.
  - apply (proj2 (proj2 (proj2 (run_raises_only_cancellation cancelled_during_settle 0)))).
    repeat (constructor; [reflexivity|]). constructor.
Defined.

(** ** The finished event *)

#[local] Instance before_finish_preorder : PreOrder before_finish.
Proof.
  split; unfold before_finish.
  - intros s. split; [reflexivity | apply trace_grows_refl].
  - intros s1 s2 s3 [H12 T12] [H23 T23]. split; [congruence|].
    eapply trace_grows_trans; eassumption.
Qed.

Lemma before_finish_keeps {A} Rq (P : Event -> Prop) (m : M A) :
  (forall ev, P ev -> not_finished ev) ->
  keeps Rq P m -> preserves before_finish m.
Proof.
  intros HP Hm s. destruct (Hm s) as [_ Hr _ _ _ (evs & Ht & Hevs)].
  split; [exact Hr|]. exists evs. split; [exact Ht|].
  eapply Forall_impl; [exact Hevs | exact HP].
Qed.

Lemma job_not_finished ev : kind_job ev -> not_finished ev.
Proof. destruct ev; simpl; tauto. Qed.

Lemma hook_not_finished ev : kind_hook ev -> not_finished ev.
Proof. destruct ev; simpl; tauto. Qed.

Lemma before_finish_modify f :
  (forall q, _running (f q) = _running q) -> preserves before_finish (modify_obj f).
Proof. intros Hf s. split; [apply Hf | apply trace_grows_refl]. Qed.

Lemma before_finish_progress : preserves before_finish (bus_async_fire EVENT_PROGRESS).
Proof.
  intros s. unfold bus_async_fire, bind, get_obj, emit. cbn [fst snd obj trace].
  split; [reflexivity|]. eexists. split; [reflexivity|].
  constructor; [|constructor]. cbn. discriminate.
Qed.

Lemma before_finish_stop_addon : preserves before_finish _stop_addon.
Proof.
  pose proof (fun slug => before_finish_keeps eq _ _ hook_not_finished
                            (keeps_async_get_addon_info eq slug)).
  pose proof (fun slug => before_finish_keeps eq _ _ hook_not_finished
                            (keeps_async_stop_addon eq slug)).
  pose proof (fun d => before_finish_keeps eq _ _ hook_not_finished
                         (keeps_hook_sleep eq d)).
  assert (forall b, preserves before_finish (modify_obj (set_addon_was_running b)))
    by (intros; apply before_finish_modify; reflexivity).
  unfold _stop_addon.
  repeat keeps_step; auto.
Qed.

Lemma before_finish_loop_body n i : preserves before_finish (loop_body n i).
Proof.
  pose proof (before_finish_keeps _ _ _ job_not_finished (keeps_update_single i)).
  pose proof before_finish_progress.
  pose proof (fun d => before_finish_keeps eq _ _ job_not_finished (keeps_job_sleep eq d)).
  assert (forall f, preserves before_finish (item_set i f))
    by (intros; apply before_finish_modify; reflexivity).
  assert (preserves before_finish (modify_obj (set_current_index i)))
    by (apply before_finish_modify; reflexivity).
  unfold loop_body, wait_for_cancel_or_timeout.
  repeat keeps_step; auto.
Qed.

Lemma before_finish_on_cancelled : preserves before_finish on_cancelled.
Proof. intros s. split; [reflexivity | apply trace_grows_refl]. Qed.

Lemma before_finish_run_body : preserves before_finish run_body.
Proof.
  pose proof before_finish_stop_addon. pose proof before_finish_on_cancelled.
  assert (forall n idxs, preserves before_finish (for_each idxs (loop_body n))).
  { intros. apply preserves_for_each; [exact _|]. intros. apply before_finish_loop_body. }
  unfold run_body.
  repeat keeps_step; auto.
Qed.

(** The body of the run swallows the cancellation: it returns, is still
    suspended, or ends with the error of the pre-hook. *)
Lemma run_body_outcome s :
  fst (run_body s) = Ret tt \/ fst (run_body s) = Suspended
  \/ exists msg, fst (run_body s) = Raise (Exception msg).
Proof.
  unfold run_body, try_except.
  destruct ((_stop_addon ;;
             q <- get_obj ;;
             let n := length (_queue q) in
             for_each (seq 0 n) (loop_body n)) s) as [[[]|[|msg]|] s1].
  - left. reflexivity.
  - left. reflexivity.
  - right. right. exists msg. reflexivity.
  - right. left. reflexivity.
Qed.

Lemma run_cleanup_outcome s :
  match run_cleanup s with
  | (Ret _, s') =>
      _running (obj s') = false
      /\ exists s1, before_finish s s1
           /\ trace s' = trace s1 ++ [EvFire EVENT_FINISHED (results (obj s'))
                                        (summary (obj s'))]
  | (_, s') => before_finish s s'
  end.
Proof.
  assert (Hpre : preserves before_finish
                   (try_except _restart_addon
                      (fun err => match err with
                                  | Exception _ => Some (ret tt)
                                  | CancelledError => None
                                  end))).
  { pose proof (before_finish_keeps eq _ _ hook_not_finished (keeps_restart_addon eq)).
    repeat keeps_step; auto. }
  specialize (Hpre s). unfold run_cleanup. unfold bind at 1.
  destruct (try_except _restart_addon _ s) as [[[]|e|] s1]; cbn [snd] in Hpre.
  - cbn. split; [reflexivity|]. exists s1. split; [exact Hpre | reflexivity].
  - exact Hpre.
  - exact Hpre.
Qed.

Lemma run_unfold s : _run s = try_finally run_body run_cleanup s.
Proof. reflexivity. Qed.

(** X6. The finished event closes the run, and nothing else does.  When
    [_run] comes to its end (it returns, or re-raises the error of the
    pre-hook) the run flag has been cleared and the last thing on the bus
    is the finished event, carrying the final results and summary; no
    finished event was fired before it.  While [_run] has not come to its
    end (it is suspended, or was cancelled inside the post-hook) the run
    flag is as [start] left it and no finished event has been fired. *)
Theorem finished_event_closes_the_run (s : Sys) :
  (fst (_run s) = Ret tt \/ (exists msg, fst (_run s) = Raise (Exception msg)) ->
   _running (obj (snd (_run s))) = false
   /\ exists evs,
        trace (snd (_run s))
        = trace s ++ evs ++ [EvFire EVENT_FINISHED (results (obj (snd (_run s))))
                                                   (summary (obj (snd (_run s))))]
        /\ Forall not_finished evs)
  /\ (fst (_run s) = Suspended \/ fst (_run s) = Raise CancelledError ->
      _running (obj (snd (_run s))) = _running (obj s)
      /\ exists evs, trace (snd (_run s)) = trace s ++ evs /\ Forall not_finished evs).
Proof.
  rewrite run_unfold. unfold try_finally.
  pose proof (before_finish_run_body s) as Hb.
  pose proof (run_body_outcome s) as Ho.
  destruct (run_body s) as [r1 s1]. cbn [fst snd] in Hb, Ho.
  assert (Hend : r1 = Ret tt \/ (exists msg, r1 = Raise (Exception msg)) ->
                 match r1 with Suspended => False | _ => True end
                 /\ r1 <> Raise CancelledError).
  { intros [-> | (msg & ->)]; split; try exact I; discriminate. }
  destruct Ho as [Ho | [-> | Ho]].
  - destruct (Hend (or_introl Ho)) as [_ Hnc]. subst r1.
    pose proof (run_cleanup_outcome s1) as Hc.
    pose proof (no_error_run_cleanup s1) as Hne.
    destruct (run_cleanup s1) as [[[]|[|msg]|] s2]; cbn [fst snd] in *.
    + split; [intros _ | intros [H|H]; discriminate H].
      destruct Hc as (Hrun & s1' & Hbf & Ht). split; [exact Hrun|].
      destruct (transitivity Hb Hbf) as (_ & evs & Hevs & Hnf).
      exists evs. split; [|exact Hnf]. rewrite Ht, Hevs, <- app_assoc. reflexivity.
    + split; [intros [H|(m & H)]; discriminate H | intros _].
      exact (transitivity Hb Hc).
    + exfalso. apply (Hne msg). reflexivity.
    + split; [intros [H|(m & H)]; discriminate H | intros _].
      exact (transitivity Hb Hc).
  - cbn [fst snd]. split; [intros [H|(m & H)]; discriminate H | intros _; exact Hb].
  - destruct Ho as (msg1 & ->).
    pose proof (run_cleanup_outcome s1) as Hc.
    pose proof (no_error_run_cleanup s1) as Hne.
    destruct (run_cleanup s1) as [[[]|[|msg]|] s2]; cbn [fst snd] in *.
    + split; [intros _ | intros [H|H]; discriminate H].
      destruct Hc as (Hrun & s1' & Hbf & Ht). split; [exact Hrun|].
      destruct (transitivity Hb Hbf) as (_ & evs & Hevs & Hnf).
      exists evs. split; [|exact Hnf]. rewrite Ht, Hevs, <- app_assoc. reflexivity.
    + split; [intros [H|(m & H)]; discriminate H | intros _].
      exact (transitivity Hb Hc).
    + exfalso. apply (Hne msg). reflexivity.
    + split; [intros [H|(m & H)]; discriminate H | intros _].
      exact (transitivity Hb Hc).
Qed.

Lemma finished_event_closes_the_run_witness :
  (_running (obj (snd (_run cancelled_during_wait))) = false
   /\ exists evs,
        trace (snd (_run cancelled_during_wait))
        = trace cancelled_during_wait
          ++ evs ++ [EvFire EVENT_FINISHED
                       (results (obj (snd (_run cancelled_during_wait))))
                       (summary (obj (snd (_run cancelled_during_wait))))]
        /\ Forall not_finished evs)
  /\ (_running (obj (snd (_run unreadable_info))) = false
      /\ exists evs,
           trace (snd (_run unreadable_info))
           = trace unreadable_info
             ++ evs ++ [EvFire EVENT_FINISHED
                          (results (obj (snd (_run unreadable_info))))
                          (summary (obj (snd (_run unreadable_info))))]
           /\ Forall not_finished evs)
  /\ (_running (obj (snd (_run cancelled_during_restart))) = true
      /\ exists evs,
           trace (snd (_run cancelled_during_restart))
           = trace cancelled_during_restart ++ evs
           /\ Forall not_finished evs).
Proof.
  split; [|split].
  - apply (proj1 (finished_event_closes_the_run cancelled_during_wait)).
    left. vm_compute. reflexivity.
  - apply (proj1 (finished_event_closes_the_run unreadable_info)).
    right. eexists. vm_compute. reflexivity.
  - apply (proj2 (finished_event_closes_the_run cancelled_during_restart)).
    right. vm_compute. reflexivity.
Defined.

(** ** The jobs of a run that has returned *)

Lemma carries_known_update_single i :
  preserves (carries (every_item has_known_status)) (_update_single i).
Proof.
  assert (Hst : forall st, known_status st ->
                  preserves (carries (every_item has_known_status))
                    (item_set i (with_status st))).
  { intros st Hk. apply carries_item_set. intros it _. exact Hk. }
  assert (He : forall e, preserves (carries (every_item has_known_status))
                           (item_set i (with_error e))).
  { intros e. apply carries_item_set. intros it H. exact H. }
  assert (Hf : forall t, preserves (carries (every_item has_known_status))
                           (item_set i (with_finished_at t))).
  { intros e. apply carries_item_set. intros it H. exact H. }
  assert (Hb : forall t, preserves (carries (every_item has_known_status))
                           (item_set i (with_started_at t))).
  { intros e. apply carries_item_set. intros it H. exact H. }
  assert (K1 : known_status STATUS_RUNNING) by (right; left; reflexivity).
  assert (K2 : known_status STATUS_SKIPPED)
    by (right; right; right; right; left; reflexivity).
  assert (K3 : known_status STATUS_FAILED)
    by (right; right; right; left; reflexivity).
  assert (K4 : known_status STATUS_SUCCESS) by (right; right; left; reflexivity).
  assert (K5 : known_status STATUS_CANCELLED)
    by (right; right; right; right; right; reflexivity).
  pose proof (fun eid t => carries_drifts has_known_status _ _
                (keeps_drifts _ _ _ (keeps_job_wait_for_completion eq eid t))).
  pose proof (fun eid => carries_drifts has_known_status _ _
                (keeps_drifts _ _ _ (keeps_job_states_get eq eid))).
  pose proof (fun eid => carries_drifts has_known_status _ _
                (keeps_drifts _ _ _ (keeps_is_entity_available eq eid))).
  pose proof (fun eid => carries_drifts has_known_status _ _
                (keeps_drifts _ _ _ (keeps_async_call_install eq eid))).
  unfold _update_single.
  repeat keeps_step; auto.
Qed.

Lemma carries_known_loop_body n i :
  preserves (carries (every_item has_known_status)) (loop_body n i).
Proof.
  pose proof (carries_known_update_single i).
  assert (Hfire : forall ty, preserves (carries (every_item has_known_status))
                               (bus_async_fire ty)).
  { intros. eapply carries_drifts, keeps_drifts, (keeps_bus_async_fire eq). }
  assert (Hsl : forall d, preserves (carries (every_item has_known_status))
                            (asyncio_sleep d)).
  { intros. eapply carries_drifts, keeps_drifts, (keeps_batch_sleep eq). }
  assert (Hidx : preserves (carries (every_item has_known_status))
                   (modify_obj (set_current_index i))).
  { eapply carries_drifts, keeps_drifts, (keeps_set_current_index eq kind_any). }
  assert (Hc : preserves (carries (every_item has_known_status))
                 (item_set i (with_status STATUS_CANCELLED))).
  { apply carries_item_set. intros it _.
    right; right; right; right; right; reflexivity. }
  unfold loop_body, wait_for_cancel_or_timeout.
  repeat keeps_step; auto.
Qed.

Lemma carries_known_batch :
  preserves (carries (every_item has_known_status))
    (_stop_addon ;;
     q <- get_obj ;;
     let n := length (_queue q) in
     for_each (seq 0 n) (loop_body n)).
Proof.
  pose proof (carries_drifts has_known_status _ _ (drifts_stop_addon eq)).
  assert (forall n idxs, preserves (carries (every_item has_known_status))
                           (for_each idxs (loop_body n))).
  { intros. apply preserves_for_each; [exact _|]. intros. apply carries_known_loop_body. }
  repeat keeps_step; auto.
Qed.

Lemma cancel_item_settles now it :
  has_known_status it -> settled (status (cancel_item now it)).
Proof.
  unfold has_known_status, known_status, cancel_item.
  intros [H|[H|H]]; rewrite ?H; cbn.
  - right; right; right; reflexivity.
  - right; right; right; reflexivity.
  - destruct (String.eqb (status it) STATUS_QUEUED);
      [right; right; right; reflexivity|].
    destruct (String.eqb (status it) STATUS_RUNNING);
      [right; right; right; reflexivity | exact H].
Qed.

Lemma on_cancelled_settles s :
  every_item has_known_status s ->
  fst (on_cancelled s) = Ret tt
  /\ forall k, settled_before k (snd (on_cancelled s)).
Proof.
  intros Hk. split; [reflexivity|]. intros k j it _.
  cbn [on_cancelled bind datetime_now modify_obj snd fst obj set_queue _queue].
  rewrite list_lookup_fmap.
  destruct (_queue (obj s) !! j) as [x|] eqn:Hj; simpl; [|discriminate].
  intros [= <-]. apply cancel_item_settles. eapply Hk. eassumption.
Qed.

Lemma loop_body_settles n k s :
  (k < length (_queue (obj s)))%nat -> settled_before k s ->
  wp (loop_body n k)
     (fun r s' => length (_queue (obj s')) = length (_queue (obj s))
                  /\ (r = Ret tt -> settled_before (S k) s')) s.
Proof.
  intros Hk Hs.
  destruct (_cancelled (obj s)) eqn:Hc.
  - unfold wp. rewrite (loop_body_cancelled n k s Hc).
    cbn [fst snd obj set_queue _queue]. split; [apply length_alter|].
    intros _ j it Hj. cbn [obj set_queue _queue].
    destruct (decide (j = k)) as [->|Hne].
    + rewrite list_lookup_alter_eq.
      destruct (_queue (obj s) !! k); simpl; [|discriminate].
      intros [= <-]. right; right; right; reflexivity.
    + rewrite list_lookup_alter_ne by congruence. apply Hs. lia.
  - unfold loop_body. apply wp_bind, wp_run. cbn [modify_obj fst snd].
    apply wp_bind, wp_run. cbn [cancelled_flag fst snd obj set_current_index _cancelled].
    rewrite Hc. apply wp_bind.
    set (s0 := mkSys (set_current_index k (obj s)) (world s) (trace s)).
    destruct (lookup_lt_is_Some_2 (_queue (obj s)) k Hk) as [it Hit].
    pose proof (keeps_update_single k s0) as [Hse _ _ _ _ _].
    pose proof (update_single_item k s0 it Hit) as Hpost.
    unfold wp in Hpost. unfold wp at 1.
    destruct (_update_single k s0) as [r1 s1]. cbn [fst snd] in *.
    destruct Hpost as (it' & Hit' & _ & _ & Hout).
    cbn [s0 obj set_current_index _queue] in Hse.
    destruct r1 as [[]|[|msg]|]; cbn [job_outcome] in Hout.
    + apply wp_bind, wp_run. unfold bus_async_fire, bind, get_obj, emit.
      cbn [fst snd obj world trace].
      eapply wp_preserves; [apply keeps_pause_part|].
      intros r3 s3 [Hq3 _ _ _ _ _]. cbn [obj] in Hq3.
      unfold settled_before. rewrite <- Hq3. split; [apply Hse|].
      intros _ j x Hj. destruct (decide (j = k)) as [->|Hne].
      * rewrite Hit'. intros [= <-]. destruct Hout as (_ & Hst).
        unfold settled. destruct Hst as [H|[H|[H|(H & _)]]]; rewrite H; auto.
      * rewrite (proj2 Hse) by exact Hne. apply Hs. lia.
    + split; [apply Hse | discriminate].
    + contradiction.
    + split; [apply Hse | discriminate].
Qed.

Lemma batch_settles n m :
  forall k s, (k + m <= length (_queue (obj s)))%nat -> settled_before k s ->
  wp (for_each (seq k m) (loop_body n))
     (fun r s' => length (_queue (obj s')) = length (_queue (obj s))
                  /\ (r = Ret tt -> settled_before (k + m) s')) s.
Proof.
  induction m as [|m IH]; intros k s Hkm Hs.
  - apply wp_run. cbn. split; [reflexivity|]. intros _.
    replace (k + 0)%nat with k by lia. exact Hs.
  - cbn [seq for_each]. apply wp_bind.
    eapply wp_mono; [apply (loop_body_settles n k s); [lia | exact Hs]|].
    intros [[]|e|] s' (Hlen & H); [|split; [exact Hlen | discriminate] ..].
    eapply wp_mono; [apply (IH (S k) s'); [rewrite Hlen; lia | apply H; reflexivity]|].
    intros r s'' (Hlen' & H'). split; [congruence|].
    replace (k + S m)%nat with (S k + m)%nat by lia. exact H'.
Qed.

(** When the body of the run returns, every job is over. *)
Lemma run_body_settles s :
  every_item has_known_status s ->
  fst (run_body s) = Ret tt ->
  forall it, it ∈ _queue (obj (snd (run_body s))) -> settled (status it).
Proof.
  intros Hk.
  assert (Hres : forall r s', run_body s = (r, s') -> r = Ret tt ->
                   settled_before (length (_queue (obj s'))) s').
  { unfold run_body, try_except.
    pose proof (carries_known_batch s Hk) as Hk1.
    assert (Hb : wp (_stop_addon ;;
                     q <- get_obj ;;
                     let n := length (_queue q) in
                     for_each (seq 0 n) (loop_body n))
                   (fun r s' => r = Ret tt ->
                                settled_before (length (_queue (obj s'))) s') s).
    { apply wp_bind. unfold wp at 1.
      destruct (_stop_addon s) as [[[]|e|] s1]; cbn [fst snd]; try discriminate.
      apply wp_bind, wp_run. cbn [get_obj fst snd].
      eapply wp_mono;
        [apply (batch_settles (length (_queue (obj s1))) (length (_queue (obj s1)))
                  0 s1); [lia | intros j it Hj; lia]|].
      intros r s' (Hlen & H) Hr. rewrite Hlen. apply H, Hr. }
    unfold wp in Hb.
    destruct ((_stop_addon ;;
               q <- get_obj ;;
               let n := length (_queue q) in
               for_each (seq 0 n) (loop_body n)) s) as [[[]|[|msg]|] s1];
      cbn [fst snd] in *.
    - intros r s' [= <- <-] _. apply Hb. reflexivity.
    - intros r s' Hc _. destruct (on_cancelled_settles s1 Hk1) as (_ & Hall).
      rewrite Hc in Hall. apply Hall.
    - intros r s' [= <- <-]. discriminate.
    - intros r s' [= <- <-]. discriminate. }
  intros Hr it Hin. apply list_elem_of_lookup in Hin as (j & Hj).
  eapply (Hres _ _ (surjective_pairing _) Hr j); [|exact Hj].
  eapply lookup_lt_Some. exact Hj.
Qed.

Lemma run_settles s :
  every_item has_known_status s ->
  fst (_run s) = Ret tt ->
  forall it, it ∈ _queue (obj (snd (_run s))) -> settled (status it).
Proof.
  intros Hk. rewrite run_unfold. unfold try_finally.
  pose proof (run_body_settles s Hk) as Hb.
  destruct (run_body s) as [[[]|e|] s1]; cbn [fst snd] in Hb.
  - pose proof (drifts_run_cleanup eq s1) as [Hq _ _ _].
    destruct (run_cleanup s1) as [[[]|e|] s2]; cbn [fst snd] in *; try discriminate.
    intros _. rewrite <- Hq. apply Hb. reflexivity.
  - destruct (run_cleanup s1) as [[[]|e'|] s2]; discriminate.
  - discriminate.
Qed.

(** X7. When a run has returned, no job is left Queued or Running: every
    row of the results is Success, Failed, Skipped or Cancelled, however
    the run went. *)
Theorem returned_run_leaves_no_job_open
    (entity_ids : list string) (slug : option string) (q : UpdateQueue)
    (w : World) (tr : list Event) :
  _running q = false ->
  fst (_run (mkSys (snd (start entity_ids slug q)) w tr)) = Ret tt ->
  forall row,
    row ∈ results (obj (snd (_run (mkSys (snd (start entity_ids slug q)) w tr)))) ->
    settled (row_status row).
Proof.
  intros Hidle Hret row Hin. unfold results in Hin.
  apply list_elem_of_fmap in Hin as (it & -> & Hin).
  eapply run_settles; [|exact Hret|exact Hin].
  intros j x. unfold start. rewrite Hidle. cbn [snd obj _queue].
  rewrite list_lookup_fmap. destruct (entity_ids !! j); simpl; [|discriminate].
  intros [= <-]. left. reflexivity.
Qed.

Lemma returned_run_leaves_no_job_open_witness :
  fst (_run cancelled_during_wait) = Ret tt
  /\ Forall (fun row => settled (row_status row))
            (results (obj (snd (_run cancelled_during_wait)))).
Proof.
  split; [vm_compute; reflexivity|]. apply Forall_forall.
  apply (returned_run_leaves_no_job_open ["update.kitchen"; "update.porch"] None
           UpdateQueue_init (world cancelled_during_wait) []).
  - reflexivity.
  - vm_compute. reflexivity.
Defined.

(** ** The service calls of a run *)

Lemma update_single_enters i s :
  _update_single i s
  = job_body i (default (new_item EmptyString) (_queue (obj (job_entered i s)) !! i))
      (job_entered i s).
Proof. reflexivity. Qed.

Lemma job_entered_item i s it :
  _queue (obj s) !! i = Some it ->
  _queue (obj (job_entered i s)) !! i
  = Some (mkItem (entity_id it) STATUS_RUNNING (Some (wall_clock (world s)))
                 (finished_at it) (error it))
  /\ trace (job_entered i s) = trace s
  /\ world (job_entered i s) = world s
  /\ _cancelled (obj (job_entered i s)) = _cancelled (obj s).
Proof.
  intros Hit. unfold job_entered.
  cbn [item_set modify_obj bind datetime_now fst snd obj world trace set_queue
       _queue _cancelled].
  split; [|repeat split].
  rewrite !list_lookup_alter_eq, Hit. reflexivity.
Qed.

Lemma service_calls_app tr tr' :
  service_calls (tr ++ tr') = service_calls tr ++ service_calls tr'.
Proof. unfold service_calls. apply flat_map_app. Qed.

Lemma service_calls_none evs : Forall no_call evs -> service_calls evs = [].
Proof.
  induction 1 as [|ev evs Hev _ IH]; [reflexivity|].
  cbn [service_calls flat_map]. fold (service_calls evs). rewrite IH.
  destruct ev; simpl in *; try reflexivity. contradiction.
Qed.

#[local] Instance quiet_calls_preorder : PreOrder quiet_calls.
Proof.
  split; unfold quiet_calls; [intros s; reflexivity|].
  intros s1 s2 s3 H12 H23. congruence.
Qed.

Lemma quiet_calls_keeps {A} Rq (P : Event -> Prop) (m : M A) :
  (forall ev, P ev -> no_call ev) -> keeps Rq P m -> preserves quiet_calls m.
Proof.
  intros HP Hm s. destruct (Hm s) as [_ _ _ _ _ (evs & Ht & Hevs)].
  unfold quiet_calls. rewrite Ht, service_calls_app, (service_calls_none evs).
  - apply app_nil_r.
  - eapply Forall_impl; [exact Hevs | exact HP].
Qed.

Lemma quiet_calls_drifts {A} Rq (P : Event -> Prop) (m : M A) :
  (forall ev, P ev -> no_call ev) -> drifts Rq P m -> preserves quiet_calls m.
Proof.
  intros HP Hm s. destruct (Hm s) as [_ _ _ (evs & Ht & Hevs)].
  unfold quiet_calls. rewrite Ht, service_calls_app, (service_calls_none evs).
  - apply app_nil_r.
  - eapply Forall_impl; [exact Hevs | exact HP].
Qed.

Lemma poll_no_call ev : kind_poll ev -> no_call ev.
Proof. destruct ev; simpl; tauto. Qed.

Lemma hook_no_call ev : kind_hook ev -> no_call ev.
Proof. destruct ev; simpl; tauto. Qed.

Lemma quiet_calls_modify f : preserves quiet_calls (modify_obj f).
Proof. intros s. reflexivity. Qed.

Lemma quiet_calls_fire ty : preserves quiet_calls (bus_async_fire ty).
Proof.
  intros s. unfold quiet_calls, bus_async_fire, bind, get_obj, emit.
  cbn [fst snd trace]. rewrite service_calls_app. apply app_nil_r.
Qed.

#[local] Hint Resolve quiet_calls_modify quiet_calls_fire : coro.
#[local] Hint Extern 1 (preserves quiet_calls (item_set _ _)) =>
  apply quiet_calls_modify : coro.

(** Sequencing a part that may call a service with parts that do not. *)
Section Burst.
Variable R : relation Sys.
Hypothesis quiet_is_R : forall s1 s2, quiet_calls s1 s2 -> R s1 s2.
Hypothesis R_then_quiet : forall s1 s2 s3, R s1 s2 -> quiet_calls s2 s3 -> R s1 s3.
Hypothesis quiet_then_R : forall s1 s2 s3, quiet_calls s1 s2 -> R s2 s3 -> R s1 s3.

Lemma burst_bind_first {A B} (m : M A) (k : A -> M B) s :
  R s (snd (m s)) -> (forall a, preserves quiet_calls (k a)) ->
  R s (snd (bind m k s)).
Proof.
  intros Hm Hk. unfold bind.
  destruct (m s) as [[a|e|] s1]; cbn [snd] in *; [|exact Hm ..].
  eapply R_then_quiet; [exact Hm | apply Hk].
Qed.

Lemma burst_bind_second {A B} (m : M A) (k : A -> M B) s :
  quiet_calls s (snd (m s)) ->
  (forall a s1, m s = (Ret a, s1) -> R s1 (snd (k a s1))) ->
  R s (snd (bind m k s)).
Proof.
  intros Hm Hk. unfold bind.
  destruct (m s) as [[a|e|] s1]; cbn [snd] in *;
    [|apply quiet_is_R; exact Hm ..].
  eapply quiet_then_R; [exact Hm | apply Hk; reflexivity].
Qed.

Lemma burst_try_except {A} (body : M A) handler s :
  R s (snd (body s)) ->
  (forall e h, handler e = Some h -> preserves quiet_calls h) ->
  R s (snd (try_except body handler s)).
Proof.
  intros Hb Hh. unfold try_except.
  destruct (body s) as [[a|e|] s1]; cbn [snd] in *; try exact Hb.
  destruct (handler e) as [h|] eqn:He; [|exact Hb].
  eapply R_then_quiet; [exact Hb | eapply Hh; exact He].
Qed.

Lemma burst_try_finally {A} (body : M A) fin s :
  R s (snd (body s)) -> preserves quiet_calls fin ->
  R s (snd (try_finally body fin s)).
Proof.
  intros Hb Hf. unfold try_finally.
  destruct (body s) as [[a|e|] s1]; cbn [snd] in *; try exact Hb;
    specialize (Hf s1); destruct (fin s1) as [[[]|e'|] s2]; cbn [snd] in *;
    eapply R_then_quiet; eassumption.
Qed.
End Burst.

Lemma quiet_is_once eid s1 s2 : quiet_calls s1 s2 -> calls_at_most eid s1 s2.
Proof. intros H. left. exact H. Qed.

Lemma once_then_quiet eid s1 s2 s3 :
  calls_at_most eid s1 s2 -> quiet_calls s2 s3 -> calls_at_most eid s1 s3.
Proof. unfold quiet_calls, calls_at_most. intros H ->. exact H. Qed.

Lemma quiet_then_once eid s1 s2 s3 :
  quiet_calls s1 s2 -> calls_at_most eid s2 s3 -> calls_at_most eid s1 s3.
Proof. unfold quiet_calls, calls_at_most. intros <-. auto. Qed.

Ltac once_rule lem :=
  eapply (lem (calls_at_most _));
  try exact (quiet_is_once _); try exact (once_then_quiet _);
  try exact (quiet_then_once _).

Lemma once_install eid s : calls_at_most eid s (snd (async_call_install eid s)).
Proof.
  assert (Hrest : preserves quiet_calls
                    (wk <- await_host ;;
                     match wk_raise wk with
                     | Some e => raise e
                     | None => ret tt
                     end)).
  { apply (quiet_calls_keeps eq kind_poll); [apply poll_no_call|].
    unfold await_host. repeat keeps_step. }
  unfold async_call_install. unfold bind at 1, emit at 1.
  eapply once_then_quiet; [|apply Hrest].
  right. cbn [trace]. rewrite service_calls_app. reflexivity.
Qed.

Lemma once_job_body i item s :
  calls_at_most (entity_id item) s (snd (job_body i item s)).
Proof.
  pose proof (quiet_calls_keeps eq _ _ poll_no_call
                (keeps_states_get eq (entity_id item))) as Hget.
  pose proof (fun t => quiet_calls_keeps eq _ _ poll_no_call
                (keeps_wait_for_completion eq (entity_id item) t)) as Hwait.
  assert (Havail : preserves quiet_calls (_is_entity_available (entity_id item))).
  { unfold _is_entity_available. repeat keeps_step; auto. }
  unfold job_body.
  once_rule @burst_try_finally; [|repeat keeps_step; auto].
  once_rule @burst_try_except;
    [|intros [|msg] h [= <-]; repeat keeps_step; auto].
  once_rule @burst_bind_second; [apply Havail|]. intros avail s1 _.
  destruct (negb avail).
  { apply quiet_is_once. revert s1.
    change (preserves quiet_calls
              (item_set i (with_status STATUS_SKIPPED) ;;
               item_set i (with_error (Some "Device unavailable — skipped")) ;;
               now <- datetime_now ;;
               item_set i (with_finished_at (Some now)))).
    repeat keeps_step; auto. }
  once_rule @burst_bind_first.
  - once_rule @burst_try_except.
    + once_rule @burst_bind_first; [apply once_install|]. intros _. keeps_step.
    + intros [|msg] h [= <-]. repeat keeps_step; auto.
  - intros installed. repeat keeps_step; auto.
Qed.

Lemma once_update_single i s it :
  _queue (obj s) !! i = Some it ->
  calls_at_most (entity_id it) s (snd (_update_single i s)).
Proof.
  intros Hit. rewrite update_single_enters.
  destruct (job_entered_item i s it Hit) as (Hitem & Htr & _).
  rewrite Hitem. cbn [default].
  eapply quiet_then_once; [|apply (once_job_body i (mkItem (entity_id it) _ _ _ _))].
  unfold quiet_calls. rewrite Htr. reflexivity.
Qed.

Lemma once_loop_body n k s it :
  _queue (obj s) !! k = Some it ->
  calls_at_most (entity_id it) s (snd (loop_body n k s)).
Proof.
  intros Hit.
  pose proof (quiet_calls_keeps eq _ _ poll_no_call
                (keeps_asyncio_sleep eq DEFAULT_DELAY_BETWEEN)) as Hsleep.
  unfold loop_body, wait_for_cancel_or_timeout.
  once_rule @burst_bind_second; [apply quiet_calls_modify|].
  intros [] s0 [= <-].
  once_rule @burst_bind_second; [reflexivity|].
  intros c s1 [= _ <-].
  destruct c.
  - apply quiet_is_once. apply quiet_calls_modify.
  - once_rule @burst_bind_first; [|intros _; repeat keeps_step; auto].
    apply (once_update_single k _ it). exact Hit.
Qed.

Lemma quiet_is_within ids s1 s2 : quiet_calls s1 s2 -> calls_within ids s1 s2.
Proof.
  intros H. exists []. split; [|apply sublist_nil_l].
  rewrite H. symmetry. apply app_nil_r.
Qed.

Lemma within_then_quiet ids s1 s2 s3 :
  calls_within ids s1 s2 -> quiet_calls s2 s3 -> calls_within ids s1 s3.
Proof. unfold quiet_calls, calls_within. intros H ->. exact H. Qed.

Lemma quiet_then_within ids s1 s2 s3 :
  quiet_calls s1 s2 -> calls_within ids s2 s3 -> calls_within ids s1 s3.
Proof. unfold quiet_calls, calls_within. intros <-. auto. Qed.

Ltac within_rule lem :=
  eapply (lem (calls_within _));
  try exact (quiet_is_within _); try exact (within_then_quiet _);
  try exact (quiet_then_within _).

Lemma batch_calls n m :
  forall k s,
    (k + m <= length (_queue (obj s)))%nat ->
    calls_within (take m (drop k (entity_id <$> _queue (obj s))))
      s (snd (for_each (seq k m) (loop_body n) s)).
Proof.
  induction m as [|m IH]; intros k s Hkm.
  - apply quiet_is_within. reflexivity.
  - cbn [seq for_each].
    destruct (lookup_lt_is_Some_2 (_queue (obj s)) k ltac:(lia)) as [it Hit].
    pose proof (once_loop_body n k s it Hit) as Hone.
    pose proof (keeps_targets_loop_body (entity_id <$> _queue (obj s)) n k s eq_refl)
      as (Hids & _).
    assert (Hdrop : take (S m) (drop k (entity_id <$> _queue (obj s)))
                    = entity_id it :: take m (drop (S k) (entity_id <$> _queue (obj s)))).
    { rewrite (drop_S _ (entity_id it) k); [reflexivity|].
      rewrite list_lookup_fmap, Hit. reflexivity. }
    rewrite Hdrop. unfold bind.
    destruct (loop_body n k s) as [[[]|e|] s1]; cbn [snd] in *.
    + assert (Hlen : length (_queue (obj s1)) = length (_queue (obj s))).
      { rewrite <- (length_fmap entity_id), Hids, length_fmap. reflexivity. }
      destruct (IH (S k) s1 ltac:(lia)) as (l & Hl & Hsub). rewrite Hids in Hsub.
      destruct Hone as [H0|H1].
      * exists l. split; [rewrite Hl, H0; reflexivity|]. apply sublist_cons_r. auto.
      * exists (entity_id it :: l). split; [|apply sublist_skip, Hsub].
        rewrite Hl, H1, <- app_assoc. reflexivity.
    + destruct Hone as [H0|H1].
      * exists []. split; [rewrite H0; symmetry; apply app_nil_r | apply sublist_nil_l].
      * exists [entity_id it]. split; [exact H1|].
        apply sublist_skip, sublist_nil_l.
    + destruct Hone as [H0|H1].
      * exists []. split; [rewrite H0; symmetry; apply app_nil_r | apply sublist_nil_l].
      * exists [entity_id it]. split; [exact H1|].
        apply sublist_skip, sublist_nil_l.
Qed.

Lemma quiet_calls_on_cancelled : preserves quiet_calls on_cancelled.
Proof. intros s. reflexivity. Qed.

Lemma quiet_calls_run_cleanup : preserves quiet_calls run_cleanup.
Proof.
  pose proof (quiet_calls_keeps eq _ _ hook_no_call (keeps_restart_addon eq)).
  unfold run_cleanup.
  repeat keeps_step; auto with coro.
Qed.

Lemma run_calls s :
  calls_within (entity_id <$> _queue (obj s)) s (snd (_run s)).
Proof.
  pose proof (quiet_calls_drifts eq _ _ hook_no_call (drifts_stop_addon eq)) as Hstop.
  unfold _run.
  within_rule @burst_try_finally; [|apply quiet_calls_run_cleanup].
  within_rule @burst_try_except;
    [|intros [|msg] h [= <-]; apply quiet_calls_on_cancelled].
  within_rule @burst_bind_second; [apply Hstop|]. intros [] s1 Hs1.
  assert (Hq : _queue (obj s1) = _queue (obj s)).
  { pose proof (drifts_stop_addon eq s) as [Hq _ _ _]. rewrite Hs1 in Hq.
    symmetry. exact Hq. }
  within_rule @burst_bind_second; [reflexivity|]. intros q s2 [= <- <-].
  rewrite <- Hq.
  pose proof (batch_calls (length (_queue (obj s1))) (length (_queue (obj s1))) 0 s1
                ltac:(lia)) as H.
  rewrite drop_0, firstn_all2 in H by (rewrite length_fmap; lia). exact H.
Qed.

(** X8. The only service a run ever calls is update.install, and only on
    the targets it was started with: at every point of the run the
    install calls made so far are calls on targets of the list, in the
    order of the list, at most one per job. *)
Theorem run_installs_each_target_at_most_once
    (entity_ids : list string) (slug : option string) (q : UpdateQueue)
    (w : World) (tr : list Event) :
  _running q = false ->
  exists done_so_far,
    service_calls (trace (snd (_run (mkSys (snd (start entity_ids slug q)) w tr))))
    = service_calls tr ++ ((fun e => (UPDATE_DOMAIN, "install", e)) <$> done_so_far)
    /\ sublist done_so_far entity_ids.
Proof.
  intros Hidle.
  destruct (run_calls (mkSys (snd (start entity_ids slug q)) w tr)) as (l & Hl & Hsub).
  exists l. split; [exact Hl|].
  revert Hsub. unfold start. rewrite Hidle. cbn [snd obj _queue].
  rewrite <- list_fmap_compose, list_fmap_id. auto.
Qed.

Lemma run_installs_each_target_at_most_once_witness :
  exists done_so_far,
    service_calls (trace (snd (_run cancelled_during_wait)))
    = service_calls [] ++ ((fun e => (UPDATE_DOMAIN, "install", e)) <$> done_so_far)
    /\ sublist done_so_far ["update.kitchen"; "update.porch"].
Proof.
  apply (run_installs_each_target_at_most_once ["update.kitchen"; "update.porch"]
           None UpdateQueue_init (world cancelled_during_wait) []).
  reflexivity.
Defined.

(** ** An add-on that is not named, or not running *)

Lemma supervisor_calls_app tr tr' :
  supervisor_calls (tr ++ tr') = supervisor_calls tr ++ supervisor_calls tr'.
Proof. unfold supervisor_calls. apply flat_map_app. Qed.

Lemma supervisor_calls_batch evs : Forall kind_batch evs -> supervisor_calls evs = [].
Proof.
  induction 1 as [|ev evs Hev _ IH]; [reflexivity|].
  cbn [supervisor_calls flat_map]. fold (supervisor_calls evs). rewrite IH.
  destruct ev; simpl in *; try reflexivity. contradiction.
Qed.

Lemma cleanup_without_restart s :
  truthy_slug (_stop_addon_slug (obj s)) = None
  \/ _addon_was_running (obj s) = false ->
  supervisor_calls (trace (snd (run_cleanup s))) = supervisor_calls (trace s).
Proof.
  intros H.
  assert (Hr : _restart_addon s = (Ret tt, s)).
  { unfold _restart_addon, bind, get_obj. cbn [fst snd].
    destruct (truthy_slug (_stop_addon_slug (obj s))) as [slug|]; [|reflexivity].
    destruct H as [H|H]; [discriminate|]. rewrite H. reflexivity. }
  unfold run_cleanup, try_except. unfold bind at 1. rewrite Hr.
  unfold bus_async_fire, bind, modify_obj, get_obj, emit. cbn [fst snd trace].
  rewrite supervisor_calls_app. apply app_nil_r.
Qed.

Lemma json_eq_text_true j text : json_eq_text j text = true -> j = JString text.
Proof.
  destruct j; try discriminate. cbn. intros H. apply String.eqb_eq in H. congruence.
Qed.

Lemma read_info_object result info :
  read_info result = Ret (JObject info) ->
  exists fields,
    result = JObject fields
    /\ dict_get fields "result" JNull = JString "ok"
    /\ dict_get fields "data" (JObject []) = JObject info.
Proof.
  unfold read_info. destruct (json_truthy result); [|discriminate].
  destruct result; try discriminate.
  destruct (json_eq_text (dict_get fields "result" JNull) "ok") eqn:E; [|discriminate].
  intros [= H]. exists fields. split; [reflexivity|].
  split; [apply json_eq_text_true, E | exact H].
Qed.

Lemma stop_addon_not_started s slug :
  truthy_slug (_stop_addon_slug (obj s)) = Some slug ->
  ~ next_says_started s ->
  supervisor_calls (trace (snd (_stop_addon s)))
  = supervisor_calls (trace s) ++ [("GET", "/addons/" +:+ slug +:+ "/info")]
  /\ _addon_was_running (obj (snd (_stop_addon s))) = _addon_was_running (obj s)
  /\ _stop_addon_slug (obj (snd (_stop_addon s))) = _stop_addon_slug (obj s).
Proof.
  intros Hslug Hnot.
  assert (H : exists r s', _stop_addon s = (r, s')
              /\ trace s' = trace s ++ [EvSupervisor "GET" ("/addons/" +:+ slug +:+ "/info")]
              /\ _addon_was_running (obj s') = _addon_was_running (obj s)
              /\ _stop_addon_slug (obj s') = _stop_addon_slug (obj s)).
  { unfold _stop_addon. unfold bind at 1, get_obj at 1. rewrite Hslug.
    destruct (get_addon_info_exchange slug s) as (_ & Ht1 & Hf1).
    pose proof (keeps_async_get_addon_info eq slug s) as [_ _ Hsl Hwas _ _].
    unfold bind at 1.
    destruct (async_get_addon_info slug s) as [[info|e|] s1]; cbn [fst snd] in *;
      [|eexists _, _; split; [reflexivity|]; auto ..].
    unfold bind at 1.
    destruct (json_truthy info) eqn:Htruthy;
      [|cbn [ret]; eexists _, _; split; [reflexivity|]; auto].
    unfold bind at 1. rewrite json_get_pure.
    destruct info as [| | | | | |fields];
      try (eexists _, _; split; [reflexivity|]; auto).
    cbn [ret].
    destruct (json_eq_text (dict_get fields "state" JNull) "started") eqn:Hstarted;
      [|eexists _, _; split; [reflexivity|]; auto].
    exfalso. apply Hnot.
    destruct (future (world s)) as [|wk rest] eqn:Hfut; [discriminate|].
    destruct Hf1 as [Hf1 _].
    exists wk, rest. split; [exact Hfut|].
    unfold answer in Hf1. unfold wake_says_started, wake_returns.
    destruct (wk_raise wk) as [[|msg]|]; [discriminate| |];
      (split; [discriminate|]);
      symmetry in Hf1; apply read_info_object in Hf1 as (f0 & E0 & Hres & Hdata);
      exists f0, fields; (split; [exact E0|]); (split; [exact Hres|]);
      (split; [exact Hdata|]); apply json_eq_text_true, Hstarted. }
  destruct H as (r & s' & -> & Ht & Hw & Hs). cbn [snd].
  rewrite Ht, supervisor_calls_app. auto.
Qed.

Lemma run_supervisor_calls s :
  exists s1 s3,
    s1 = snd (_stop_addon s)
    /\ _stop_addon_slug (obj s3) = _stop_addon_slug (obj s1)
    /\ _addon_was_running (obj s3) = _addon_was_running (obj s1)
    /\ supervisor_calls (trace s3) = supervisor_calls (trace s1)
    /\ (snd (_run s) = s3 \/ snd (_run s) = snd (run_cleanup s3)).
Proof.
  destruct (run_after_prehook s) as (s3 & [_ _ Hsl Hwas _ (evs & Ht & Hevs)] & _ & Hrun).
  exists (snd (_stop_addon s)), s3. split; [reflexivity|].
  split; [exact Hsl|]. split; [exact Hwas|]. split.
  - rewrite Ht, supervisor_calls_app, (supervisor_calls_batch evs Hevs).
    apply app_nil_r.
  - destruct Hrun as [[_ H] | [H _]]; auto.
Qed.

(** X9. An add-on that is not named, or that the Supervisor does not
    report as running, is left alone.  Without an add-on id (none, or the
    empty string) a run makes no Supervisor request at all.  With one,
    unless the answer to the first request says that the add-on is
    started, that request for the add-on's info is the only one of the
    whole run: the add-on is neither stopped nor started, whatever
    happens to the batch. *)
Theorem addon_not_running_is_left_alone
    (entity_ids : list string) (slug : option string) (q : UpdateQueue)
    (w : World) (tr : list Event) :
  _running q = false ->
  (truthy_slug slug = None ->
   supervisor_calls (trace (snd (_run (mkSys (snd (start entity_ids slug q)) w tr))))
   = supervisor_calls tr)
  /\ (forall name,
        truthy_slug slug = Some name ->
        ~ next_says_started (mkSys (snd (start entity_ids slug q)) w tr) ->
        supervisor_calls (trace (snd (_run (mkSys (snd (start entity_ids slug q)) w tr))))
        = supervisor_calls tr ++ [("GET", "/addons/" +:+ name +:+ "/info")]).
Proof.
  intros Hidle.
  set (s := mkSys (snd (start entity_ids slug q)) w tr).
  assert (Hsl0 : _stop_addon_slug (obj s) = slug)
    by (unfold s, start; rewrite Hidle; reflexivity).
  assert (Hwas0 : _addon_was_running (obj s) = false)
    by (unfold s, start; rewrite Hidle; reflexivity).
  destruct (run_supervisor_calls s) as (s1 & s3 & Hs1 & Hsl & Hwas & Hcalls & Hrun).
  split.
  - intros Hnone. rewrite <- Hsl0 in Hnone.
    rewrite (stop_addon_no_slug s Hnone) in Hs1. cbn [snd] in Hs1. subst s1.
    destruct Hrun as [-> | ->]; [exact Hcalls|].
    rewrite cleanup_without_restart; [exact Hcalls|].
    left. rewrite Hsl. exact Hnone.
  - intros name Hname Hnot. rewrite <- Hsl0 in Hname.
    destruct (stop_addon_not_started s name Hname Hnot) as (Hc1 & Hw1 & _).
    rewrite <- Hs1 in Hc1, Hw1.
    destruct Hrun as [-> | ->]; [rewrite Hcalls; exact Hc1|].
    rewrite cleanup_without_restart; [rewrite Hcalls; exact Hc1|].
    right. rewrite Hwas, Hw1. exact Hwas0.
Qed.

Lemma addon_not_running_is_left_alone_witness :
  supervisor_calls
    (trace (snd (_run (mkSys (snd (start ["update.kitchen"] (Some EmptyString)
                                         UpdateQueue_init))
                             (world cancelled_during_wait) []))))
  = []
  /\ supervisor_calls
       (trace (snd (_run (mkSys (snd (start ["update.kitchen"] (Some addon_slug)
                                            UpdateQueue_init))
                                (demo_world (Some (mkState "off" false))
                                   [supervisor_wake 1 (Some (mkState "off" false))
                                      (info_reply "stopped");
                                    plain_wake 2 (Some (mkState "off" false))])
                                []))))
     = [("GET", "/addons/a0d7b954_vscode/info")].
Proof.
  split.
  - apply (proj1 (addon_not_running_is_left_alone ["update.kitchen"]
                    (Some EmptyString) UpdateQueue_init
                    (world cancelled_during_wait) [] eq_refl)).
    reflexivity.
  - apply (proj2 (addon_not_running_is_left_alone ["update.kitchen"]
                    (Some addon_slug) UpdateQueue_init
                    (demo_world (Some (mkState "off" false))
                       [supervisor_wake 1 (Some (mkState "off" false))
                          (info_reply "stopped");
                        plain_wake 2 (Some (mkState "off" false))])
                    [] eq_refl) addon_slug eq_refl).
    intros (wk & rest & [= <- <-] & _ & fields & info & Hj & _ & Hd & Hst).
    vm_compute in Hj. injection Hj as <-. vm_compute in Hd.
    injection Hd as <-. vm_compute in Hst. discriminate Hst.
Defined.

(** * The completion waiter and the job routine *)

Lemma after_sleep {A} d (k : M A) s x s' :
  (asyncio_sleep d ;; k) s = (Ret x, s') -> exists s1, k s1 = (Ret x, s').
Proof.
  unfold bind at 1. destruct (asyncio_sleep d s) as [[[]|e|] s1]; try discriminate.
  intros H. exists s1. exact H.
Qed.

Ltac in_reasons :=
  eexists; split; [reflexivity|]; unfold waiter_reasons;
  repeat first [apply list_elem_of_here | apply list_elem_of_further].

Lemma wait_loop_verdict fuel eid end_time :
  forall since saw s v s',
    wait_loop fuel eid end_time since saw s = (Ret v, s') ->
    sound_verdict eid end_time v s'.
Proof.
  induction fuel as [|fuel IH]; intros since saw s v s' H; [discriminate|].
  cbn [wait_loop] in H. unfold bind at 1, loop_time at 1 in H. cbn [fst snd] in H.
  destruct (loop_clock (world s) <? end_time) eqn:Hclock; cbn [negb] in H.
  2:{ destruct saw; injection H as <- <-; in_reasons. }
  apply Z.ltb_lt in Hclock.
  unfold bind at 1, cancelled_flag at 1 in H. cbn [fst snd] in H.
  destruct (_cancelled (obj s)) eqn:Hc.
  { injection H as <- <-. in_reasons. }
  unfold bind at 1, states_get at 1 in H. unfold bind at 1, emit at 1 in H.
  cbn [fst snd obj world trace] in H.
  assert (Hrec : forall d since' saw' s0,
             (asyncio_sleep d ;; wait_loop fuel eid end_time since' saw') s0
             = (Ret v, s') -> sound_verdict eid end_time v s').
  { intros d since' saw' s0 H0. apply after_sleep in H0 as (s1 & H0).
    eapply IH. exact H0. }
  destruct (hass_states (world s) eid) as [st|] eqn:Hst.
  - destruct (String.eqb (state st) "unavailable").
    + destruct since as [since0|]; unfold bind at 1, loop_time at 1 in H;
        cbn [fst snd world] in H; [|eapply Hrec; exact H].
      destruct (_ >? _); [|eapply Hrec; exact H].
      destruct saw; injection H as <- <-; in_reasons.
    + destruct (negb (attr_in_progress st) && String.eqb (state st) "off") eqn:Hoff.
      * injection H as <- <-. cbn [sound_verdict obj world].
        apply andb_true_iff in Hoff as (Hp & Ho).
        apply negb_true_iff in Hp. apply String.eqb_eq in Ho.
        split; [reflexivity|]. split; [exact Hc|]. split; [exact Hclock|].
        exists st. auto.
      * destruct (negb (attr_in_progress st) && String.eqb (state st) "on").
        -- destruct (if attr_in_progress st then true else saw);
             eapply Hrec; exact H.
        -- eapply Hrec; exact H.
  - destruct since as [since0|]; unfold bind at 1, loop_time at 1 in H;
      cbn [fst snd world] in H; [|eapply Hrec; exact H].
    destruct (_ >? _); [|eapply Hrec; exact H].
    injection H as <- <-. in_reasons.
Qed.

Lemma waiter_verdict_sound_at eid timeout s v s' :
  _wait_for_completion eid timeout s = (Ret v, s') ->
  sound_verdict eid (loop_clock (world s) + timeout) v s'.
Proof.
  unfold _wait_for_completion. unfold bind at 1, loop_time at 1. cbn [fst snd].
  intros H. apply after_sleep in H as (s1 & H).
  unfold bind at 1, pending_wakes at 1 in H. cbn [fst snd] in H.
  exact (wait_loop_verdict _ _ _ _ _ _ _ _ H).
Qed.

(** X10. The verdicts of the completion waiter.  It reports success only
    at a poll, taken before its deadline and with the cancellation flag
    down, at which the target's state reads "off" with no update in
    progress, and then without a reason.  It never reports a failure
    without a reason, and the reason is one of six fixed texts, so that
    the fall-back text of the job routine is never needed. *)
Theorem waiter_verdicts_are_sound eid timeout s v s' :
  _wait_for_completion eid timeout s = (Ret v, s') ->
  match v with
  | (true, r) =>
      r = None
      /\ _cancelled (obj s') = false
      /\ loop_clock (world s') < loop_clock (world s) + timeout
      /\ exists st, hass_states (world s') eid = Some st
                    /\ state st = "off" /\ attr_in_progress st = false
  | (false, r) => exists reason, r = Some reason /\ reason ∈ waiter_reasons
  end.
Proof. intros H. exact (waiter_verdict_sound_at _ _ _ _ _ H). Qed.

Lemma waiter_verdicts_are_sound_witness :
  ((None : option string) = None
   /\ _cancelled (obj (snd (_wait_for_completion "update.kitchen"
                              DEFAULT_UPDATE_TIMEOUT updated_at_once))) = false
   /\ loop_clock (world (snd (_wait_for_completion "update.kitchen"
                                DEFAULT_UPDATE_TIMEOUT updated_at_once)))
      < loop_clock (world updated_at_once) + DEFAULT_UPDATE_TIMEOUT
   /\ exists st,
        hass_states (world (snd (_wait_for_completion "update.kitchen"
                                   DEFAULT_UPDATE_TIMEOUT updated_at_once)))
          "update.kitchen" = Some st
        /\ state st = "off" /\ attr_in_progress st = false)
  /\ exists reason,
       Some "Device disappeared and did not come back" = Some reason
       /\ reason ∈ waiter_reasons.
Proof.
  split.
  - exact (waiter_verdicts_are_sound "update.kitchen" DEFAULT_UPDATE_TIMEOUT
             updated_at_once (true, None)
             (snd (_wait_for_completion "update.kitchen" DEFAULT_UPDATE_TIMEOUT
                     updated_at_once))
             ltac:(vm_compute; reflexivity)).
  - exact (waiter_verdicts_are_sound "update.kitchen" DEFAULT_UPDATE_TIMEOUT
             lost_after_progress
             (false, Some "Device disappeared and did not come back")
             (snd (_wait_for_completion "update.kitchen" DEFAULT_UPDATE_TIMEOUT
                     lost_after_progress))
             ltac:(vm_compute; reflexivity)).
Defined.

(** ** Outages inside the grace window *)

(** X11. Outages shorter than the grace window do not fail an update.
    If nothing cancels the run and the deadline has not passed, the
    waiter polls on through every reading that is not final, a missing or
    unavailable target included as long as no single outage lasts longer
    than MAX_UNAVAILABLE_DURATION (outages separated by an available
    reading do not add up), and it returns success, without a reason and
    without having touched the queue, at the first poll that reads "off"
    with no update in progress. *)
Theorem waiter_succeeds_when_target_reads_off eid timeout s pre last rest st :
  calm (obj s) ->
  future (world s) = pre ++ last :: rest ->
  Forall (undisturbed (loop_clock (world s) + timeout)) (pre ++ [last]) ->
  Forall (fun wk => still_waiting (wk_states wk eid) = true) pre ->
  short_outages eid pre ->
  wk_states last eid = Some st -> state st = "off" -> attr_in_progress st = false ->
  exists s',
    _wait_for_completion eid timeout s = (Ret (true, None), s')
    /\ obj s' = obj s /\ future (world s') = rest.
Proof.
  intros Hcalm Hfut Hund Hpre Hshort Hst Hoff Hprog.
  apply Forall_app in Hund as [Hund Hl]. apply Forall_cons in Hl as [[Hi Ht] _].
  destruct (waiter_rides_through eid timeout s pre last rest Hcalm Hfut Hund Hi Hpre
              Hshort) as (tr' & ->).
  cbn [wait_loop]. unfold at_wake.
  unfold bind at 1, loop_time at 1. cbn [fst snd world loop_clock].
  apply Z.ltb_lt in Ht. rewrite Ht. cbn [negb].
  unfold bind at 1, cancelled_flag at 1. cbn [fst snd obj].
  rewrite (proj1 Hcalm).
  unfold bind at 1, states_get at 1. unfold bind at 1, emit at 1.
  cbn [fst snd obj world trace hass_states]. rewrite Hst, Hoff, Hprog. cbn.
  eexists. split; [reflexivity|]. split; reflexivity.
Qed.

Lemma waiter_succeeds_when_target_reads_off_witness :
  exists s',
    _wait_for_completion "update.kitchen" DEFAULT_UPDATE_TIMEOUT reboots_twice
    = (Ret (true, None), s')
    /\ obj s' = obj reboots_twice /\ future (world s') = [].
Proof.
  apply (waiter_succeeds_when_target_reads_off "update.kitchen" DEFAULT_UPDATE_TIMEOUT
           reboots_twice
           [plain_wake 5 (Some (mkState "on" true));
            plain_wake 10 (Some (mkState "unavailable" false));
            plain_wake 20 None;
            plain_wake 120 None;
            plain_wake 130 (Some (mkState "on" false));
            plain_wake 140 (Some (mkState "unavailable" false));
            plain_wake 250 (Some (mkState "unavailable" false))]
           (plain_wake 260 (Some (mkState "off" false))) []
           (mkState "off" false)).
  - split; [reflexivity|]. intros t [= <-]. reflexivity.
  - reflexivity.
  - repeat constructor.
  - repeat constructor.
  - apply outages_ok_sound. vm_compute. reflexivity.
  - reflexivity.
  - reflexivity.
  - reflexivity.
Defined.

(** X12. The deadline wins.  If nothing cancels the run and no poll
    before was final or ended an outage longer than the grace window, the
    first poll taken at or after the deadline ends the wait as a failure,
    with the timed-out reason chosen by whether an available target ever
    showed progress; the target's state is not read any more at that
    poll, so a device that finished in the last interval is still
    reported as timed out. *)
Theorem waiter_times_out_at_deadline eid timeout s pre last rest :
  calm (obj s) ->
  future (world s) = pre ++ last :: rest ->
  Forall (undisturbed (loop_clock (world s) + timeout)) pre ->
  Forall (fun wk => still_waiting (wk_states wk eid) = true) pre ->
  short_outages eid pre ->
  wk_interrupt last = NoInterrupt ->
  loop_clock (world s) + timeout <= wk_loop_clock last ->
  exists s',
    _wait_for_completion eid timeout s
    = (Ret (false, Some (timeout_reason (saw_live eid pre))), s')
    /\ obj s' = obj s
    /\ hass_states (world s') = wk_states last
    /\ future (world s') = rest.
Proof.
  intros Hcalm Hfut Hund Hpre Hshort Hi Ht.
  destruct (waiter_rides_through eid timeout s pre last rest Hcalm Hfut Hund Hi Hpre
              Hshort) as (tr' & ->).
  exists (at_wake (obj s) last rest tr'). split; [|repeat split].
  cbn [wait_loop]. unfold at_wake.
  unfold bind at 1, loop_time at 1. cbn [fst snd world loop_clock].
  apply Z.ltb_ge in Ht. rewrite Ht. cbn [negb]. unfold timeout_reason.
  destruct (saw_live eid pre); reflexivity.
Qed.

Lemma waiter_times_out_at_deadline_witness :
  exists s',
    _wait_for_completion "update.kitchen" DEFAULT_UPDATE_TIMEOUT finished_too_late
    = (Ret (false, Some "Update timed out — device may still be updating"), s')
    /\ obj s' = obj finished_too_late
    /\ hass_states (world s') = wk_states (plain_wake 600 (Some (mkState "off" false)))
    /\ future (world s') = [].
Proof.
  apply (waiter_times_out_at_deadline "update.kitchen" DEFAULT_UPDATE_TIMEOUT
           finished_too_late
           [plain_wake 5 (Some (mkState "on" true));
            plain_wake 10 (Some (mkState "on" false))]
           (plain_wake 600 (Some (mkState "off" false))) []).
  - split; [reflexivity|]. intros t [= <-]. reflexivity.
  - reflexivity.
  - repeat constructor.
  - repeat constructor.
  - apply outages_ok_sound. vm_compute. reflexivity.
  - reflexivity.
  - vm_compute. discriminate.
Defined.

(** ** Ways through the job routine *)

Lemma update_single_install_error i q t wl sts wk rest tr it msg :
  _queue q !! i = Some it ->
  unreachable (sts (entity_id it)) = false ->
  calm q -> wk_interrupt wk = NoInterrupt ->
  wk_raise wk = Some (Exception msg) ->
  _update_single i (mkSys q (mkWorld t wl sts (wk :: rest)) tr)
  = (Ret tt,
     mkSys (set_queue (<[i := mkItem (entity_id it) STATUS_FAILED (Some wl)
                               (Some (wk_wall_clock wk))
                               (Some (install_error msg))]> (_queue q)) q)
           (mkWorld (wk_loop_clock wk) (wk_wall_clock wk) (wk_states wk) rest)
           (tr ++ [EvStatesGet (entity_id it);
                   EvServiceCall UPDATE_DOMAIN "install" (entity_id it)])).
Proof.
  intros Hit Hav Hcalm Hi Hraise.
  apply wp_eq. unfold _update_single, _is_entity_available, states_get.
  repeat wp_exec.
  rewrite !list_lookup_alter_eq, Hit.
  cbn [fmap option_fmap option_map default entity_id with_started_at with_status id].
  repeat wp_exec. cbn [hass_states].
  assert (Havail : match sts (entity_id it) with
                   | Some st => ret (negb (String.eqb (state st) "unavailable"
                                           || String.eqb (state st) "unknown"))
                   | None => ret false
                   end = (ret true : M bool)).
  { unfold unreachable in Hav. destruct (sts (entity_id it)); [|discriminate].
    rewrite Hav. reflexivity. }
  rewrite Havail. repeat wp_exec. cbn [negb].
  unfold async_call_install, await_host, suspend, take_cancel.
  repeat wp_exec. cbn [future]. repeat wp_exec.
  cbn [fst snd wall_clock]. rewrite Hi. cbn [interrupt_obj].
  repeat wp_exec.
  assert (Htask : forall tk, _task q = Some tk -> must_cancel tk = false)
    by apply Hcalm.
  destruct (_task q) as [tk|] eqn:Etk;
    [rewrite (Htask tk eq_refl)|]; cbn [fst snd]; repeat wp_exec;
    rewrite Hraise; repeat wp_exec;
    unfold install_error; destruct (str_contains "Error compiling" msg);
    repeat wp_exec; cbn [negb]; repeat wp_exec;
    rewrite !list_lookup_alter_eq, Hit;
    cbn [fmap option_fmap option_map default finished_at with_finished_at
         with_error with_status with_started_at id];
    repeat wp_exec;
    rewrite !set_queue_twice, <- app_assoc; cbn [app wall_clock];
    apply f_equal;
    apply (f_equal (fun o => mkSys o _ _)), (f_equal (fun l => set_queue l _));
    rewrite !list_alter_alter_eq, (alter_as_insert _ _ _ _ Hit); reflexivity.
Qed.

Lemma wp_states_get_item eid i it Q s :
  _queue (obj s) !! i = Some it ->
  (forall s', _queue (obj s') !! i = Some it ->
              world s' = world s ->
              Q (Ret (hass_states (world s) eid)) s') ->
  wp (states_get eid) Q s.
Proof. intros Hit HQ. apply HQ; [exact Hit | reflexivity]. Qed.

Lemma wp_waiter_item eid timeout i it Q s :
  _queue (obj s) !! i = Some it ->
  (forall r s', _queue (obj s') !! i = Some it ->
                (forall reason, r = Ret (true, reason) ->
                                _cancelled (obj s') = false /\ reads_off eid s') ->
                Q r s') ->
  wp (_wait_for_completion eid timeout) Q s.
Proof.
  intros Hit HQ. unfold wp. apply HQ.
  - destruct (keeps_wait_for_completion eq eid timeout s) as [Hq _ _ _ _ _].
    rewrite <- Hq. exact Hit.
  - intros reason Hr.
    pose proof (waiter_verdict_sound_at eid timeout s (true, reason)
                  (snd (_wait_for_completion eid timeout s))) as H.
    cbn in H. destruct H as (_ & Hc & _ & st & Hst & Hoff & _).
    + rewrite <- Hr. apply surjective_pairing.
    + split; [exact Hc|]. exists st. auto.
Qed.

Ltac wp_sound_step :=
  lazy beta iota;
  match goal with
  | |- wp (states_get _) _ _ =>
      eapply wp_states_get_item; [eassumption | intros ? ? ?]
  | |- wp (_wait_for_completion _ _) _ _ =>
      eapply wp_waiter_item; [eassumption | intros [[[] ?]|[|?]|] ? ? ?]
  | |- wp (_is_entity_available _) _ _ =>
      wp_host (keeps_is_entity_available eq _)
  | |- wp (async_call_install _) _ _ =>
      wp_host (keeps_async_call_install eq _)
  | |- wp (match ?e with CancelledError => _ | Exception _ => _ end) _ _ =>
      destruct e
  | _ => wp_step
  end;
  lazy beta iota.

Lemma update_single_success_sound i s it :
  _queue (obj s) !! i = Some it ->
  wp (_update_single i) (success_is_sound it i) s.
Proof.
  intros Hit. unfold _update_single.
  repeat wp_sound_step.
  all: try match goal with
           | H : negb true = true |- _ => discriminate H
           | H : negb false = false |- _ => discriminate H
           end.
  all: intros it' Hit'.
  all: match goal with
       | H : _queue (obj ?s) !! ?j = Some ?x, H' : _queue (obj ?s) !! ?j = Some ?y |- _ =>
           rewrite H in H'; injection H' as <-
       end.
  all: cbn; try (intros Hs; discriminate Hs).
  all: intros _; split; [reflexivity|]; split; [|split; [reflexivity|]].
  all: try match goal with
           | H : finished_at _ = Some _ |- is_Some _ =>
               cbn in H; rewrite H; eexists; reflexivity
           | |- is_Some (Some _) => eexists; reflexivity
           end.
  all: unfold reads_off.
  all: repeat match goal with
              | H : world ?a = world ?b |- context [world ?a] => rewrite H
              end.
  all: cbn [entity_id with_started_at with_status] in *.
  all: try match goal with
           | H : match hass_states ?w ?e with _ => _ end = true |- _ =>
               destruct (hass_states w e) as [st|]; [|discriminate H];
               apply String.eqb_eq in H; exists st; split; [reflexivity | exact H]
           end.
  all: match goal with
       | H : forall reason, Ret (true, ?o) = Ret (true, reason) -> _ |- _ =>
           destruct (H o eq_refl) as (_ & st & Hst & Hoff); exists st;
           split; [exact Hst | exact Hoff]
       end.
Qed.

(** X13. An error of the install call fails the job and nothing else.
    When the target is reachable and the install service raises, the job
    routine returns normally: the job is Failed, stamped with the time of
    the failure, and its error text is the service's message behind
    "Compile failed — " if the message mentions "Error compiling", and
    behind "Install failed — " otherwise.  The waiter is not entered: the
    probe and the install call are the only host calls, and every other
    job is left as it was. *)
Theorem install_error_fails_the_job i s it wk rest msg :
  _queue (obj s) !! i = Some it ->
  unreachable (hass_states (world s) (entity_id it)) = false ->
  calm (obj s) ->
  future (world s) = wk :: rest ->
  wk_interrupt wk = NoInterrupt ->
  wk_raise wk = Some (Exception msg) ->
  exists s',
    _update_single i s = (Ret tt, s')
    /\ _queue (obj s')
       = <[i := mkItem (entity_id it) STATUS_FAILED
                       (Some (wall_clock (world s))) (Some (wk_wall_clock wk))
                       (Some (install_error msg))]> (_queue (obj s))
    /\ trace s' = trace s ++ [EvStatesGet (entity_id it);
                              EvServiceCall UPDATE_DOMAIN "install" (entity_id it)]
    /\ future (world s') = rest.
Proof.
  destruct s as [q [t wl sts fut] tr]. cbn [obj world hass_states future wall_clock trace].
  intros Hit Hav Hcalm -> Hi Hraise.
  eexists. split; [apply update_single_install_error; eassumption|].
  cbn [obj world trace future set_queue _queue]. repeat split.
Qed.

Lemma install_error_fails_the_job_witness :
  exists s',
    _update_single 0 fails_to_compile = (Ret tt, s')
    /\ _queue (obj s')
       = [mkItem "update.kitchen" STATUS_FAILED (Some 1000) (Some 1030)
                 (Some "Compile failed — Error compiling kitchen.yaml");
          new_item "update.porch"]
    /\ trace s' = [EvStatesGet "update.kitchen";
                   EvServiceCall "update" "install" "update.kitchen"]
    /\ future (world s') = [].
Proof.
  apply (install_error_fails_the_job 0 fails_to_compile (new_item "update.kitchen")
           (mkWake 30 1030
              (fun e => if String.eqb e "update.kitchen"
                        then Some (mkState "on" false) else None)
              NoInterrupt (Some (Exception "Error compiling kitchen.yaml")) 200 None)
           [] "Error compiling kitchen.yaml").
  - reflexivity.
  - reflexivity.
  - split; [reflexivity|]. intros t [= <-]. reflexivity.
  - reflexivity.
  - reflexivity.
  - reflexivity.
Defined.

(** X14. A job is never marked Success on trust.  Whenever the job
    routine leaves a job with status Success, it has returned normally,
    the target's state reads "off" in the state machine at that moment,
    the job has its finish timestamp, and its error text is untouched
    (none, for a job of a fresh run). *)
Theorem success_means_the_target_reads_off i s it it' :
  _queue (obj s) !! i = Some it ->
  _queue (obj (snd (_update_single i s))) !! i = Some it' ->
  status it' = STATUS_SUCCESS ->
  fst (_update_single i s) = Ret tt
  /\ (exists st, hass_states (world (snd (_update_single i s))) (entity_id it) = Some st
                 /\ state st = "off")
  /\ error it' = error it
  /\ is_Some (finished_at it').
Proof.
  intros Hit Hit' Hst.
  exact (update_single_success_sound i s it Hit it' Hit' Hst).
Qed.

Lemma success_means_the_target_reads_off_witness :
  fst (_update_single 0 installs_at_once) = Ret tt
  /\ (exists st,
        hass_states (world (snd (_update_single 0 installs_at_once)))
          "update.kitchen" = Some st
        /\ state st = "off")
  /\ error (mkItem "update.kitchen" STATUS_SUCCESS (Some 1000) (Some 1002) None) = None
  /\ is_Some (finished_at (mkItem "update.kitchen" STATUS_SUCCESS (Some 1000)
                             (Some 1002) None)).
Proof.
  apply (success_means_the_target_reads_off 0 installs_at_once
           (new_item "update.kitchen")
           (mkItem "update.kitchen" STATUS_SUCCESS (Some 1000) (Some 1002) None)).
  - reflexivity.
  - vm_compute. reflexivity.
  - reflexivity.
Defined.

(** * The Supervisor helpers *)






(** * Version helpers *)

(** ** Comparing version tuples *)

Lemma tuple_gt_irrefl a : tuple_gt a a = false.
Proof.
  induction a as [|x a IH]; [reflexivity|]. cbn. rewrite Z.eqb_refl. exact IH.
Qed.

Lemma tuple_gt_asym a : forall b, tuple_gt a b = true -> tuple_gt b a = false.
Proof.
  induction a as [|x a IH]; intros [|y b]; cbn; try discriminate; try reflexivity.
  rewrite (Z.eqb_sym y x). destruct (x =? y) eqn:E.
  - apply IH.
  - intros H. apply Z.ltb_lt in H. apply Z.ltb_ge. lia.
Qed.

Lemma tuple_gt_trans a : forall b c,
  tuple_gt a b = true -> tuple_gt b c = true -> tuple_gt a c = true.
Proof.
  induction a as [|x a IH]; intros [|y b] [|z c]; cbn; try discriminate; try reflexivity.
  destruct (Z.eqb_spec x y) as [->|Hxy], (Z.eqb_spec y z) as [->|Hyz].
  - apply IH.
  - intros _ H. exact H.
  - rewrite (proj2 (Z.eqb_neq x z) Hxy). intros H _. exact H.
  - intros H1 H2. apply Z.ltb_lt in H1, H2.
    rewrite (proj2 (Z.eqb_neq x z)) by lia. apply Z.ltb_lt. lia.
Qed.

(** X16. Update availability is a strict order on version texts: no
    version is an update of itself, two versions are never updates of
    each other, and an update of an update is an update.  A text that
    has no version tuple (no text, an empty text, a part that is not a
    number) is neither updatable nor an update of anything. *)
Theorem update_available_is_a_strict_order (a b c : option string) :
  _is_update_available a a = false
  /\ (_is_update_available a b = true -> _is_update_available b a = false)
  /\ (_is_update_available a b = true -> _is_update_available b c = true ->
      _is_update_available a c = true)
  /\ (_version_tuple a = None ->
      _is_update_available a b = false /\ _is_update_available b a = false).
Proof.
  unfold _is_update_available.
  destruct (_version_tuple a) as [ta|], (_version_tuple b) as [tb|],
    (_version_tuple c) as [tc|]; repeat split; try discriminate; try reflexivity.
  all: try apply tuple_gt_irrefl.
  all: try apply tuple_gt_asym.
  all: try (intros H1 H2; eapply tuple_gt_trans; eassumption).
Qed.

Lemma update_available_is_a_strict_order_witness :
  _is_update_available (Some "1.10.0") (Some "1.9.0") = false
  /\ _is_update_available (Some "1.9.0") (Some "2.0") = true
  /\ _is_update_available (Some "2024.6.0b1") (Some "1.10.0") = false
  /\ _is_update_available (Some "1.10.0") (Some "2024.6.0b1") = false.
Proof.
  destruct (update_available_is_a_strict_order (Some "1.9.0") (Some "1.10.0")
              (Some "2.0")) as (_ & H1 & H2 & _).
  destruct (update_available_is_a_strict_order (Some "2024.6.0b1") (Some "1.10.0")
              None) as (_ & _ & _ & H3).
  split; [apply H1; vm_compute; reflexivity|].
  split; [apply H2; vm_compute; reflexivity|].
  apply H3. vm_compute. reflexivity.
Defined.

(** ** Texts *)

Lemma span_app (p : Ascii.ascii -> bool) a b :
  forallb p a = true ->
  match b with c :: _ => p c = false | [] => True end ->
  span p (a ++ b) = (a, b).
Proof.
  intros Ha Hb. induction a as [|c a IH]; cbn [app span].
  - destruct b as [|c b]; [reflexivity|]. cbn [span]. rewrite Hb. reflexivity.
  - cbn [forallb] in Ha. apply andb_true_iff in Ha as [Hc Ha].
    rewrite Hc, (IH Ha). reflexivity.
Qed.

Lemma span_all (p : Ascii.ascii -> bool) a :
  forallb p a = true -> span p a = (a, []).
Proof. intros Ha. rewrite <- (app_nil_r a) at 1. apply span_app; [exact Ha | exact I]. Qed.

Lemma span_nothing (p : Ascii.ascii -> bool) b :
  match b with c :: _ => p c = false | [] => True end -> span p b = ([], b).
Proof. intros Hb. apply (span_app p [] b); [reflexivity | exact Hb]. Qed.

Lemma text_of_inv l : String.list_ascii_of_string (text_of l) = l.
Proof. apply String.list_ascii_of_string_of_list_ascii. Qed.

Lemma text_of_nonempty c l : String.eqb (text_of (c :: l)) EmptyString = false.
Proof. reflexivity. Qed.

Lemma digit_code c : is_digit c = true -> (48 <= code c <= 57)%N.
Proof.
  unfold is_digit. intros H. apply andb_true_iff in H as [H1 H2].
  apply N.leb_le in H1, H2. lia.
Qed.

Lemma digit_not_space c : is_digit c = true -> is_space c = false.
Proof.
  intros H. apply digit_code in H. unfold is_space.
  repeat match goal with
         | |- context [(?a <=? ?b)%N] => destruct (N.leb_spec a b)
         | |- context [(?a =? ?b)%N] => destruct (N.eqb_spec a b)
         end; try reflexivity; lia.
Qed.

Lemma digit_not_c_space c : is_digit c = true -> is_c_space c = false.
Proof.
  intros H. apply digit_code in H. unfold is_c_space.
  repeat match goal with
         | |- context [(?a <=? ?b)%N] => destruct (N.leb_spec a b)
         | |- context [(?a =? ?b)%N] => destruct (N.eqb_spec a b)
         end; try reflexivity; lia.
Qed.

Lemma digit_is_ascii c : is_digit c = true -> to_ascii_text c = c.
Proof.
  intros H. apply digit_code in H. unfold to_ascii_text.
  destruct (N.ltb_spec (code c) 127); [reflexivity | lia].
Qed.

Lemma digit_not_char c (x : Ascii.ascii) :
  is_digit c = true -> is_digit x = false -> Ascii.eqb c x = false.
Proof.
  intros Hc Hx. apply Ascii.eqb_neq. intros ->. congruence.
Qed.

Lemma dot_not_digit : is_digit DOT = false.
Proof. reflexivity. Qed.

Lemma span_parts (p : Ascii.ascii -> bool) l :
  l = fst (span p l) ++ snd (span p l)
  /\ forallb p (fst (span p l)) = true
  /\ match snd (span p l) with c :: _ => p c = false | [] => True end.
Proof.
  induction l as [|c l IH]; cbn [span].
  - cbn. auto.
  - destruct IH as (IH1 & IH2 & IH3). destruct (p c) eqn:Hc.
    + destruct (span p l) as [a b]. cbn [fst snd] in *. cbn [forallb app].
      rewrite Hc, IH2. split; [congruence | auto].
    + cbn [fst snd app forallb]. auto.
Qed.

Lemma lstrip_app a b :
  lstrip (a ++ b) = if forallb is_space a then lstrip b else lstrip a ++ b.
Proof.
  unfold lstrip. induction a as [|c a IH]; cbn [app forallb span]; [reflexivity|].
  destruct (is_space c) eqn:Hc; cbn [andb].
  - destruct (span is_space (a ++ b)) as [x y], (span is_space a) as [x' y'].
    cbn [snd] in *. exact IH.
  - reflexivity.
Qed.

Lemma lstrip_spaces a : forallb is_space a = true -> lstrip a = [].
Proof. intros H. unfold lstrip. rewrite (span_all _ _ H). reflexivity. Qed.

Lemma lstrip_keeps l :
  match l with c :: _ => is_space c = false | [] => True end -> lstrip l = l.
Proof. intros H. unfold lstrip. rewrite (span_nothing _ _ H). reflexivity. Qed.

(** Stripping a text whose core [x] begins and ends with a character
    that is not whitespace. *)
Lemma strip_around ws x sfx c0 c1 x0 x1 :
  forallb is_space ws = true ->
  x = c0 :: x0 -> x = x1 ++ [c1] ->
  is_space c0 = false -> is_space c1 = false ->
  strip (ws ++ x ++ sfx) = x ++ rev (lstrip (rev sfx)).
Proof.
  intros Hws Hhead Hlast Hc0 Hc1. unfold strip.
  rewrite lstrip_app, Hws.
  rewrite (lstrip_keeps (x ++ sfx)) by (rewrite Hhead; exact Hc0).
  rewrite rev_app_distr, lstrip_app.
  assert (Hrx : lstrip (rev x) = rev x).
  { apply lstrip_keeps. rewrite Hlast, rev_app_distr. exact Hc1. }
  destruct (forallb is_space (rev sfx)) eqn:Hs.
  - rewrite Hrx, rev_involutive, (lstrip_spaces _ Hs). symmetry. apply app_nil_r.
  - rewrite rev_app_distr, rev_involutive. reflexivity.
Qed.

Lemma rstrip_prefix sfx :
  exists ws, sfx = rev (lstrip (rev sfx)) ++ ws.
Proof.
  destruct (span_parts is_space (rev sfx)) as (H & _ & _).
  exists (rev (fst (span is_space (rev sfx)))).
  rewrite <- rev_app_distr. unfold lstrip. rewrite <- H. symmetry. apply rev_involutive.
Qed.

Lemma no_digit_ahead_rstrip sfx :
  no_digit_ahead sfx -> no_digit_ahead (rev (lstrip (rev sfx))).
Proof.
  intros H. destruct (rstrip_prefix sfx) as (ws & E).
  destruct (rev (lstrip (rev sfx))) as [|c l]; [exact I|].
  rewrite E in H. exact H.
Qed.

(** ** Plain version numbers *)

Lemma plain_number_head part :
  plain_number part -> exists c l, part = c :: l /\ is_digit c = true.
Proof.
  intros (Hne & Hd & _). destruct part as [|c l]; [contradiction|].
  cbn [forallb] in Hd. apply andb_true_iff in Hd as [Hc _]. eauto.
Qed.

Lemma plain_number_last part :
  plain_number part -> exists l c, part = l ++ [c] /\ is_digit c = true.
Proof.
  intros (Hne & Hd & _). destruct (exists_last Hne) as (l & c & ->).
  exists l, c. split; [reflexivity|].
  rewrite forallb_app in Hd. apply andb_true_iff in Hd as [_ Hc].
  cbn in Hc. rewrite andb_true_r in Hc. exact Hc.
Qed.

Lemma match_version_dotted d1 d2 d3 sfx :
  plain_number d1 -> plain_number d2 -> plain_number d3 -> no_digit_ahead sfx ->
  match_version (d1 ++ DOT :: d2 ++ DOT :: d3 ++ sfx)
  = Some (dotted [d1; d2; d3]).
Proof.
  intros H1 H2 H3 Hs. unfold match_version.
  rewrite (span_app is_digit d1 (DOT :: d2 ++ DOT :: d3 ++ sfx))
    by (try apply H1; reflexivity).
  destruct (plain_number_head d1 H1) as (c1 & l1 & -> & _).
  rewrite Ascii.eqb_refl.
  rewrite (span_app is_digit d2 (DOT :: d3 ++ sfx)) by (try apply H2; reflexivity).
  destruct (plain_number_head d2 H2) as (c2 & l2 & -> & _).
  rewrite Ascii.eqb_refl.
  rewrite (span_app is_digit d3 sfx) by (try apply H3; exact Hs).
  destruct (plain_number_head d3 H3) as (c3 & l3 & -> & _).
  reflexivity.
Qed.

Lemma split_dot_part part rest :
  forallb is_digit part = true ->
  split_dot (part ++ DOT :: rest) = part :: split_dot rest.
Proof.
  intros Hd. induction part as [|c part IH]; cbn [app split_dot].
  - rewrite Ascii.eqb_refl. reflexivity.
  - cbn [forallb] in Hd. apply andb_true_iff in Hd as [Hc Hd].
    rewrite (digit_not_char c DOT Hc dot_not_digit), (IH Hd). reflexivity.
Qed.

Lemma split_dot_last part :
  forallb is_digit part = true -> split_dot part = [part].
Proof.
  intros Hd. induction part as [|c part IH]; cbn [split_dot]; [reflexivity|].
  cbn [forallb] in Hd. apply andb_true_iff in Hd as [Hc Hd].
  rewrite (digit_not_char c DOT Hc dot_not_digit), (IH Hd). reflexivity.
Qed.

Lemma split_dot_dotted parts :
  parts <> [] -> Forall plain_number parts -> split_dot (dotted parts) = parts.
Proof.
  intros Hne Hall. induction Hall as [|part parts Hp Hall IH]; [contradiction|].
  destruct parts as [|part' parts].
  - cbn [dotted]. apply split_dot_last, Hp.
  - change (dotted (part :: part' :: parts))
      with (part ++ DOT :: dotted (part' :: parts)).
    rewrite split_dot_part by apply Hp. rewrite IH by discriminate. reflexivity.
Qed.

Lemma grouped_digits_plain part :
  part <> [] -> forallb is_digit part = true -> grouped_digits part = true.
Proof.
  intros Hne Hd. induction part as [|c part IH]; [contradiction|].
  cbn [forallb] in Hd. apply andb_true_iff in Hd as [Hc Hd].
  cbn [grouped_digits]. rewrite Hc. cbn [andb].
  destruct part as [|c' part]; [reflexivity|].
  assert (Hc' : is_digit c' = true)
    by (cbn [forallb] in Hd; apply andb_true_iff in Hd as [H _]; exact H).
  rewrite (digit_not_char c' UNDERSCORE Hc' eq_refl).
  apply IH; [discriminate | exact Hd].
Qed.

Lemma filter_digits part :
  forallb is_digit part = true -> List.filter is_digit part = part.
Proof.
  intros Hd. induction part as [|c part IH]; [reflexivity|].
  cbn [forallb] in Hd. apply andb_true_iff in Hd as [Hc Hd].
  cbn [List.filter]. rewrite Hc, (IH Hd). reflexivity.
Qed.

Lemma py_int_plain part :
  plain_number part -> py_int part = Some (digits_value part).
Proof.
  intros Hp. pose proof Hp as (Hne & Hd & Hlen).
  destruct (plain_number_head part Hp) as (c & l & E & Hc).
  unfold py_int.
  assert (Hmap : to_ascii_text <$> part = part).
  { clear -Hd. induction part as [|x part IH]; [reflexivity|].
    cbn [forallb] in Hd. apply andb_true_iff in Hd as [Hx Hd].
    cbn [fmap list_fmap]. rewrite (digit_is_ascii x Hx).
    f_equal. apply IH, Hd. }
  rewrite Hmap.
  rewrite (span_nothing is_c_space part) by (rewrite E; apply digit_not_c_space, Hc).
  cbn [snd].
  assert (Hsign : match part with
                  | c :: text' =>
                      if Ascii.eqb c "+"%char then (false, text')
                      else if Ascii.eqb c "-"%char then (true, text')
                      else (false, part)
                  | [] => (false, part)
                  end = (false, part)).
  { rewrite E.
    rewrite (digit_not_char c "+"%char Hc eq_refl), (digit_not_char c "-"%char Hc eq_refl).
    reflexivity. }
  rewrite Hsign.
  rewrite (span_all (fun c => is_digit c || Ascii.eqb c UNDERSCORE) part).
  2:{ clear -Hd. induction part as [|x part IH]; [reflexivity|].
      cbn [forallb] in *. apply andb_true_iff in Hd as [Hx Hd].
      rewrite Hx, (IH Hd). reflexivity. }
  rewrite (filter_digits part Hd), (grouped_digits_plain part Hne Hd).
  cbn [forallb andb]. apply Nat.leb_le in Hlen. rewrite Hlen. reflexivity.
Qed.

Lemma version_tuple_dotted parts :
  parts <> [] -> Forall plain_number parts ->
  _version_tuple (Some (text_of (dotted parts))) = Some (digits_value <$> parts).
Proof.
  intros Hne Hall. unfold _version_tuple.
  assert (Hnonempty : exists c l, dotted parts = c :: l).
  { destruct parts as [|p parts]; [contradiction|].
    apply Forall_cons in Hall as [Hp _].
    destruct (plain_number_head p Hp) as (c & l & -> & _).
    destruct parts; cbn [dotted app]; eauto. }
  destruct Hnonempty as (c & l & E). rewrite E, text_of_nonempty, <- E.
  rewrite text_of_inv, (split_dot_dotted parts Hne Hall).
  clear -Hall. induction Hall as [|p parts Hp Hall IH]; [reflexivity|].
  cbn [mapM fmap list_fmap]. rewrite (py_int_plain p Hp).
  cbn. rewrite IH. reflexivity.
Qed.

Lemma text_of_not_empty l : l <> [] -> String.eqb (text_of l) EmptyString = false.
Proof. destruct l; [contradiction | reflexivity]. Qed.

Lemma parse_version_dotted ws d1 d2 d3 sfx :
  forallb is_space ws = true ->
  plain_number d1 -> plain_number d2 -> plain_number d3 -> no_digit_ahead sfx ->
  _parse_version (Some (text_of (ws ++ d1 ++ DOT :: d2 ++ DOT :: d3 ++ sfx)))
  = Some (text_of (dotted [d1; d2; d3])).
Proof.
  intros Hws H1 H2 H3 Hs. unfold _parse_version.
  destruct (plain_number_head d1 H1) as (c0 & x0 & E0 & Hc0).
  destruct (plain_number_last d3 H3) as (x1 & c1 & E1 & Hc1).
  rewrite text_of_not_empty
    by (rewrite E0; destruct ws; discriminate).
  rewrite text_of_inv.
  set (x := d1 ++ DOT :: d2 ++ DOT :: d3).
  assert (Ex : d1 ++ DOT :: d2 ++ DOT :: d3 ++ sfx = x ++ sfx).
  { unfold x. repeat (rewrite <- app_assoc || rewrite <- app_comm_cons). reflexivity. }
  rewrite Ex.
  rewrite (strip_around ws x sfx c0 c1 (x0 ++ DOT :: d2 ++ DOT :: d3)
             (d1 ++ DOT :: d2 ++ DOT :: x1) Hws).
  - unfold x. repeat (rewrite <- app_assoc || rewrite <- app_comm_cons).
    rewrite (match_version_dotted d1 d2 d3 _ H1 H2 H3 (no_digit_ahead_rstrip sfx Hs)).
    reflexivity.
  - unfold x. rewrite E0. reflexivity.
  - unfold x. rewrite E1.
    repeat (rewrite <- app_assoc || rewrite <- app_comm_cons). reflexivity.
  - apply digit_not_space, Hc0.
  - apply digit_not_space, Hc1.
Qed.

(** X17. A version text that begins, after any whitespace, with three
    runs of digits separated by dots is cut down to exactly those: what
    follows the third number (a suffix such as "-dev", a build note,
    trailing whitespace) is dropped, and the result has the three
    numbers as its version tuple. *)
Theorem parse_version_keeps_the_three_numbers ws d1 d2 d3 sfx :
  forallb is_space ws = true ->
  plain_number d1 -> plain_number d2 -> plain_number d3 -> no_digit_ahead sfx ->
  _parse_version (Some (text_of (ws ++ d1 ++ DOT :: d2 ++ DOT :: d3 ++ sfx)))
  = Some (text_of (d1 ++ DOT :: d2 ++ DOT :: d3))
  /\ _version_tuple
       (_parse_version (Some (text_of (ws ++ d1 ++ DOT :: d2 ++ DOT :: d3 ++ sfx))))
     = Some [digits_value d1; digits_value d2; digits_value d3].
Proof.
  intros Hws H1 H2 H3 Hs.
  rewrite (parse_version_dotted ws d1 d2 d3 sfx Hws H1 H2 H3 Hs).
  split; [reflexivity|].
  apply (version_tuple_dotted [d1; d2; d3]); [discriminate|].
  repeat (apply List.Forall_cons; [assumption|]). apply List.Forall_nil.
Qed.

Lemma parse_version_keeps_the_three_numbers_witness :
  _parse_version (Some " 2024.6.1-dev (2024-06-20)") = Some "2024.6.1"
  /\ _version_tuple (_parse_version (Some " 2024.6.1-dev (2024-06-20)"))
     = Some [2024; 6; 1].
Proof.
  apply (parse_version_keeps_the_three_numbers
           (String.list_ascii_of_string " ") (String.list_ascii_of_string "2024")
           (String.list_ascii_of_string "6") (String.list_ascii_of_string "1")
           (String.list_ascii_of_string "-dev (2024-06-20)")).
  - reflexivity.
  - split; [discriminate|]. split; [reflexivity|]. apply Nat.leb_le. vm_compute. reflexivity.
  - split; [discriminate|]. split; [reflexivity|]. apply Nat.leb_le. vm_compute. reflexivity.
  - split; [discriminate|]. split; [reflexivity|]. apply Nat.leb_le. vm_compute. reflexivity.
  - reflexivity.
Defined.

(** X18. Versions are compared as numbers, part by part, never as text.
    For two dotted version texts made of plain numbers (any number of
    parts, any number of digits, leading zeros allowed) the update check
    is the comparison of the tuples of their values; when both have
    three parts, an update is available exactly when the latest version
    is greater in the first part that differs. *)
Theorem update_available_compares_numbers p q :
  p <> [] -> q <> [] -> Forall plain_number p -> Forall plain_number q ->
  _is_update_available (Some (text_of (dotted p))) (Some (text_of (dotted q)))
  = tuple_gt (digits_value <$> q) (digits_value <$> p)
  /\ forall a b c a' b' c',
       p = [a; b; c] -> q = [a'; b'; c'] ->
       _is_update_available (Some (text_of (dotted p))) (Some (text_of (dotted q))) = true
       <-> digits_value a < digits_value a'
           \/ digits_value a = digits_value a'
              /\ (digits_value b < digits_value b'
                  \/ digits_value b = digits_value b'
                     /\ digits_value c < digits_value c').
Proof.
  intros Hp Hq Hap Haq.
  assert (Hgen : _is_update_available (Some (text_of (dotted p)))
                                      (Some (text_of (dotted q)))
                 = tuple_gt (digits_value <$> q) (digits_value <$> p)).
  { unfold _is_update_available.
    rewrite (version_tuple_dotted p Hp Hap), (version_tuple_dotted q Hq Haq).
    reflexivity. }
  split; [exact Hgen|].
  intros a b c a' b' c' -> ->. rewrite Hgen.
  cbn [fmap list_fmap tuple_gt].
  destruct (Z.eqb_spec (digits_value a') (digits_value a)) as [Ea|Ea];
    [destruct (Z.eqb_spec (digits_value b') (digits_value b)) as [Eb|Eb];
     [destruct (Z.eqb_spec (digits_value c') (digits_value c)) as [Ec|Ec]|]|];
    rewrite ?Z.ltb_lt; split; try discriminate; try lia.
Qed.

Lemma update_available_compares_numbers_witness :
  _is_update_available (Some "1.9.0") (Some "1.10.0") = true
  /\ _is_update_available (Some "1.10.0") (Some "1.9.0") = false
  /\ _is_update_available (Some "2024.06.1") (Some "2024.6.01") = false.
Proof.
  assert (Hplain : forall part,
             part <> [] -> forallb is_digit part = true ->
             (length part <=? INT_MAX_STR_DIGITS)%nat = true -> plain_number part).
  { intros part H1 H2 H3. split; [exact H1|]. split; [exact H2|].
    apply Nat.leb_le, H3. }
  assert (Hall : forall a b c,
             plain_number a -> plain_number b -> plain_number c ->
             Forall plain_number [a; b; c]).
  { intros a b c Ha Hb Hc.
    repeat (apply List.Forall_cons; [assumption|]). apply List.Forall_nil. }
  pose (chars := String.list_ascii_of_string).
  split; [|split].
  - exact (proj1 (update_available_compares_numbers
                    [chars "1"; chars "9"; chars "0"] [chars "1"; chars "10"; chars "0"]
                    ltac:(discriminate) ltac:(discriminate)
                    ltac:(apply Hall; apply Hplain; (discriminate || reflexivity))
                    ltac:(apply Hall; apply Hplain; (discriminate || reflexivity)))).
  - exact (proj1 (update_available_compares_numbers
                    [chars "1"; chars "10"; chars "0"] [chars "1"; chars "9"; chars "0"]
                    ltac:(discriminate) ltac:(discriminate)
                    ltac:(apply Hall; apply Hplain; (discriminate || reflexivity))
                    ltac:(apply Hall; apply Hplain; (discriminate || reflexivity)))).
  - exact (proj1 (update_available_compares_numbers
                    [chars "2024"; chars "06"; chars "1"] [chars "2024"; chars "6"; chars "01"]
                    ltac:(discriminate) ltac:(discriminate)
                    ltac:(apply Hall; apply Hplain; (discriminate || reflexivity))
                    ltac:(apply Hall; apply Hplain; (discriminate || reflexivity)))).
Defined.

(** ** What [_parse_version] returns in general *)

Lemma lstrip_head l :
  match lstrip l with c :: _ => is_space c = false | [] => True end.
Proof. unfold lstrip. apply (span_parts is_space l). Qed.

Lemma lstrip_suffix l : exists ws, l = ws ++ lstrip l.
Proof.
  exists (fst (span is_space l)). unfold lstrip. apply (span_parts is_space l).
Qed.

Lemma strip_piece l : exists a b, l = a ++ strip l ++ b.
Proof.
  unfold strip.
  destruct (lstrip_suffix l) as (a & Ea).
  destruct (lstrip_suffix (rev (lstrip l))) as (b & Eb).
  exists a, (rev b). rewrite <- rev_app_distr, <- Eb, rev_involutive. exact Ea.
Qed.

Lemma strip_stripped l : strip (strip l) = strip l.
Proof.
  unfold strip at 2 3.
  set (m := lstrip l). set (n := lstrip (rev m)).
  assert (Hm : match m with c :: _ => is_space c = false | [] => True end)
    by apply lstrip_head.
  assert (Hn : match n with c :: _ => is_space c = false | [] => True end)
    by apply lstrip_head.
  destruct (lstrip_suffix (rev m)) as (b & Eb). fold n in Eb.
  assert (Em : m = rev n ++ rev b).
  { rewrite <- rev_app_distr, <- Eb, rev_involutive. reflexivity. }
  assert (Hh : match rev n with c :: _ => is_space c = false | [] => True end).
  { destruct (rev n) as [|c k] eqn:E; [exact I|].
    rewrite Em in Hm. exact Hm. }
  unfold strip. rewrite (lstrip_keeps (rev n) Hh), rev_involutive.
  rewrite (lstrip_keeps n Hn). reflexivity.
Qed.

Lemma match_version_runs d1 d2 d3 sfx :
  d1 <> [] -> forallb is_digit d1 = true ->
  d2 <> [] -> forallb is_digit d2 = true ->
  d3 <> [] -> forallb is_digit d3 = true ->
  no_digit_ahead sfx ->
  match_version (d1 ++ DOT :: d2 ++ DOT :: d3 ++ sfx)
  = Some (d1 ++ DOT :: d2 ++ DOT :: d3).
Proof.
  intros N1 H1 N2 H2 N3 H3 Hs. unfold match_version.
  rewrite (span_app is_digit d1 (DOT :: d2 ++ DOT :: d3 ++ sfx))
    by (try exact H1; reflexivity).
  destruct d1 as [|c1 l1]; [contradiction|].
  rewrite Ascii.eqb_refl.
  rewrite (span_app is_digit d2 (DOT :: d3 ++ sfx)) by (try exact H2; reflexivity).
  destruct d2 as [|c2 l2]; [contradiction|].
  rewrite Ascii.eqb_refl.
  rewrite (span_app is_digit d3 sfx) by (try exact H3; exact Hs).
  destruct d3 as [|c3 l3]; [contradiction|].
  reflexivity.
Qed.

Lemma match_version_spec text group :
  match_version text = Some group ->
  exists d1 d2 d3 rest,
    group = d1 ++ DOT :: d2 ++ DOT :: d3 /\ text = group ++ rest
    /\ (d1 <> [] /\ forallb is_digit d1 = true)
    /\ (d2 <> [] /\ forallb is_digit d2 = true)
    /\ (d3 <> [] /\ forallb is_digit d3 = true)
    /\ no_digit_ahead rest.
Proof.
  unfold match_version.
  destruct (span_parts is_digit text) as (E1 & D1 & _).
  destruct (span is_digit text) as [d1 r1]. cbn [fst snd] in *.
  destruct d1 as [|x1 k1]; [discriminate|].
  destruct r1 as [|c1 r1']; [discriminate|].
  destruct (Ascii.eqb_spec c1 DOT) as [->|]; [|discriminate].
  destruct (span_parts is_digit r1') as (E2 & D2 & _).
  destruct (span is_digit r1') as [d2 r2]. cbn [fst snd] in *.
  destruct d2 as [|x2 k2]; [discriminate|].
  destruct r2 as [|c2 r2']; [discriminate|].
  destruct (Ascii.eqb_spec c2 DOT) as [->|]; [|discriminate].
  destruct (span_parts is_digit r2') as (E3 & D3 & A3).
  destruct (span is_digit r2') as [d3 r3]. cbn [fst snd] in *.
  destruct d3 as [|x3 k3]; [discriminate|].
  intros [= <-].
  exists (x1 :: k1), (x2 :: k2), (x3 :: k3), r3.
  split; [reflexivity|]. split.
  - rewrite E1, E2, E3.
    repeat (rewrite <- app_assoc || rewrite <- app_comm_cons). reflexivity.
  - repeat split; try discriminate; assumption.
Qed.

Lemma strip_runs d1 d2 d3 :
  d1 <> [] -> forallb is_digit d1 = true ->
  d3 <> [] -> forallb is_digit d3 = true ->
  strip (d1 ++ DOT :: d2 ++ DOT :: d3) = d1 ++ DOT :: d2 ++ DOT :: d3.
Proof.
  intros N1 H1 N3 H3.
  destruct d1 as [|c0 x0]; [contradiction|].
  destruct (exists_last N3) as (x1 & c1 & E3).
  assert (Hc0 : is_digit c0 = true).
  { cbn [forallb] in H1. apply andb_true_iff in H1. apply H1. }
  assert (Hc1 : is_digit c1 = true).
  { rewrite E3, forallb_app in H3. apply andb_true_iff in H3 as [_ Hc].
    cbn in Hc. rewrite andb_true_r in Hc. exact Hc. }
  pose proof (strip_around [] ((c0 :: x0) ++ DOT :: d2 ++ DOT :: d3) [] c0 c1
                (x0 ++ DOT :: d2 ++ DOT :: d3)
                ((c0 :: x0) ++ DOT :: d2 ++ DOT :: x1) eq_refl eq_refl) as H.
  cbn [app rev] in H. unfold lstrip in H. cbn [span snd rev] in H.
  rewrite !app_nil_r in H. apply H.
  - rewrite E3. repeat (rewrite <- app_assoc || rewrite <- app_comm_cons). reflexivity.
  - apply digit_not_space, Hc0.
  - apply digit_not_space, Hc1.
Qed.

Lemma text_of_chars s : text_of (String.list_ascii_of_string s) = s.
Proof. apply String.string_of_list_ascii_of_string. Qed.

Lemma chars_nonempty s :
  s <> EmptyString -> String.eqb s EmptyString = false.
Proof. intros H. destruct s; [contradiction | reflexivity]. Qed.

(** X19. Every text but the empty one is normalised to some text, and
    the result is a piece of the input without whitespace at either end
    that normalising again leaves as it is (unless it is empty, which
    happens exactly for an input of whitespace only and is then read as
    no version at all). *)
Theorem parse_version_normalises (s : string) :
  s <> EmptyString ->
  exists r,
    _parse_version (Some s) = Some r
    /\ (exists a b, String.list_ascii_of_string s
                    = a ++ String.list_ascii_of_string r ++ b)
    /\ strip (String.list_ascii_of_string r) = String.list_ascii_of_string r
    /\ (r = EmptyString <-> forallb is_space (String.list_ascii_of_string s) = true)
    /\ _parse_version (Some r) = (if String.eqb r EmptyString then None else Some r).
Proof.
  intros Hs. unfold _parse_version at 1. rewrite (chars_nonempty s Hs).
  set (t := String.list_ascii_of_string s).
  assert (Hempty : strip t = [] <-> forallb is_space t = true).
  { split.
    - intros E. unfold strip in E.
      apply (f_equal (@rev _)) in E. rewrite rev_involutive in E. cbn [rev] in E.
      pose proof (lstrip_head t) as Hh.
      pose proof (span_parts is_space t) as (Q1 & Q2 & _).
      destruct (lstrip t) as [|c k] eqn:El.
      + unfold lstrip in El. rewrite El, app_nil_r in Q1. rewrite Q1. exact Q2.
      + exfalso. cbn [rev] in E. rewrite lstrip_app in E.
        destruct (forallb is_space (rev k)).
        * unfold lstrip in E. cbn [span] in E. rewrite Hh in E. discriminate.
        * destruct (lstrip (rev k)); discriminate.
    - intros H. unfold strip. rewrite (lstrip_spaces t H). reflexivity. }
  destruct (match_version (strip t)) as [group|] eqn:Hm.
  - destruct (match_version_spec _ _ Hm)
      as (d1 & d2 & d3 & rest & Eg & Et & (N1 & H1) & (N2 & H2) & (N3 & H3) & Hr).
    exists (text_of group). split; [reflexivity|].
    unfold text_of. rewrite String.list_ascii_of_string_of_list_ascii.
    assert (Hg : group <> []) by (rewrite Eg; destruct d1; [contradiction | discriminate]).
    split; [|split; [|split]].
    + destruct (strip_piece t) as (a & b & Eab). exists a, (rest ++ b).
      rewrite Eab at 1. rewrite Et. rewrite <- !app_assoc. reflexivity.
    + rewrite Eg. apply strip_runs; assumption.
    + split.
      * intros E. destruct group; [contradiction | discriminate].
      * intros H. apply Hempty in H. rewrite H in Hm. discriminate.
    + fold (text_of group). rewrite (text_of_not_empty group Hg).
      unfold _parse_version. rewrite (text_of_not_empty group Hg), text_of_inv.
      rewrite Eg at 1 2. rewrite (strip_runs d1 d2 d3 N1 H1 N3 H3).
      pose proof (match_version_runs d1 d2 d3 [] N1 H1 N2 H2 N3 H3 I) as Hmr.
      rewrite !app_nil_r in Hmr. rewrite Hmr, <- Eg. reflexivity.
  - exists (text_of (strip t)). split; [reflexivity|].
    unfold text_of. rewrite String.list_ascii_of_string_of_list_ascii.
    split; [|split; [|split]].
    + apply strip_piece.
    + apply strip_stripped.
    + rewrite <- Hempty. split.
      * intros E. destruct (strip t); [reflexivity | discriminate].
      * intros ->. reflexivity.
    + fold (text_of (strip t)).
      pose proof (strip_stripped t) as Hss.
      destruct (strip t) as [|c k]; [reflexivity|].
      rewrite (text_of_nonempty c k). unfold _parse_version.
      rewrite (text_of_nonempty c k), text_of_inv, Hss, Hm.
      reflexivity.
Qed.

Lemma parse_version_normalises_witness :
  exists r,
    _parse_version (Some "  v1.2 ") = Some r
    /\ (exists a b, String.list_ascii_of_string "  v1.2 "
                    = a ++ String.list_ascii_of_string r ++ b)
    /\ strip (String.list_ascii_of_string r) = String.list_ascii_of_string r
    /\ (r = EmptyString
        <-> forallb is_space (String.list_ascii_of_string "  v1.2 ") = true)
    /\ _parse_version (Some r) = (if String.eqb r EmptyString then None else Some r).
Proof. apply (parse_version_normalises "  v1.2 "). discriminate. Defined.

(** * The device listing *)

(** ** Order of texts *)

Lemma char_compare_lt_trans (a b c : Ascii.ascii) :
  Ascii.compare a b = Lt -> Ascii.compare b c = Lt -> Ascii.compare a c = Lt.
Proof.
  unfold Ascii.compare. rewrite !N.compare_lt_iff. lia.
Qed.

Lemma text_compare_lt_trans (a : string) : forall b c,
  String.compare a b = Lt -> String.compare b c = Lt -> String.compare a c = Lt.
Proof.
  induction a as [|x a IH]; intros [|y b] [|z c]; cbn [String.compare];
    try discriminate; try reflexivity.
  destruct (Ascii.compare x y) eqn:Exy; try discriminate;
    destruct (Ascii.compare y z) eqn:Eyz; try discriminate; intros Hab Hbc.
  - apply Ascii.compare_eq_iff in Exy, Eyz. subst.
    assert (E : Ascii.compare z z = Eq) by (unfold Ascii.compare; apply N.compare_refl).
    rewrite E. eapply IH; eassumption.
  - apply Ascii.compare_eq_iff in Exy. subst. rewrite Eyz. reflexivity.
  - apply Ascii.compare_eq_iff in Eyz. subst. rewrite Exy. reflexivity.
  - rewrite (char_compare_lt_trans x y z Exy Eyz). reflexivity.
Qed.

Lemma text_compare_refl (a : string) : String.compare a a = Eq.
Proof.
  induction a as [|x a IH]; cbn [String.compare]; [reflexivity|].
  assert (E : Ascii.compare x x = Eq) by (unfold Ascii.compare; apply N.compare_refl).
  rewrite E. exact IH.
Qed.

Lemma text_ltb_irrefl (a : string) : String.ltb a a = false.
Proof. unfold String.ltb. rewrite text_compare_refl. reflexivity. Qed.

Lemma text_not_ltb_leb (a b : string) : String.ltb b a = false -> String.leb a b = true.
Proof.
  unfold String.ltb, String.leb. rewrite (String.compare_antisym a b).
  destruct (String.compare b a); cbn; congruence.
Qed.

Lemma text_ltb_leb (a b : string) : String.ltb a b = true -> String.leb a b = true.
Proof.
  unfold String.ltb, String.leb. destruct (String.compare a b); congruence.
Qed.

Lemma text_leb_trans (a b c : string) :
  String.leb a b = true -> String.leb b c = true -> String.leb a c = true.
Proof.
  unfold String.leb.
  destruct (String.compare a b) eqn:Eab; try discriminate;
    destruct (String.compare b c) eqn:Ebc; try discriminate; intros _ _.
  - apply String.compare_eq_iff in Eab, Ebc. subst. rewrite text_compare_refl. reflexivity.
  - apply String.compare_eq_iff in Eab. subst. rewrite Ebc. reflexivity.
  - apply String.compare_eq_iff in Ebc. subst. rewrite Eab. reflexivity.
  - rewrite (text_compare_lt_trans a b c Eab Ebc). reflexivity.
Qed.

(** ** The sort *)

Section Sorting.
Context {A : Type} (key : A -> string).

Lemma in_order_cons x l :
  in_order key (x :: l) <->
  (forall b, b ∈ l -> String.leb (key x) (key b) = true) /\ in_order key l.
Proof.
  split.
  - intros H. split.
    + intros b Hb. apply list_elem_of_lookup in Hb as [j Hj].
      apply (H 0%nat (S j) x b); [lia | reflexivity | exact Hj].
    + intros i j a b Hij Hi Hj. apply (H (S i) (S j) a b); [lia | exact Hi | exact Hj].
  - intros [Hx Hl] i j a b Hij Hi Hj.
    destruct j as [|j]; [lia|]. cbn in Hj.
    destruct i as [|i].
    + cbn in Hi. injection Hi as <-. apply Hx. eapply list_elem_of_lookup_2, Hj.
    + cbn in Hi. apply (Hl i j a b); [lia | exact Hi | exact Hj].
Qed.

Lemma sort_insert_perm x l : sort_insert key x l ≡ₚ x :: l.
Proof.
  induction l as [|y l IH]; cbn [sort_insert]; [reflexivity|].
  destruct (String.ltb (key y) (key x)); [|reflexivity].
  rewrite IH. apply Permutation_swap.
Qed.

Lemma sort_by_perm l : sort_by key l ≡ₚ l.
Proof.
  unfold sort_by. induction l as [|x l IH]; cbn [foldr]; [reflexivity|].
  rewrite sort_insert_perm, IH. reflexivity.
Qed.

Lemma sort_insert_in_order x l : in_order key l -> in_order key (sort_insert key x l).
Proof.
  induction l as [|y l IH]; cbn [sort_insert]; intros Hl.
  - apply in_order_cons. split; [|exact Hl]. intros b Hb. inversion Hb.
  - destruct (String.ltb (key y) (key x)) eqn:Hyx.
    + apply in_order_cons in Hl as [Hy Hl]. apply in_order_cons. split.
      * intros b Hb. rewrite sort_insert_perm in Hb.
        apply elem_of_cons in Hb as [->|Hb]; [apply text_ltb_leb, Hyx | apply Hy, Hb].
      * apply IH, Hl.
    + apply in_order_cons. split; [|exact Hl].
      intros b Hb. apply elem_of_cons in Hb as [->|Hb].
      * apply text_not_ltb_leb, Hyx.
      * apply in_order_cons in Hl as [Hy _].
        eapply text_leb_trans; [apply text_not_ltb_leb, Hyx | apply Hy, Hb].
Qed.

Lemma sort_by_in_order l : in_order key (sort_by key l).
Proof.
  unfold sort_by. induction l as [|x l IH]; cbn [foldr].
  - intros i j a b _ Hi. rewrite lookup_nil in Hi. discriminate.
  - apply sort_insert_in_order, IH.
Qed.

Lemma sort_insert_stable (k : string) x l :
  List.filter (fun a => String.eqb (key a) k) (sort_insert key x l)
  = List.filter (fun a => String.eqb (key a) k) (x :: l).
Proof.
  induction l as [|y l IH]; cbn [sort_insert]; [reflexivity|].
  destruct (String.ltb (key y) (key x)) eqn:Hyx; [|reflexivity].
  cbn [List.filter] in *. rewrite IH.
  destruct (String.eqb_spec (key x) k) as [Ex|Ex]; [|reflexivity].
  destruct (String.eqb_spec (key y) k) as [Ey|Ey]; [|reflexivity].
  rewrite Ex, Ey, text_ltb_irrefl in Hyx. discriminate.
Qed.

Lemma sort_by_stable (k : string) l :
  List.filter (fun a => String.eqb (key a) k) (sort_by key l)
  = List.filter (fun a => String.eqb (key a) k) l.
Proof.
  unfold sort_by. induction l as [|x l IH]; cbn [foldr]; [reflexivity|].
  rewrite sort_insert_stable. cbn [List.filter]. rewrite IH. reflexivity.
Qed.
End Sorting.

(** ** Rows *)

Lemma elem_of_filter_bool {A} (f : A -> bool) (x : A) (l : list A) :
  x ∈ List.filter f l <-> x ∈ l /\ f x = true.
Proof. rewrite !list_elem_of_In. apply filter_In. Qed.

Lemma listing_rows (hass : Hass) (P : DeviceRow -> Prop) :
  (forall entity,
      entity ∈ h_entities hass -> is_esphome_update entity = true ->
      P (entity_row hass (_get_esphome_builder_version hass) entity)) ->
  (forall device,
      device ∈ h_devices hass -> without_update_entity hass device = true ->
      P (device_row hass (_get_esphome_builder_version hass) device)) ->
  Forall P (_get_esphome_update_entities hass).
Proof.
  intros He Hd. unfold _get_esphome_update_entities.
  rewrite sort_by_perm. unfold device_rows. apply Forall_app. split.
  - apply Forall_fmap, Forall_forall. intros e [H1 H2]%elem_of_filter_bool.
    apply He; assumption.
  - apply Forall_fmap, Forall_forall. intros d [H1 H2]%elem_of_filter_bool.
    apply Hd; assumption.
Qed.

Lemma update_available_none_r installed :
  _is_update_available installed None = false.
Proof.
  unfold _is_update_available. destruct (_version_tuple installed); reflexivity.
Qed.

Lemma update_available_some installed latest :
  _is_update_available installed latest = true -> latest <> None.
Proof.
  intros H ->. rewrite update_available_none_r in H. discriminate.
Qed.

Lemma shown_versions_agree installed latest (b : bool) :
  let avail := b && _is_update_available installed latest in
  let shown := if avail then latest else None in
  avail = _is_update_available installed shown
  /\ (shown = None <-> avail = false).
Proof.
  cbn zeta. destruct b; cbn [andb].
  - destruct (_is_update_available installed latest) eqn:E.
    + split; [symmetry; exact E|]. split; [|discriminate].
      intros H. exfalso. exact (update_available_some _ _ E H).
    + rewrite update_available_none_r. repeat split; reflexivity.
  - rewrite update_available_none_r. repeat split; reflexivity.
Qed.

(** X20. In every row of the listing the update flag is the numeric
    comparison of the two versions shown in that row, and a latest
    version is shown exactly when the flag is set: the panel never
    announces an update to a version that is not greater than the
    current one, and never shows a latest version without announcing
    it. *)
Theorem listed_update_is_a_newer_version (hass : Hass) :
  Forall (fun row =>
            update_available row
            = _is_update_available (current_version row) (latest_version row)
            /\ (latest_version row = None <-> update_available row = false))
         (_get_esphome_update_entities hass).
Proof.
  apply listing_rows.
  - intros entity _ _. unfold entity_row.
    destruct (is_none (re_disabled_by entity)); cbn [negb].
    + destruct (h_states hass (re_entity_id entity)) as [st|].
      * destruct (String.eqb (es_state st) "unavailable").
        -- cbn [current_version latest_version update_available].
           apply (shown_versions_agree _ _ true).
        -- cbn [current_version latest_version update_available].
           apply shown_versions_agree.
      * cbn [current_version latest_version update_available].
        apply (shown_versions_agree _ _ true).
    + cbn [current_version latest_version update_available].
      apply (shown_versions_agree _ _ true).
  - intros device _ _. unfold device_row.
    cbn [current_version latest_version update_available].
    apply (shown_versions_agree _ _ true).
Qed.

(** X21. A row carries at most one of the marks disabled, unavailable,
    enabling and in progress; a row without an entity id is always
    marked disabled; and a row is marked enabling only when its device
    is not known to be offline. *)
Theorem listed_marks_exclude_each_other (hass : Hass) :
  Forall (fun row =>
            (firmware_disabled row = true ->
             firmware_unavailable row = false /\ enabling row = false
             /\ in_progress row = false)
            /\ (firmware_unavailable row = true ->
                enabling row = false /\ in_progress row = false)
            /\ (enabling row = true ->
                in_progress row = false /\ online row <> Some false)
            /\ (d_entity_id row = None -> firmware_disabled row = true))
         (_get_esphome_update_entities hass).
Proof.
  apply listing_rows.
  - intros entity _ _. unfold entity_row.
    destruct (is_none (re_disabled_by entity)); cbn [negb].
    + destruct (h_states hass (re_entity_id entity)) as [st|].
      * destruct (String.eqb (es_state st) "unavailable");
          cbn [firmware_disabled firmware_unavailable enabling in_progress online
               d_entity_id is_none andb negb];
          repeat split; try discriminate; try reflexivity.
      * cbn [firmware_disabled firmware_unavailable enabling in_progress online
             d_entity_id is_none andb negb].
        split; [discriminate|]. split; [discriminate|].
        split; [|discriminate].
        intros Hen. split; [reflexivity|]. intros Hoff. rewrite Hoff in Hen.
        rewrite bool_decide_eq_true_2 in Hen by reflexivity. discriminate.
    + cbn [firmware_disabled firmware_unavailable enabling in_progress online d_entity_id].
      repeat split; try discriminate; reflexivity.
  - intros device _ _. unfold device_row.
    cbn [firmware_disabled firmware_unavailable enabling in_progress online d_entity_id].
    repeat split; try discriminate; reflexivity.
Qed.

Lemma entity_row_listed (hass : Hass) entity :
  entity ∈ h_entities hass -> is_esphome_update entity = true ->
  entity_row hass (_get_esphome_builder_version hass) entity
  ∈ _get_esphome_update_entities hass.
Proof.
  intros Hin Hup. unfold _get_esphome_update_entities.
  rewrite sort_by_perm. unfold device_rows. apply elem_of_app. left.
  apply list_elem_of_fmap. exists entity. split; [reflexivity|].
  apply elem_of_filter_bool. split; assumption.
Qed.

Lemma is_none_true {A} (x : option A) : is_none x = true <-> x = None.
Proof. destruct x; cbn; split; congruence. Qed.

Lemma is_none_false {A} (x : option A) : is_none x = false <-> x <> None.
Proof. destruct x; cbn; split; congruence. Qed.

Ltac read_marks :=
  repeat split; intros;
  repeat match goal with
         | H : _ /\ _ |- _ => destruct H
         | H : exists _, _ |- _ => destruct H
         end;
  try congruence;
  try (eexists; repeat split; eauto; congruence).

(** X22. Every update entity of the ESPHome platform in the registry,
    enabled or not, has a row under its entity id, and the marks of that
    row say where the entity stands: disabled when the registry has it
    disabled; enabling when it is enabled, has no state yet and its
    device is not known to be offline; unavailable when it is enabled
    and its state reads unavailable; in progress only when it is enabled
    with a state other than unavailable whose attribute says so. *)
Theorem update_entity_has_its_row (hass : Hass) (entity : RegistryEntry) :
  entity ∈ h_entities hass -> is_esphome_update entity = true ->
  exists row,
    row ∈ _get_esphome_update_entities hass
    /\ d_entity_id row = Some (re_entity_id entity)
    /\ online row = _is_device_online hass (re_device_id entity)
    /\ (firmware_disabled row = true <-> re_disabled_by entity <> None)
    /\ (enabling row = true <->
        re_disabled_by entity = None
        /\ h_states hass (re_entity_id entity) = None
        /\ _is_device_online hass (re_device_id entity) <> Some false)
    /\ (firmware_unavailable row = true <->
        re_disabled_by entity = None
        /\ exists st, h_states hass (re_entity_id entity) = Some st
                      /\ es_state st = "unavailable")
    /\ (in_progress row = true <->
        re_disabled_by entity = None
        /\ exists st, h_states hass (re_entity_id entity) = Some st
                      /\ es_state st <> "unavailable"
                      /\ es_in_progress st = true).
Proof.
  intros Hin Hup.
  exists (entity_row hass (_get_esphome_builder_version hass) entity).
  split; [apply entity_row_listed; assumption|].
  unfold entity_row.
  destruct (re_disabled_by entity) as [by_whom|] eqn:Hdis; cbn [is_none negb].
  - cbn [d_entity_id online firmware_disabled enabling firmware_unavailable in_progress].
    split; [reflexivity|]. split; [reflexivity|]. read_marks.
  - destruct (h_states hass (re_entity_id entity)) as [st|] eqn:Hst.
    + destruct (String.eqb_spec (es_state st) "unavailable") as [Eu|Eu];
        cbn [d_entity_id online firmware_disabled enabling firmware_unavailable
             in_progress is_none negb andb];
        (split; [reflexivity|]); (split; [reflexivity|]); read_marks.
    + cbn [d_entity_id online firmware_disabled enabling firmware_unavailable
           in_progress is_none negb andb].
      split; [reflexivity|]. split; [reflexivity|].
      rewrite negb_true_iff, bool_decide_eq_false. read_marks.
Qed.

Lemma update_entity_has_its_row_witness :
  exists row,
    row ∈ _get_esphome_update_entities panel_example
    /\ d_entity_id row = Some "update.attic_firmware"
    /\ online row = Some true
    /\ enabling row = true /\ firmware_disabled row = false.
Proof.
  destruct (update_entity_has_its_row panel_example
              (mkRegistryEntry "update.attic_firmware" (Some "dev3") "update"
                               "esphome" None))
    as (row & Hin & Hid & Hon & Hdis & Hen & _).
  - apply list_elem_of_In. vm_compute. tauto.
  - reflexivity.
  - exists row. split; [exact Hin|]. split; [exact Hid|]. split; [exact Hon|].
    split.
    + apply Hen. split; [reflexivity|]. split; [reflexivity|]. discriminate.
    + destruct (firmware_disabled row); [|reflexivity].
      exfalso. apply Hdis; reflexivity.
Defined.

Lemma entity_row_id (hass : Hass) bv entity :
  d_entity_id (entity_row hass bv entity) = Some (re_entity_id entity).
Proof.
  unfold entity_row. destruct (is_none (re_disabled_by entity)); cbn [negb]; [|reflexivity].
  destruct (h_states hass (re_entity_id entity)) as [st|]; [|reflexivity].
  destruct (String.eqb (es_state st) "unavailable"); reflexivity.
Qed.

Lemma omap_entity_rows (hass : Hass) bv (entities : list RegistryEntry) :
  omap d_entity_id (entity_row hass bv <$> entities) = re_entity_id <$> entities.
Proof.
  induction entities as [|e l IH]; [reflexivity|].
  cbn [fmap list_fmap omap list_omap]. rewrite entity_row_id.
  cbn [fmap list_fmap omap list_omap] in IH. rewrite IH. reflexivity.
Qed.

Lemma omap_device_rows (hass : Hass) bv (devices : list DeviceEntry) :
  omap d_entity_id (device_row hass bv <$> devices) = [].
Proof.
  induction devices as [|d l IH]; [reflexivity|].
  cbn [fmap list_fmap omap list_omap d_entity_id device_row].
  cbn [fmap list_fmap omap list_omap] in IH. exact IH.
Qed.

Lemma mem_spec (x : string) (l : list string) : mem x l = true <-> x ∈ l.
Proof.
  unfold mem. rewrite existsb_exists, list_elem_of_In. split.
  - intros (y & Hy & E). apply String.eqb_eq in E. subst. exact Hy.
  - intros H. exists x. split; [exact H | apply String.eqb_refl].
Qed.

Lemma devices_with_update_entity_spec (hass : Hass) (x : string) :
  x ∈ devices_with_update_entity hass <->
  exists entity,
    entity ∈ h_entities hass /\ is_esphome_update entity = true
    /\ re_device_id entity = Some x /\ x <> EmptyString.
Proof.
  unfold devices_with_update_entity. rewrite list_elem_of_omap. split.
  - intros (e & [He Hu]%elem_of_filter_bool & Hx).
    exists e. split; [exact He|]. split; [exact Hu|].
    destruct (re_device_id e) as [d|] eqn:Hd; cbn [truthy] in Hx; [|discriminate].
    destruct (String.eqb_spec d EmptyString) as [E|E]; cbn [negb] in Hx; [discriminate|].
    injection Hx as <-. split; [reflexivity | exact E].
  - intros (e & He & Hu & Hd & Hx). exists e. split.
    + apply elem_of_filter_bool. split; assumption.
    + rewrite Hd. cbn [truthy].
      destruct (String.eqb_spec x EmptyString) as [E|E]; [contradiction | reflexivity].
Qed.

(** X23. The listing has exactly one row for every update entity of the
    ESPHome platform in the registry, under its entity id, and beyond
    those one row without entity id for every device that belongs to an
    ESPHome config entry and is named by none of these update entities;
    it has no other rows. *)
Theorem listing_has_one_row_per_device (hass : Hass) :
  omap d_entity_id (_get_esphome_update_entities hass)
  ≡ₚ re_entity_id <$> List.filter is_esphome_update (h_entities hass)
  /\ length (_get_esphome_update_entities hass)
     = (length (List.filter is_esphome_update (h_entities hass))
        + length (List.filter (without_update_entity hass) (h_devices hass)))%nat
  /\ forall device,
       without_update_entity hass device = true <->
       (exists ceid, ceid ∈ dev_config_entries device /\ ceid ∈ h_esphome_entries hass)
       /\ forall entity,
            entity ∈ h_entities hass -> is_esphome_update entity = true ->
            re_device_id entity = Some (dev_id device) ->
            dev_id device = EmptyString.
Proof.
  split; [|split].
  - unfold _get_esphome_update_entities. rewrite sort_by_perm. unfold device_rows.
    rewrite omap_app, omap_entity_rows, omap_device_rows, app_nil_r. reflexivity.
  - unfold _get_esphome_update_entities. rewrite sort_by_perm. unfold device_rows.
    rewrite length_app, !length_fmap. reflexivity.
  - intros device. unfold without_update_entity.
    rewrite andb_true_iff, negb_true_iff, existsb_exists.
    split.
    + intros [(ceid & Hc & Hm) Hno]. split.
      * exists ceid. split; [apply list_elem_of_In, Hc | apply mem_spec, Hm].
      * intros entity He Hu Hd.
        destruct (String.eqb_spec (dev_id device) EmptyString) as [E|E]; [exact E|].
        exfalso.
        assert (Hin : mem (dev_id device) (devices_with_update_entity hass) = true).
        { apply mem_spec, devices_with_update_entity_spec. exists entity. auto. }
        rewrite Hin in Hno. discriminate.
    + intros [(ceid & Hc & Hm) Hno]. split.
      * exists ceid. split; [apply list_elem_of_In, Hc | apply mem_spec, Hm].
      * destruct (mem (dev_id device) (devices_with_update_entity hass)) eqn:Hin;
          [|reflexivity].
        exfalso. apply mem_spec, devices_with_update_entity_spec in Hin
          as (entity & He & Hu & Hd & Hx).
        apply Hx. eapply Hno; eassumption.
Qed.

(** X24. The listing is ordered by the lower-cased name, is a
    rearrangement of the rows in registry order (update entities first,
    then the devices without one), and keeps rows of equal lower-cased
    name in that order. *)
Theorem listing_is_sorted_by_name (hass : Hass) :
  in_order sort_key (_get_esphome_update_entities hass)
  /\ _get_esphome_update_entities hass ≡ₚ device_rows hass
  /\ forall k,
       List.filter (fun row => String.eqb (sort_key row) k)
                   (_get_esphome_update_entities hass)
       = List.filter (fun row => String.eqb (sort_key row) k) (device_rows hass).
Proof.
  unfold _get_esphome_update_entities. split; [|split].
  - apply sort_by_in_order.
  - apply sort_by_perm.
  - intros k. apply sort_by_stable.
Qed.


(** ** The builder version *)

Lemma truthy_spec (x : option string) :
  truthy x = true <-> exists text, x = Some text /\ text <> EmptyString.
Proof.
  destruct x as [s|]; cbn [truthy].
  - destruct (String.eqb_spec s EmptyString) as [E|E]; cbn [negb]; split.
    + discriminate.
    + intros (t & [= <-] & H). contradiction.
    + intros _. eauto.
    + reflexivity.
  - split; [discriminate | intros (t & H & _); discriminate].
Qed.

Lemma parse_version_some (text : string) :
  text <> EmptyString -> _parse_version (Some text) <> None.
Proof.
  intros H. unfold _parse_version. rewrite (chars_nonempty text H).
  destruct (match_version _); discriminate.
Qed.

Lemma first_latest_version_some states entities v :
  first_latest_version states entities = Some v ->
  exists entity st text,
    entity ∈ entities /\ is_esphome_update entity = true
    /\ re_disabled_by entity = None
    /\ states (re_entity_id entity) = Some st
    /\ es_latest_version st = Some text /\ text <> EmptyString
    /\ _parse_version (Some text) = Some v.
Proof.
  induction entities as [|e l IH]; cbn [first_latest_version]; [discriminate|].
  assert (Hrest : first_latest_version states l = Some v ->
                  exists entity st text,
                    entity ∈ e :: l /\ is_esphome_update entity = true
                    /\ re_disabled_by entity = None
                    /\ states (re_entity_id entity) = Some st
                    /\ es_latest_version st = Some text /\ text <> EmptyString
                    /\ _parse_version (Some text) = Some v).
  { intros H. destruct (IH H) as (x & st & t & Hx & Hrest).
    exists x, st, t. split; [right; exact Hx | exact Hrest]. }
  fold (is_esphome_update e).
  destruct (is_esphome_update e) eqn:Hup; cbn [andb]; [|exact Hrest].
  destruct (is_none (re_disabled_by e)) eqn:Hdis; [|exact Hrest].
  destruct (states (re_entity_id e)) as [st|] eqn:Hst; [|exact Hrest].
  destruct (truthy (es_latest_version st)) eqn:Ht; [|exact Hrest].
  intros Hv. apply truthy_spec in Ht as (text & Et & Hne).
  exists e, st, text. rewrite Et in Hv.
  split; [left|]. split; [exact Hup|]. split; [apply is_none_true, Hdis|]. auto.
Qed.

Lemma first_latest_version_none states entities :
  first_latest_version states entities = None <->
  forall entity st,
    entity ∈ entities -> is_esphome_update entity = true ->
    re_disabled_by entity = None -> states (re_entity_id entity) = Some st ->
    truthy (es_latest_version st) = false.
Proof.
  induction entities as [|e l IH]; cbn [first_latest_version].
  - split; [|reflexivity]. intros _ x st Hx. inversion Hx.
  - assert (Hskip : (forall st, is_esphome_update e = true ->
                                re_disabled_by e = None ->
                                states (re_entity_id e) = Some st ->
                                truthy (es_latest_version st) = false) ->
                    (first_latest_version states l = None <->
                     forall entity st,
                       entity ∈ e :: l -> is_esphome_update entity = true ->
                       re_disabled_by entity = None ->
                       states (re_entity_id entity) = Some st ->
                       truthy (es_latest_version st) = false)).
    { intros He. rewrite IH. split.
      - intros H x st [->|Hx]%elem_of_cons; [apply He | apply H, Hx].
      - intros H x st Hx. apply H. right. exact Hx. }
    fold (is_esphome_update e).
    destruct (is_esphome_update e) eqn:Hup; cbn [andb];
      [|apply Hskip; discriminate].
    destruct (is_none (re_disabled_by e)) eqn:Hdis;
      [|apply Hskip; intros st _ H; apply is_none_false in Hdis; contradiction].
    destruct (states (re_entity_id e)) as [st|] eqn:Hst;
      [|apply Hskip; discriminate].
    destruct (truthy (es_latest_version st)) eqn:Ht;
      [|apply Hskip; intros st' _ _ [= <-]; exact Ht].
    split.
    + intros H. apply truthy_spec in Ht as (text & Et & Hne).
      rewrite Et in H. exfalso. exact (parse_version_some text Hne H).
    + intros H. rewrite (H e st) in Ht; try discriminate; auto.
      * left.
      * apply is_none_true, Hdis.
Qed.

(** X25. The builder version is always the normalised form of a
    version somebody reports: the installed version of the builder's own
    update entity if that is not empty, otherwise the latest version of
    an enabled ESPHome update entity of the registry.  It is unknown
    exactly when the builder entity reports none and no enabled ESPHome
    update entity with a state reports a latest version. *)
Theorem builder_version_is_a_reported_version (hass : Hass) :
  (forall v,
      _get_esphome_builder_version hass = Some v ->
      exists text,
        text <> EmptyString /\ _parse_version (Some text) = Some v
        /\ ((exists st, h_states hass BUILDER_ENTITY_ID = Some st
                        /\ es_installed_version st = Some text)
            \/ exists entity, reports_latest hass entity text))
  /\ (_get_esphome_builder_version hass = None <->
      (forall st, h_states hass BUILDER_ENTITY_ID = Some st ->
                  truthy (es_installed_version st) = false)
      /\ forall entity text, reports_latest hass entity text -> text = EmptyString).
Proof.
  assert (Hscan : forall v,
             first_latest_version (h_states hass) (h_entities hass) = Some v ->
             exists text,
               text <> EmptyString /\ _parse_version (Some text) = Some v
               /\ ((exists st, h_states hass BUILDER_ENTITY_ID = Some st
                               /\ es_installed_version st = Some text)
                   \/ exists entity, reports_latest hass entity text)).
  { intros v H.
    destruct (first_latest_version_some _ _ _ H)
      as (e & st & text & He & Hu & Hd & Hst & Hl & Hne & Hp).
    exists text. split; [exact Hne|]. split; [exact Hp|]. right.
    exists e. unfold reports_latest. eauto 10. }
  assert (Hnone : first_latest_version (h_states hass) (h_entities hass) = None <->
                  forall entity text, reports_latest hass entity text -> text = EmptyString).
  { rewrite first_latest_version_none. split.
    - intros H e text (He & Hu & Hd & st & Hst & Hl).
      specialize (H e st He Hu Hd Hst). rewrite Hl in H. cbn [truthy] in H.
      apply negb_false_iff, String.eqb_eq in H. exact H.
    - intros H e st He Hu Hd Hst.
      destruct (truthy (es_latest_version st)) eqn:Ht; [|reflexivity].
      apply truthy_spec in Ht as (text & Et & Hne). exfalso. apply Hne.
      apply (H e). unfold reports_latest. eauto 10. }
  unfold _get_esphome_builder_version.
  destruct (h_states hass BUILDER_ENTITY_ID) as [state|] eqn:Hb.
  - destruct (truthy (es_installed_version state)) eqn:Ht.
    + apply truthy_spec in Ht as (text & Et & Hne). rewrite Et. split.
      * intros v Hv. exists text. split; [exact Hne|]. split; [exact Hv|].
        left. exists state. auto.
      * split.
        -- intros H. exfalso. exact (parse_version_some text Hne H).
        -- intros [H _]. specialize (H state eq_refl). rewrite Et in H.
           cbn [truthy] in H. apply negb_false_iff, String.eqb_eq in H. contradiction.
    + split; [exact Hscan|]. rewrite Hnone. split.
      * intros H. split; [|exact H]. intros st [= <-]. exact Ht.
      * intros [_ H]. exact H.
  - split; [exact Hscan|]. rewrite Hnone. split.
    + intros H. split; [|exact H]. intros st Hst. discriminate.
    + intros [_ H]. exact H.
Qed.
